(** * env-guardian-cli: the validation engine of [src/core/validator.ts]

    A shallow embedding of the validator (type coercion, format checks,
    the per-variable field validator and the aggregator [validate]) and
    the properties of it that the specification states.

    Conventions of the embedding.
    - A JavaScript string is a [string]: a sequence of code units, here
      restricted to the code units 0..255.
    - A JavaScript number is a binary64 value, [spec_float] of the
      standard library's IEEE 754 specification ([prec = 53],
      [emax = 1024]).
    - An object used as an ordered record of keys (the schema's
      [variables], the environment) is an association list in the order
      in which [Object.keys] / [Object.entries] enumerate it; keys of an
      object are unique, which the theorems ask as [NoDup] where they
      depend on it.
    - The result's [parsed] object is only ever read by key: a [gmap]
      of its own keys.
    - The objects are ordinary objects: a key that an object does not
      have itself reads as the member of [Object.prototype] of that
      name, if there is one, and the assignment to the key [__proto__]
      creates no key.
    - A call that can throw gives a [thrown] value.
    - [validate] is given twice: as a function of the values of its
      arguments, and in [Imp] as the program that it is, on a heap of
      objects that its assignments and its calls of [push] change.
    - What the host provides and the source only calls (compiling and
      running a regular expression, [new URL], [JSON.parse]) is the
      interface [Host], with the text of the host's built-in functions
      and the messages of its [TypeError]s; [Number(s)] and [String(n)]
      are defined here, after ECMAScript. *)

From Stdlib Require Import ZArith List Bool Ascii String DecimalString SpecFloat.
From stdpp Require Import base option list gmap strings.

Local Open Scope string_scope.

(** ** Host language primitives *)

Module JS.

(** *** Strings *)

Definition chars (s : string) : list ascii := list_ascii_of_string s.

Definition code (c : ascii) : nat := nat_of_ascii c.

Definition in_range (lo hi : nat) (c : ascii) : bool :=
  Nat.leb lo (code c) && Nat.leb (code c) hi.

Definition is_digit : ascii -> bool := in_range 48 57.
Definition is_upper : ascii -> bool := in_range 65 90.
Definition is_lower : ascii -> bool := in_range 97 122.

Definition is_hex_digit (c : ascii) : bool :=
  is_digit c || in_range 65 70 c || in_range 97 102 c.

Definition is_alnum (c : ascii) : bool :=
  is_lower c || is_upper c || is_digit c.

(** [WhiteSpace] and [LineTerminator] of ECMAScript among the code
    units 0..255: TAB, LF, VT, FF, CR, SP and NBSP. This is the class
    [\s] and what [Number] strips on both sides. *)
Definition is_space (c : ascii) : bool :=
  in_range 9 13 c || Nat.eqb (code c) 32 || Nat.eqb (code c) 160.

(** [String.prototype.toLowerCase] on the code units 0..255: the
    letters A-Z and the Latin-1 capitals (192..222 but the
    multiplication sign 215) move 32 up. *)
Definition lower_char (c : ascii) : ascii :=
  if is_upper c || (in_range 192 222 c && negb (Nat.eqb (code c) 215))
  then ascii_of_nat (code c + 32) else c.

Fixpoint toLowerCase (s : string) : string :=
  match s with
  | EmptyString => EmptyString
  | String c r => String (lower_char c) (toLowerCase r)
  end.

(** [s.startsWith(p)] *)
Definition startsWith (s p : string) : bool := String.prefix p s.

(** [s.endsWith(p)] *)
Definition endsWith (s p : string) : bool :=
  String.prefix (string_of_list_ascii (rev (list_ascii_of_string p)))
                (string_of_list_ascii (rev (list_ascii_of_string s))).

(** [s.slice(n)] for [0 <= n] *)
Fixpoint slice (s : string) (n : nat) {struct n} : string :=
  match n with
  | O => s
  | S k =>
      match s with
      | EmptyString => EmptyString
      | String _ r => slice r k
      end
  end.

(** [xs.includes(x)] on an array of strings *)
Definition includes (xs : list string) (x : string) : bool :=
  existsb (String.eqb x) xs.

(** [xs.join(sep)] *)
Definition join (sep : string) (xs : list string) : string :=
  String.concat sep xs.

(** The text of one double quote. *)
Definition quote : string := String (ascii_of_nat 34) EmptyString.

(** Truthiness of a string: every string but the empty one. *)
Definition truthy (s : string) : bool :=
  match s with EmptyString => false | _ => true end.

(** *** Numbers *)

Definition prec : Z := 53.
Definition emax : Z := 1024.

Definition number : Type := spec_float.

Definition NaN : number := S754_nan.

Definition isNaN (n : number) : bool :=
  match n with S754_nan => true | _ => false end.


(** The number of an integer (exact below 2^53, rounded above). *)
Definition of_Z (z : Z) : number := binary_normalize prec emax z 0 false.

Definition of_nat (n : nat) : number := of_Z (Z.of_nat n).

(** [a < b], [a > b], [a <= b], [a >= b]: false when either is NaN. *)
Definition lt (a b : number) : bool := SFltb a b.
Definition gt (a b : number) : bool := SFltb b a.
Definition le (a b : number) : bool := SFleb a b.
Definition ge (a b : number) : bool := SFleb b a.

(** [Number.isInteger] *)
Definition isInteger (n : number) : bool :=
  match n with
  | S754_zero _ => true
  | S754_finite _ m e =>
      (0 <=? e)%Z || (Z.pos m mod 2 ^ (- e) =? 0)%Z
  | _ => false
  end.

(** The value [(-1)^sign * m * 10^e] rounded to nearest, ties to even. *)
Definition of_decimal (sign : bool) (m e : Z) : number :=
  match m with
  | Z.pos p =>
      if (0 <=? e)%Z
      then binary_round prec emax sign (p * Z.to_pos (10 ^ e))%positive 0
      else
        let '(q, e', l) :=
          SFdiv_core_binary prec emax (Z.pos p) 0 (10 ^ (- e)) 0 in
        binary_round_aux prec emax sign q e' l
  | _ => S754_zero sign
  end.

(** *** [Number(string)]: the grammar [StringNumericLiteral] *)

Definition digit_value (c : ascii) : option Z :=
  if is_digit c then Some (Z.of_nat (code c) - 48)%Z
  else if in_range 97 102 c then Some (Z.of_nat (code c) - 87)%Z
  else if in_range 65 70 c then Some (Z.of_nat (code c) - 55)%Z
  else None.

(** The digits at the head of [cs] that are below [radix], read as a
    number in that radix onto [acc]; how many there were; the rest. *)
Fixpoint read_digits (radix : Z) (acc : Z) (count : nat) (cs : list ascii)
  : Z * nat * list ascii :=
  match cs with
  | c :: r =>
      match digit_value c with
      | Some d =>
          if (d <? radix)%Z
          then read_digits radix (acc * radix + d)%Z (S count) r
          else (acc, count, cs)
      | None => (acc, count, cs)
      end
  | [] => (acc, count, cs)
  end.

(** [ExponentPart_opt] followed by the end of the text. *)
Definition read_exponent (cs : list ascii) : option Z :=
  match cs with
  | [] => Some 0%Z
  | c :: r =>
      if Ascii.eqb c "e" || Ascii.eqb c "E" then
        let '(neg, ds) :=
          match r with
          | s :: r' =>
              if Ascii.eqb s "-" then (true, r')
              else if Ascii.eqb s "+" then (false, r')
              else (false, r)
          | [] => (false, r)
          end in
        match read_digits 10 0 0 ds with
        | (_, O, _) => None
        | (x, _, []) => Some (if neg then - x else x)%Z
        | _ => None
        end
      else None
  end.

(** [StrUnsignedDecimalLiteral] *)
Definition unsigned_decimal (sign : bool) (cs : list ascii) : number :=
  if String.eqb (string_of_list_ascii cs) "Infinity" then S754_infinity sign
  else
    let '(ip, ni, r1) := read_digits 10 0 0 cs in
    let '(m, nf, r2) :=
      match r1 with
      | c :: r =>
          if Ascii.eqb c "." then read_digits 10 ip 0 r else (ip, O, r1)
      | [] => (ip, O, r1)
      end in
    if Nat.eqb ni 0 && Nat.eqb nf 0 then NaN
    else
      match read_exponent r2 with
      | Some x => of_decimal sign m (x - Z.of_nat nf)
      | None => NaN
      end.

(** [NonDecimalIntegerLiteral]: 0x, 0o and 0b, with no sign. *)
Definition non_decimal (cs : list ascii) : option number :=
  match cs with
  | z :: k :: ds =>
      let radix : option Z :=
        if negb (Ascii.eqb z "0") then None
        else if Ascii.eqb k "x" || Ascii.eqb k "X" then Some 16%Z
        else if Ascii.eqb k "o" || Ascii.eqb k "O" then Some 8%Z
        else if Ascii.eqb k "b" || Ascii.eqb k "B" then Some 2%Z
        else None in
      match radix with
      | Some rx =>
          match read_digits rx 0 0 ds with
          | (_, O, _) => Some NaN
          | (v, _, []) => Some (of_Z v)
          | _ => Some NaN
          end
      | None => None
      end
  | _ => None
  end.

Fixpoint trim_start (cs : list ascii) : list ascii :=
  match cs with
  | c :: r => if is_space c then trim_start r else cs
  | [] => []
  end.

Definition trim (cs : list ascii) : list ascii :=
  rev (trim_start (rev (trim_start cs))).

(** [Number(s)]: white space around the literal is dropped, the empty
    text is [+0], a text outside the grammar is [NaN]. Decimal
    literals round to the nearest double. *)
Definition Number (s : string) : number :=
  match trim (chars s) with
  | [] => S754_zero false
  | (c :: r) as cs =>
      match non_decimal cs with
      | Some n => n
      | None =>
          if Ascii.eqb c "-" then unsigned_decimal true r
          else if Ascii.eqb c "+" then unsigned_decimal false r
          else unsigned_decimal false cs
      end
  end.

(** *** [String(number)]: [Number::toString] in radix 10 *)

(** [m * 2^e < 10^n], on integers. *)
Definition below_pow10 (m e n : Z) : bool :=
  (m * 2 ^ Z.max e 0 * 10 ^ Z.max (- n) 0
     <? 10 ^ Z.max n 0 * 2 ^ Z.max (- e) 0)%Z.

(** The [n] with [10^(n-1) <= m * 2^e < 10^n], searched upwards from
    an estimate that is too small. *)
Fixpoint scale10 (fuel : nat) (m e n : Z) : Z :=
  match fuel with
  | O => n
  | S f => if below_pow10 m e n then n else scale10 f m e (n + 1)%Z
  end.

Definition decimal_exponent (m e : Z) : Z :=
  scale10 8 m e (((Z.log2 m + e) * 30103) / 100000 - 2)%Z.

(** The [k]-digit decimals next to [m * 2^e] (with decimal exponent
    [n]): the integer [lo] with [lo <= m * 2^e * 10^(k-n) < lo + 1],
    whether [lo] is exact, and whether [lo] is to be preferred to
    [lo + 1]: it is nearer, or as near and even. *)
Definition neighbours (m e n k : Z) : Z * bool * bool :=
  let num := (m * 2 ^ Z.max e 0 * 10 ^ Z.max (k - n) 0)%Z in
  let den := (2 ^ Z.max (- e) 0 * 10 ^ Z.max (n - k) 0)%Z in
  let lo := (num / den)%Z in
  let r := (num mod den)%Z in
  (lo, (r =? 0)%Z, (2 * r <? den)%Z || ((2 * r =? den)%Z && Z.even lo)).

(** The shortest decimal [s * 10^(n-k)] that reads back as the
    positive double [x = m * 2^e]: the first [k] among [1 .. 17] at
    which a neighbour does, the nearer one when both do. *)
Fixpoint shortest (fuel : nat) (x : number) (m e n k : Z) : Z * Z :=
  match fuel with
  | O => (0, k)%Z
  | S f =>
      let '(lo, exact, lo_near) := neighbours m e n k in
      let back v := SFeqb (of_decimal false v (n - k)) x in
      let ok_lo := (0 <? lo)%Z && back lo in
      let ok_hi := negb exact && back (lo + 1)%Z in
      if ok_lo && (lo_near || negb ok_hi) then (lo, k)
      else if ok_hi then ((lo + 1)%Z, k)
      else shortest f x m e n (k + 1)%Z
  end.

Definition digits_of (z : Z) : string :=
  NilZero.string_of_uint (N.to_uint (Z.to_N z)).

Fixpoint zeros (n : nat) : string :=
  match n with O => EmptyString | S k => String "0" (zeros k) end.

Definition take (n : nat) (s : string) : string := String.substring 0 n s.

(** The text of [s * 10^(n-k)], [s] having the [k] digits [ds]. *)
Definition layout (ds : string) (n k : Z) : string :=
  if (k <=? n)%Z && (n <=? 21)%Z then ds ++ zeros (Z.to_nat (n - k))
  else if (0 <? n)%Z && (n <=? 21)%Z then
    take (Z.to_nat n) ds ++ "." ++ slice ds (Z.to_nat n)
  else if (-6 <? n)%Z && (n <=? 0)%Z then
    "0." ++ zeros (Z.to_nat (- n)) ++ ds
  else
    let x := (n - 1)%Z in
    let xs := (if (x <? 0)%Z then "-" else "+") ++ digits_of (Z.abs x) in
    if (k =? 1)%Z then ds ++ "e" ++ xs
    else take 1 ds ++ "." ++ slice ds 1 ++ "e" ++ xs.

Definition toString (x : number) : string :=
  match x with
  | S754_nan => "NaN"
  | S754_zero _ => "0"
  | S754_infinity s => if s then "-Infinity" else "Infinity"
  | S754_finite s m e =>
      let n := decimal_exponent (Z.pos m) e in
      let '(v, k) := shortest 17 (S754_finite false m e) (Z.pos m) e n 1 in
      (* a neighbour [10^k] is the one-digit decimal [1 * 10^n] *)
      let '(ds, n, k) :=
        if (v =? 10 ^ k)%Z then ("1", (n + 1)%Z, 1%Z)
        else (digits_of v, n, k) in
      (if s then "-" else EmptyString) ++ layout ds n k
  end.

End JS.

(** ** What every object inherits

    The objects of the program (the environment, the table
    [formatValidators], the result's [parsed], the objects that the
    loader fills) are ordinary objects: a key that they do not have
    themselves is looked up in [Object.prototype]. Its members are those
    of ECMAScript with Annex B: eleven functions and the accessor
    [__proto__], which reads as [Object.prototype] itself. *)

Module Proto.

Inductive member :=
  | constructor | __defineGetter__ | __defineSetter__ | hasOwnProperty
  | __lookupGetter__ | __lookupSetter__ | isPrototypeOf
  | propertyIsEnumerable | toString | valueOf | __proto__ | toLocaleString.

Definition members : list member :=
  [ constructor; __defineGetter__; __defineSetter__; hasOwnProperty;
    __lookupGetter__; __lookupSetter__; isPrototypeOf;
    propertyIsEnumerable; toString; valueOf; __proto__; toLocaleString ].

Definition key (m : member) : string :=
  match m with
  | constructor => "constructor"
  | __defineGetter__ => "__defineGetter__"
  | __defineSetter__ => "__defineSetter__"
  | hasOwnProperty => "hasOwnProperty"
  | __lookupGetter__ => "__lookupGetter__"
  | __lookupSetter__ => "__lookupSetter__"
  | isPrototypeOf => "isPrototypeOf"
  | propertyIsEnumerable => "propertyIsEnumerable"
  | toString => "toString"
  | valueOf => "valueOf"
  | __proto__ => "__proto__"
  | toLocaleString => "toLocaleString"
  end.

(** The member that an ordinary object inherits under a key. *)
Definition find (k : string) : option member :=
  List.find (fun m => String.eqb (key m) k) members.

(** The name of the function that a member is: [constructor] is the
    function [Object]. The value of [__proto__] is no function. *)
Definition function_name (m : member) : option string :=
  match m with
  | constructor => Some "Object"
  | __proto__ => None
  | _ => Some (key m)
  end.

(** The [length] of a member: the number of parameters of a function,
    [undefined] for [Object.prototype]. *)
Definition length (m : member) : option nat :=
  match m with
  | toString | valueOf | toLocaleString => Some 0%nat
  | __defineGetter__ | __defineSetter__ => Some 2%nat
  | __proto__ => None
  | _ => Some 1%nat
  end.

End Proto.

(** A value where the declared type is [A]: of that type, or a member
    that the object it was read from inherits. *)
Inductive actual (A : Type) : Type :=
  | typed (a : A)
  | inherited (m : Proto.member).

Arguments typed {A} a.
Arguments inherited {A} m.

(** ** Calls that can throw

    A call that can throw gives a [thrown] value: what it returned, or
    the message of what it threw. *)

Inductive thrown (A : Type) : Type :=
  | returned (a : A)
  | threw (message : string).

Arguments returned {A} a.
Arguments threw {A} message.

#[global] Instance thrown_ret : MRet thrown := λ A a, returned a.

#[global] Instance thrown_bind : MBind thrown :=
  λ A B f x, match x with returned a => f a | threw m => threw m end.

(** A [for ... of] loop whose body can throw. *)
Fixpoint each {A B : Type} (body : B -> A -> thrown B) (xs : list A) (b : B)
  : thrown B :=
  match xs with
  | [] => returned b
  | x :: rest => b' ← body b x; each body rest b'
  end.

(** ** What the source asks of the host

    [RegExp p] is [new RegExp(p)]: [None] when the constructor throws a
    [SyntaxError], otherwise the compiled expression as its [test]
    method (no flags are ever passed, so [test] keeps no state).
    [URL_parses v] says that [new URL(v)] returns, [JSON_parses v] that
    [JSON.parse(v)] does. [native_text f] is the text of the built-in
    function named [f], which ECMAScript leaves to the host, and
    [TypeError] the message of the [TypeError] that the host throws at
    a fault. *)

Inductive Fault :=
  | not_a_function (callee : string)   (* a call of what is no function *)
  | no_receiver (m : Proto.member).    (* a method that needs [this], called without *)

Class Host := {
  RegExp : string -> option (string -> bool);
  URL_parses : string -> bool;
  JSON_parses : string -> bool;
  native_text : string -> string;
  TypeError : Fault -> string
}.

(** ** Data model ([src/types]) *)

Inductive VariableType := type_string | type_number | type_boolean.

Definition type_name (t : VariableType) : string :=
  match t with
  | type_string => "string"
  | type_number => "number"
  | type_boolean => "boolean"
  end.

(** [string | number | boolean] *)
Inductive Value :=
  | VString (s : string)
  | VNumber (n : JS.number)
  | VBoolean (b : bool).

(** A value inside a template literal. *)
Definition show (v : Value) : string :=
  match v with
  | VString s => s
  | VNumber n => JS.toString n
  | VBoolean b => if b then "true" else "false"
  end.

Module VariableSpec.
Record t := {
  type : VariableType;
  format : option string;
  required : bool;
  default : option Value;
  description : option string;
  enum : option (list string);
  pattern : option string;
  min : option JS.number;
  max : option JS.number;
  minLength : option JS.number;
  maxLength : option JS.number
}.
End VariableSpec.

Module EnvSchema.
Record t := {
  schema : option string;  (* [$schema] *)
  variables : list (string * VariableSpec.t)
}.
End EnvSchema.

(** [Record<string, string | undefined>], by its own keys: a key may be
    present with the value [undefined]. *)
Definition Env : Type := list (string * option string).

Inductive ErrorType :=
  missing | invalid_type | invalid_format | invalid_enum | invalid_range.

Inductive WarningType := unused | default_applied | deprecated.

#[global] Instance ErrorType_eq_dec : EqDecision ErrorType.
Proof. solve_decision. Defined.

#[global] Instance WarningType_eq_dec : EqDecision WarningType.
Proof. solve_decision. Defined.

(** [received] is declared a string and is given the raw value. *)
Module ValidationError.
Record t := {
  variable : string;
  message : string;
  type : ErrorType;
  expected : option string;
  received : option (actual string)
}.
End ValidationError.

Module ValidationWarning.
Record t := {
  variable : string;
  message : string;
  type : WarningType
}.
End ValidationWarning.

(** [parsed], by its own keys. *)
Module ValidationResult.
Record t := {
  valid : bool;
  errors : list ValidationError.t;
  warnings : list ValidationWarning.t;
  parsed : gmap string (actual Value)
}.
End ValidationResult.

Module Options.
Record t := { strict : option bool }.
(** The default argument [{}]. *)
Definition none : t := {| strict := None |}.
End Options.

(** What [coerceValue] returns. *)
Module Coerced.
Record t := {
  success : bool;
  value : actual Value;
  error : option string
}.
End Coerced.

(** What [validateVariable] returns: each field is optional. *)
Module FieldResult.
Record t := {
  error : option ValidationError.t;
  warning : option ValidationWarning.t;
  parsed : option (actual Value)
}.
End FieldResult.

(** [Object.keys] *)
Definition keys {A : Type} (o : list (string * A)) : list string := map fst o.

(** ** Objects by their own keys

    An object is the list of its own entries in the order in which
    [Object.keys] / [Object.entries] enumerate it, with unique keys.
    The keys that are array indices (the decimal numerals of 0 to
    2^32 - 2) come first, in ascending order, then the other keys in the
    order of their creation. *)

Module Obj.

Fixpoint get {A : Type} (o : list (string * A)) (k : string) : option A :=
  match o with
  | [] => None
  | (k', v) :: rest => if String.eqb k' k then Some v else get rest k
  end.

(** The array index that a key is. *)
Definition index (k : string) : option N :=
  match JS.chars k with
  | [] => None
  | c :: rest =>
      if forallb JS.is_digit (c :: rest)
         && (negb (Ascii.eqb c "0") || match rest with [] => true | _ => false end)
      then
        let n :=
          fold_left (fun n d => (10 * n + N.of_nat (JS.code d - 48))%N)
                    (c :: rest) 0%N in
        if (n <=? 4294967294)%N then Some n else None
      else None
  end.

(** A new value for a key that the object has: the key keeps its place. *)
Fixpoint replace {A : Type} (o : list (string * A)) (k : string) (v : A)
  : list (string * A) :=
  match o with
  | [] => []
  | (k', v') :: rest =>
      if String.eqb k' k then (k', v) :: rest else (k', v') :: replace rest k v
  end.

(** A new key that is the array index [i]: after the smaller indices. *)
Fixpoint place {A : Type} (o : list (string * A)) (i : N) (k : string) (v : A)
  : list (string * A) :=
  match o with
  | [] => [(k, v)]
  | (k', v') :: rest =>
      match index k' with
      | Some j =>
          if (j <? i)%N then (k', v') :: place rest i k v else (k, v) :: o
      | None => (k, v) :: o
      end
  end.

(** The definition of an own property, as an object literal and its
    spread elements do it ([CreateDataProperty]). *)
Definition define {A : Type} (o : list (string * A)) (k : string) (v : A)
  : list (string * A) :=
  match get o k with
  | Some _ => replace o k v
  | None =>
      match index k with
      | Some i => place o i k v
      | None => o ++ [(k, v)]
      end
  end.

(** The assignment [o[k] = v]. Under the key [__proto__] it runs the
    setter that [o] inherits, which creates no key: it ignores a string
    and makes an object the prototype of [o]. *)
Definition set {A : Type} (o : list (string * A)) (k : string) (v : A)
  : list (string * A) :=
  if String.eqb k "__proto__" then o else define o k v.

(** [Object.assign(target, source)]: an assignment for each entry. *)
Definition assign {A : Type} (target source : list (string * A))
  : list (string * A) :=
  fold_left (fun t kv => set t (fst kv) (snd kv)) source target.

(** [{ ...target, ...source }] of a fresh copy [target]: a definition
    for each entry. *)
Definition spread {A : Type} (target source : list (string * A))
  : list (string * A) :=
  fold_left (fun t kv => define t (fst kv) (snd kv)) source target.

End Obj.

(** [env[name]]: the value of the own key [name], else what the object
    inherits under that name, else [undefined]. *)
Definition env_get (env : Env) (name : string) : option (actual string) :=
  match Obj.get env name with
  | Some (Some s) => Some (typed s)
  | Some None => None
  | None => inherited <$> Proto.find name
  end.

(** ** Format validators *)

Module Format.

(** [/^[^\s@]+@[^\s@]+\.[^\s@]+$/]: no character of the three runs may
    be white space or an [@], so the first run ends at the first [@]
    and the rest needs a dot that is neither its first nor its last
    character. *)
Definition email_atom (c : ascii) : bool :=
  negb (JS.is_space c || Ascii.eqb c "@").

Fixpoint span (p : ascii -> bool) (cs : list ascii)
  : list ascii * list ascii :=
  match cs with
  | c :: r => if p c then let '(a, b) := span p r in (c :: a, b)
              else ([], cs)
  | [] => ([], [])
  end.

Definition email (value : string) : bool :=
  match span email_atom (JS.chars value) with
  | (_ :: _, at_ :: rest) =>
      Ascii.eqb at_ "@" && forallb email_atom rest
      && existsb (Ascii.eqb ".") (removelast (tl rest))
  | _ => false
  end.

(** [n] hexadecimal digits, then the rest. *)
Fixpoint hex_run (n : nat) (cs : list ascii) : option (list ascii) :=
  match n, cs with
  | O, _ => Some cs
  | S k, c :: r => if JS.is_hex_digit c then hex_run k r else None
  | S k, [] => None
  end.

Fixpoint hex_groups (gs : list nat) (cs : list ascii) : bool :=
  match gs with
  | [] => false
  | [g] => match hex_run g cs with Some [] => true | _ => false end
  | g :: gs' =>
      match hex_run g cs with
      | Some (c :: r) => Ascii.eqb c "-" && hex_groups gs' r
      | _ => false
      end
  end.

(** [/^[0-9a-f]{8}-[0-9a-f]{4}-[0-9a-f]{4}-[0-9a-f]{4}-[0-9a-f]{12}$/i] *)
Definition uuid (value : string) : bool :=
  hex_groups [8; 4; 4; 4; 12]%nat (JS.chars value).

Definition base64_char (c : ascii) : bool :=
  JS.is_alnum c || Ascii.eqb c "+" || Ascii.eqb c "/".

(** [/^[A-Za-z0-9+/]*={0,2}$/.test(value) && value.length % 4 === 0],
    of the text that [test] makes of [value] and of [value.length],
    which is [undefined] ([None]) where [value] has none. *)
Definition base64 (value : string) (length : option nat) : bool :=
  (match snd (span base64_char (JS.chars value)) with
   | [] => true
   | [a] => Ascii.eqb a "="
   | [a; b] => Ascii.eqb a "=" && Ascii.eqb b "="
   | _ => false
   end)
  && match length with
     | Some n => Nat.eqb (n mod 4) 0
     | None => false
     end.

(** [/^[0-9a-fA-F]+$/] *)
Definition hex (value : string) : bool :=
  JS.truthy value && forallb JS.is_hex_digit (JS.chars value).

(** [/^[a-zA-Z0-9]+$/] *)
Definition alphanumeric (value : string) : bool :=
  JS.truthy value && forallb JS.is_alnum (JS.chars value).

Definition port (value : string) : bool :=
  let num := JS.Number value in
  negb (JS.isNaN num) && JS.ge num (JS.of_Z 1)
  && JS.le num (JS.of_Z 65535) && JS.isInteger num.

Definition positive (value : string) : bool :=
  let num := JS.Number value in
  negb (JS.isNaN num) && JS.gt num (JS.of_Z 0).

Definition integer (value : string) : bool :=
  let num := JS.Number value in
  negb (JS.isNaN num) && JS.isInteger num.

Definition percentage (value : string) : bool :=
  let num := JS.Number value in
  negb (JS.isNaN num) && JS.ge num (JS.of_Z 0) && JS.le num (JS.of_Z 100).

End Format.

Section Validator.

Context {host : Host}.

(** [String(value)], as a template literal, [RegExp.prototype.test],
    [new URL], [JSON.parse] and [Number] convert their argument: a
    function gives its text, [Object.prototype] the text
    [[object Object]]. *)
Definition text (value : actual string) : string :=
  match value with
  | typed s => s
  | inherited m =>
      match Proto.function_name m with
      | Some f => native_text f
      | None => "[object Object]"
      end
  end.

(** [value.length] *)
Definition length_of (value : actual string) : option nat :=
  match value with
  | typed s => Some (String.length s)
  | inherited m => Proto.length m
  end.

(** The table [formatValidators], by its own keys. The validators but
    [base64] only convert their argument to a string. *)
Definition formatValidators : list (string * (actual string -> bool)) :=
  [ ("url", fun value => URL_parses (text value));
    ("email", fun value => Format.email (text value));
    ("uuid", fun value => Format.uuid (text value));
    ("json", fun value => JSON_parses (text value));
    ("base64", fun value => Format.base64 (text value) (length_of value));
    ("hex", fun value => Format.hex (text value));
    ("alphanumeric", fun value => Format.alphanumeric (text value));
    ("port", fun value => Format.port (text value));
    ("positive", fun value => Format.positive (text value));
    ("integer", fun value => Format.integer (text value));
    ("percentage", fun value => Format.percentage (text value)) ].

(** A member of [Object.prototype] called as [validator(value)], that
    is without a receiver: whether what it returns is truthy.
    [Object(value)] is an object and [toString()] the text
    [[object Undefined]]; [isPrototypeOf] answers [false] to what is
    no object before it looks for its receiver; the other functions
    look for it and throw; [Object.prototype] is no function. *)
Definition inherited_validator (m : Proto.member) (value : actual string)
  : thrown bool :=
  match m with
  | Proto.constructor | Proto.toString => returned true
  | Proto.isPrototypeOf =>
      match value with
      | typed _ => returned false
      | inherited _ => threw (TypeError (no_receiver m))
      end
  | Proto.__proto__ => threw (TypeError (not_a_function "validator"))
  | _ => threw (TypeError (no_receiver m))
  end.

(** [formatValidators[name]]: an own key of the table, else what the
    table inherits under that name, else [undefined]. *)
Definition formatValidator (name : string)
  : option (actual string -> thrown bool) :=
  match List.find (fun kv => String.eqb (fst kv) name) formatValidators with
  | Some kv => Some (fun value => returned (snd kv value))
  | None => inherited_validator <$> Proto.find name
  end.

(** ** Type coercion

    [type] has three members, so the [default] branch of the switch is
    not reached. [value.toLowerCase] is [undefined] on a value that is
    no string, and calling it throws. *)

Definition as_value (value : actual string) : actual Value :=
  match value with
  | typed s => typed (VString s)
  | inherited m => inherited m
  end.

Definition coerceValue (value : actual string) (type : VariableType)
  : thrown Coerced.t :=
  match type with
  | type_string =>
      returned {| Coerced.success := true; Coerced.value := as_value value;
                  Coerced.error := None |}
  | type_number =>
      let num := JS.Number (text value) in
      if JS.isNaN num then
        returned
          {| Coerced.success := false; Coerced.value := as_value value;
             Coerced.error :=
               Some ("Cannot convert " ++ JS.quote ++ text value ++ JS.quote
                     ++ " to number") |}
      else
        returned {| Coerced.success := true; Coerced.value := typed (VNumber num);
                    Coerced.error := None |}
  | type_boolean =>
      match value with
      | typed s =>
          let lower := JS.toLowerCase s in
          if JS.includes ["true"; "1"; "yes"; "on"] lower then
            returned
              {| Coerced.success := true; Coerced.value := typed (VBoolean true);
                 Coerced.error := None |}
          else if JS.includes ["false"; "0"; "no"; "off"] lower then
            returned
              {| Coerced.success := true; Coerced.value := typed (VBoolean false);
                 Coerced.error := None |}
          else
            returned
              {| Coerced.success := false; Coerced.value := as_value value;
                 Coerced.error :=
                   Some ("Cannot convert " ++ JS.quote ++ s ++ JS.quote
                         ++ " to boolean. Use true/false, 1/0, yes/no, or on/off") |}
      | inherited _ => threw (TypeError (not_a_function "value.toLowerCase"))
      end
  end.

(** ** The field validator *)

Import VariableSpec.

Definition error_of (name message : string) (type : ErrorType)
    (expected : option string) (received : option (actual string))
  : ValidationError.t :=
  {| ValidationError.variable := name;
     ValidationError.message := message;
     ValidationError.type := type;
     ValidationError.expected := expected;
     ValidationError.received := received |}.

(** [return { error }] *)
Definition fail (e : ValidationError.t) : FieldResult.t :=
  {| FieldResult.error := Some e; FieldResult.warning := None;
     FieldResult.parsed := None |}.

(** The two branches that apply a default return the same object. *)
Definition use_default (name : string) (d : Value) : FieldResult.t :=
  {| FieldResult.error := None;
     FieldResult.warning :=
       Some {| ValidationWarning.variable := name;
               ValidationWarning.message := "Using default value: " ++ show d;
               ValidationWarning.type := default_applied |};
     FieldResult.parsed := Some (typed d) |}.

(** [return {}] *)
Definition skip : FieldResult.t :=
  {| FieldResult.error := None; FieldResult.warning := None;
     FieldResult.parsed := None |}.

(** The branch of a value that is [undefined] or [''].  *)
Definition presence (name : string) (spec : VariableSpec.t) : FieldResult.t :=
  if required spec then
    match default spec with
    | Some d => use_default name d
    | None =>
        fail (error_of name "Required variable is missing" missing None None)
    end
  else
    match default spec with
    | Some d => use_default name d
    | None => skip
    end.

(** Each block of checks of [validateVariable] gives the error it
    returns with, or [None] when control falls through to the next. *)

(** [spec.enum.includes(value)]: no member is a value that is no
    string. *)
Definition is_member (members : list string) (value : actual string) : bool :=
  match value with
  | typed s => JS.includes members s
  | inherited _ => false
  end.

Definition check_enum (name : string) (value : actual string)
    (spec : VariableSpec.t) : option ValidationError.t :=
  match enum spec with
  | Some members =>
      if Nat.ltb 0 (length members) && negb (is_member members value)
      then Some (error_of name
                   ("Value must be one of: " ++ JS.join ", " members)
                   invalid_enum
                   (Some (JS.join " | " members)) (Some value))
      else None
  | None => None
  end.

(** The format is the only check that can throw: by what the table
    inherits. *)
Definition check_format (name : string) (value : actual string)
    (spec : VariableSpec.t) : thrown (option ValidationError.t) :=
  match format spec with
  | Some fmt =>
      if negb (JS.truthy fmt) then returned None
      else if JS.startsWith fmt "regex:" then
        let pattern := JS.slice fmt 6 in
        match RegExp pattern with
        | Some regex =>
            if negb (regex (text value))
            then returned
                   (Some (error_of name
                            ("Value does not match pattern: " ++ pattern)
                            invalid_format (Some pattern) (Some value)))
            else returned None
        | None =>
            returned
              (Some (error_of name ("Invalid regex pattern: " ++ pattern)
                       invalid_format None None))
        end
      else
        match formatValidator fmt with
        | Some validator =>
            accepted ← validator value;
            if negb accepted
            then returned
                   (Some (error_of name ("Invalid " ++ fmt ++ " format")
                            invalid_format (Some fmt) (Some value)))
            else returned None
        | None => returned None
        end
  | None => returned None
  end.

(** [coerced.value as number]: a cast, of a value that is a number
    whenever the declared type is (see [coerce_number_value]). *)
Definition as_number (v : actual Value) : JS.number :=
  match v with typed (VNumber n) => n | _ => JS.NaN end.

(** [(coerced.value as string).length]: a cast, of a value that is
    the raw value whenever the declared type is [string]; [None] is
    [undefined]. *)
Definition string_length (v : actual Value) : option JS.number :=
  match v with
  | typed (VString s) => Some (JS.of_nat (String.length s))
  | typed _ => None
  | inherited m => JS.of_nat <$> Proto.length m
  end.

Definition check_range (name : string) (coerced : Coerced.t)
    (spec : VariableSpec.t) : option ValidationError.t :=
  match type spec with
  | type_number =>
      let numValue := as_number (Coerced.value coerced) in
      let check_max :=
        match max spec with
        | Some hi =>
            if JS.gt numValue hi
            then Some (error_of name
                         ("Value " ++ JS.toString numValue
                          ++ " is greater than maximum " ++ JS.toString hi)
                         invalid_range
                         (Some ("<= " ++ JS.toString hi))
                         (Some (typed (JS.toString numValue))))
            else None
        | None => None
        end in
      match min spec with
      | Some lo =>
          if JS.lt numValue lo
          then Some (error_of name
                       ("Value " ++ JS.toString numValue
                        ++ " is less than minimum " ++ JS.toString lo)
                       invalid_range
                       (Some (">= " ++ JS.toString lo))
                       (Some (typed (JS.toString numValue))))
          else check_max
      | None => check_max
      end
  | _ => None
  end.

(** A length that is [undefined] is neither less nor greater than a
    bound. *)
Definition check_length (name : string) (coerced : Coerced.t)
    (spec : VariableSpec.t) : option ValidationError.t :=
  match type spec, string_length (Coerced.value coerced) with
  | type_string, Some len =>
      let check_max :=
        match maxLength spec with
        | Some hi =>
            if JS.gt len hi
            then Some (error_of name
                         ("Value length " ++ JS.toString len
                          ++ " is greater than maximum " ++ JS.toString hi)
                         invalid_range
                         (Some ("length <= " ++ JS.toString hi))
                         (Some (typed (JS.toString len))))
            else None
        | None => None
        end in
      match minLength spec with
      | Some lo =>
          if JS.lt len lo
          then Some (error_of name
                       ("Value length " ++ JS.toString len
                        ++ " is less than minimum " ++ JS.toString lo)
                       invalid_range
                       (Some ("length >= " ++ JS.toString lo))
                       (Some (typed (JS.toString len))))
          else check_max
      | None => check_max
      end
  | _, _ => None
  end.

(** The custom pattern: a pattern that does not compile is caught and
    the check is left. *)
Definition check_pattern (name : string) (value : actual string)
    (spec : VariableSpec.t) : option ValidationError.t :=
  match pattern spec with
  | Some pat =>
      if negb (JS.truthy pat) then None
      else
        match RegExp pat with
        | Some regex =>
            if negb (regex (text value))
            then Some (error_of name
                         ("Value does not match pattern: " ++ pat)
                         invalid_format (Some pat) (Some value))
            else None
        | None => None
        end
  | None => None
  end.

(** [coerced.error || 'Type conversion failed'] *)
Definition coerce_message (coerced : Coerced.t) : string :=
  match Coerced.error coerced with
  | Some m => if JS.truthy m then m else "Type conversion failed"
  | None => "Type conversion failed"
  end.

(** The checks after coercion, in the order of the source. *)
Definition checks (name : string) (value : actual string) (coerced : Coerced.t)
    (spec : VariableSpec.t) : list (thrown (option ValidationError.t)) :=
  [ returned (check_enum name value spec);
    check_format name value spec;
    returned (check_range name coerced spec);
    returned (check_length name coerced spec);
    returned (check_pattern name value spec) ].

(** The error of the first check that returns one, unless a check
    before it throws. *)
Fixpoint first_error (cs : list (thrown (option ValidationError.t)))
  : thrown (option ValidationError.t) :=
  match cs with
  | [] => returned None
  | returned (Some e) :: _ => returned (Some e)
  | returned None :: rest => first_error rest
  | threw message :: _ => threw message
  end.

(** [value === ''] *)
Definition is_empty (value : actual string) : bool :=
  match value with
  | typed s => negb (JS.truthy s)
  | inherited _ => false
  end.

Definition validateVariable (name : string) (value : option (actual string))
    (spec : VariableSpec.t) : thrown FieldResult.t :=
  match value with
  | Some v =>
      if is_empty v then returned (presence name spec)
      else
        coerced ← coerceValue v (type spec);
        if negb (Coerced.success coerced) then
          returned
            (fail (error_of name (coerce_message coerced) invalid_type
                     (Some (type_name (type spec))) (Some v)))
        else
          failed ← first_error (checks name v coerced spec);
          match failed with
          | Some e => returned (fail e)
          | None =>
              returned
                {| FieldResult.error := None; FieldResult.warning := None;
                   FieldResult.parsed := Some (Coerced.value coerced) |}
          end
  | None => returned (presence name spec)
  end.

(** ** The aggregator *)

Definition systemVars : list string :=
  [ "PATH"; "HOME"; "USER"; "SHELL"; "TERM"; "LANG"; "LC_ALL"; "PWD";
    "OLDPWD"; "HOSTNAME"; "LOGNAME"; "EDITOR"; "VISUAL"; "_"; "SHLVL";
    "XDG_"; "SSH_"; "GPG_"; "DISPLAY"; "COLORTERM" ].

Definition isSystemEnvVar (key : string) : bool :=
  existsb (fun prefix => JS.startsWith key prefix || String.eqb key prefix)
          systemVars.

(** The three collections that [validate] fills. *)
Record Acc := {
  errors : list ValidationError.t;
  warnings : list ValidationWarning.t;
  parsed : gmap string (actual Value)
}.

(** [const errors = []; const warnings = []; const parsed = {}] *)
Definition fresh : Acc := {| errors := []; warnings := []; parsed := ∅ |}.

(** [xs.push(x)] *)
Definition push {A : Type} (xs : list A) (x : A) : list A := xs ++ [x].

Definition push_opt {A : Type} (xs : list A) (x : option A) : list A :=
  match x with Some a => push xs a | None => xs end.

(** [parsed[name] = value] on the own keys of [parsed]. Under the name
    [__proto__] the assignment runs the setter that [parsed] inherits:
    no key is created. (The setter ignores a string, a number and a
    boolean; the one object that reaches it is [Object.prototype], and
    that is the prototype of [parsed] already.) *)
Definition store (parsed : gmap string (actual Value)) (name : string)
    (value : actual Value) : gmap string (actual Value) :=
  if String.eqb name "__proto__" then parsed else <[name := value]> parsed.

(** One turn of the loop over [Object.entries(schema.variables)]. *)
Definition visit (env : Env) (acc : Acc) (entry : string * VariableSpec.t)
  : thrown Acc :=
  let '(name, spec) := entry in
  result ← validateVariable name (env_get env name) spec;
  returned
    {| errors := push_opt (errors acc) (FieldResult.error result);
       warnings := push_opt (warnings acc) (FieldResult.warning result);
       parsed :=
         match FieldResult.parsed result with
         | Some v => store (parsed acc) name v
         | None => parsed acc
         end |}.

Definition unused_warning (key : string) : ValidationWarning.t :=
  {| ValidationWarning.variable := key;
     ValidationWarning.message := "Variable not defined in schema";
     ValidationWarning.type := unused |}.

(** One turn of the loop over [Object.keys(env)] of the strict mode. *)
Definition scan (schemaKeys : gset string) (acc : Acc) (key : string) : Acc :=
  if isSystemEnvVar key then acc
  else if negb (bool_decide (key ∈ schemaKeys)) then
    {| errors := errors acc;
       warnings := push (warnings acc) (unused_warning key);
       parsed := parsed acc |}
  else acc.

(** [options.strict] as a condition. *)
Definition is_strict (options : Options.t) : bool :=
  match Options.strict options with Some b => b | None => false end.

Definition validate (schema : EnvSchema.t) (env : Env) (options : Options.t)
  : thrown ValidationResult.t :=
  acc ← each (visit env) (EnvSchema.variables schema) fresh;
  let acc :=
    if is_strict options then
      let schemaKeys : gset string :=
        list_to_set (keys (EnvSchema.variables schema)) in
      fold_left (scan schemaKeys) (keys env) acc
    else acc in
  returned
    {| ValidationResult.valid := Nat.eqb (length (errors acc)) 0;
       ValidationResult.errors := errors acc;
       ValidationResult.warnings := warnings acc;
       ValidationResult.parsed := parsed acc |}.

Definition isValid (schema : EnvSchema.t) (env : Env) : thrown bool :=
  result ← validate schema env Options.none;
  returned (ValidationResult.valid result).

End Validator.

Arguments validate {host} schema env options.
Arguments validateVariable {host} name value spec.

(** ** [validate] as a program on a store

    The objects that [validate] is given and those that it creates
    live on a heap, where every assignment and every [push] is a
    change of the heap: the arguments are references, and so are the
    three collections of the result. [validateVariable] only reads its
    arguments and the constant table, and builds the object that it
    returns: it is called as the function that it is. *)

Module Imp.

Inductive object :=
  | Schema (schema : EnvSchema.t)
  | Environment (env : Env)
  | OptionsObject (options : Options.t)
  | Errors (errors : list ValidationError.t)
  | Warnings (warnings : list ValidationWarning.t)
  | Parsed (parsed : gmap string (actual Value)).

(** The heap: a reference is the index of an object, and a new object
    comes at the end. *)
Abbreviation heap := (list object).

(** The object that [validate] returns. *)
Record Result := {
  valid : bool;
  errors : nat;
  warnings : nat;
  parsed : nat
}.

(** A statement, from a heap: what it evaluates to or throws, and the
    heap that it leaves; [None] when a reference does not hold an
    object of the kind that the statement reads there, which the
    arguments of [validate] exclude. *)
Definition M (A : Type) : Type := heap → option (thrown A * heap).

#[global] Instance M_ret : MRet M := λ A a h, Some (returned a, h).

#[global] Instance M_bind : MBind M :=
  λ A B f m h,
    match m h with
    | Some (returned a, h') => f a h'
    | Some (threw message, h') => Some (threw message, h')
    | None => None
    end.

(** [[]], [{}]: a new object. *)
Definition alloc (o : object) : M nat :=
  λ h, Some (returned (length h), (h ++ [o])%list).

(** A call that leaves the heap as it is. *)
Definition call {A : Type} (x : thrown A) : M A := λ h, Some (x, h).

(** [Object.entries(schema.variables)] *)
Definition entries (schema : nat) : M (list (string * VariableSpec.t)) :=
  λ h, match h !! schema with
       | Some (Schema s) => Some (returned (EnvSchema.variables s), h)
       | _ => None
       end.

(** [env[name]] *)
Definition read (env : nat) (name : string) : M (option (actual string)) :=
  λ h, match h !! env with
       | Some (Environment e) => Some (returned (env_get e name), h)
       | _ => None
       end.

(** [Object.keys(env)] *)
Definition env_keys (env : nat) : M (list string) :=
  λ h, match h !! env with
       | Some (Environment e) => Some (returned (keys e), h)
       | _ => None
       end.

(** [options.strict] as a condition *)
Definition strict (options : nat) : M bool :=
  λ h, match h !! options with
       | Some (OptionsObject o) => Some (returned (is_strict o), h)
       | _ => None
       end.

(** [errors.push(e)] *)
Definition push_error (errors : nat) (e : ValidationError.t) : M unit :=
  λ h, match h !! errors with
       | Some (Errors es) =>
           Some (returned tt, <[errors := Errors (push es e)]> h)
       | _ => None
       end.

(** [warnings.push(w)] *)
Definition push_warning (warnings : nat) (w : ValidationWarning.t) : M unit :=
  λ h, match h !! warnings with
       | Some (Warnings ws) =>
           Some (returned tt, <[warnings := Warnings (push ws w)]> h)
       | _ => None
       end.

(** [parsed[name] = value] *)
Definition assign (parsed : nat) (name : string) (value : actual Value)
  : M unit :=
  λ h, match h !! parsed with
       | Some (Parsed p) =>
           Some (returned tt, <[parsed := Parsed (store p name value)]> h)
       | _ => None
       end.

(** [errors.length] *)
Definition error_count (errors : nat) : M nat :=
  λ h, match h !! errors with
       | Some (Errors es) => Some (returned (length es), h)
       | _ => None
       end.

(** [if (x) ...] on a value that may be [undefined] *)
Definition when {A : Type} (x : option A) (body : A → M unit) : M unit :=
  match x with
  | Some a => body a
  | None => mret tt
  end.

(** [for (const x of xs) ...] *)
Fixpoint for_of {A : Type} (xs : list A) (body : A → M unit) : M unit :=
  match xs with
  | [] => mret tt
  | x :: rest => body x ≫= λ _, for_of rest body
  end.

Section Program.

Context {host : Host}.

(** One turn of the loop over [Object.entries(schema.variables)]. *)
Definition visit (env errors warnings parsed : nat)
    (entry : string * VariableSpec.t) : M unit :=
  value ← read env entry.1;
  result ← call (validateVariable entry.1 value entry.2);
  when (FieldResult.error result) (push_error errors) ≫= λ _,
  when (FieldResult.warning result) (push_warning warnings) ≫= λ _,
  when (FieldResult.parsed result) (assign parsed entry.1).

(** One turn of the loop over [Object.keys(env)] of the strict mode. *)
Definition scan (schemaKeys : gset string) (warnings : nat) (key : string)
  : M unit :=
  if isSystemEnvVar key then mret tt
  else if negb (bool_decide (key ∈ schemaKeys)) then
    push_warning warnings (unused_warning key)
  else mret tt.

(** The block of the strict mode. *)
Definition strict_block (schema env warnings : nat) : M unit :=
  variables ← entries schema;
  names ← env_keys env;
  for_of names (scan (list_to_set (keys variables)) warnings).

Definition validate (schema env options : nat) : M Result :=
  errors ← alloc (Errors []);
  warnings ← alloc (Warnings []);
  parsed ← alloc (Parsed ∅);
  variables ← entries schema;
  for_of variables (visit env errors warnings parsed) ≫= λ _,
  strict_mode ← strict options;
  (if strict_mode : bool then strict_block schema env warnings else mret tt)
    ≫= λ _,
  count ← error_count errors;
  mret {| valid := Nat.eqb count 0; errors := errors; warnings := warnings;
          parsed := parsed |}.

End Program.

(** What a result holds, collection by collection. *)
Definition contents (h : heap) (result : Result) : option ValidationResult.t :=
  match h !! errors result, h !! warnings result, h !! parsed result with
  | Some (Errors es), Some (Warnings ws), Some (Parsed p) =>
      Some {| ValidationResult.valid := valid result;
              ValidationResult.errors := es;
              ValidationResult.warnings := ws;
              ValidationResult.parsed := p |}
  | _, _, _ => None
  end.

End Imp.

(** ** A host to run the definitions on

    The theorems hold for every host. Where one is applied to concrete
    data, [plain_host] stands in for the real one: it compiles the
    regular expressions without special characters, which match the
    texts that contain them, and rejects the others, among them the
    unbalanced ["("] that the real constructor throws on; it takes a
    text with a scheme for a URL and the three literal names for JSON;
    its built-in functions read as those of V8 do. *)

Module Plain.

Definition special (c : ascii) : bool :=
  existsb (Ascii.eqb c) (JS.chars "\^$.|?*+()[]{}").

Fixpoint contains (needle hay : string) : bool :=
  String.prefix needle hay
  || match hay with
     | EmptyString => false
     | String _ rest => contains needle rest
     end.

Definition regexp (p : string) : option (string -> bool) :=
  if existsb special (JS.chars p) then None else Some (contains p).

Definition scheme_char (c : ascii) : bool :=
  JS.is_alnum c || existsb (Ascii.eqb c) (JS.chars "+-.").

Definition url (v : string) : bool :=
  match Format.span scheme_char (JS.chars v) with
  | (c :: _, colon :: _ :: _) =>
      (JS.is_lower c || JS.is_upper c) && Ascii.eqb colon ":"
  | _ => false
  end.

Definition json (v : string) : bool :=
  JS.includes ["true"; "false"; "null"] v.

(** The text of a built-in function and the messages of V8. *)
Definition native_text (f : string) : string :=
  "function " ++ f ++ "() { [native code] }".

Definition TypeError (fault : Fault) : string :=
  match fault with
  | not_a_function callee => callee ++ " is not a function"
  | no_receiver _ => "Cannot convert undefined or null to object"
  end.

End Plain.

Definition plain_host : Host :=
  {| RegExp := Plain.regexp; URL_parses := Plain.url; JSON_parses := Plain.json;
     native_text := Plain.native_text; TypeError := Plain.TypeError |}.

(** An object of strings where an environment is expected. *)
Definition as_env (o : list (string * string)) : Env :=
  map (fun kv => (fst kv, Some (snd kv))) o.

(** ** The loader ([src/core/loader.ts]) *)

(** [loadProcessEnv], of the object [process.env]. *)
Definition loadProcessEnv (process_env : Env) : list (string * string) :=
  fold_left
    (fun env kv =>
       match snd kv with
       | Some value => Obj.set env (fst kv) value
       | None => env
       end)
    process_env [].

(** [mergeEnv(...sources)]: [Object.assign({}, ...sources)] *)
Definition mergeEnv (sources : list (list (string * string)))
  : list (string * string) :=
  fold_left Obj.assign sources [].

(** The value of an own key of an environment that is defined. *)
Definition defined (env : Env) (k : string) : option string :=
  match Obj.get env k with
  | Some (Some v) => Some v
  | _ => None
  end.

(** The value that the sources of a merge leave under a key: that of
    the last source that has the key. *)
Definition last_defined (sources : list (list (string * string)))
    (k : string) : option string :=
  fold_left
    (λ found source,
       match Obj.get source k with Some v => Some v | None => found end)
    sources None.

(** [/^-?\d+(\.\d+)?$/]: an optional minus sign, digits, and
    optionally a dot with digits after it. *)
Definition plain_decimal (value : string) : bool :=
  let cs := JS.chars value in
  let unsigned :=
    match cs with
    | c :: r => if Ascii.eqb c "-" then r else cs
    | [] => cs
    end in
  match Format.span JS.is_digit unsigned with
  | (_ :: _, []) => true
  | (_ :: _, dot :: frac) =>
      Ascii.eqb dot "."
      && match frac with [] => false | _ => forallb JS.is_digit frac end
  | _ => false
  end.

Definition inferType (value : string) : VariableType :=
  if JS.includes ["true"; "false"; "1"; "0"; "yes"; "no"]
       (JS.toLowerCase value)
  then type_boolean
  else if plain_decimal value && negb (JS.isNaN (JS.Number value))
  then type_number
  else type_string.

Section Inference.

Context {host : Host}.

Definition inferFormat (value : string) : option string :=
  (* /^https?:\/\// *)
  if JS.startsWith value "http://" || JS.startsWith value "https://"
  then Some "url"
  else if Format.email value then Some "email"
  else if Format.uuid value then Some "uuid"
  else if ((JS.startsWith value "{" && JS.endsWith value "}")
           || (JS.startsWith value "[" && JS.endsWith value "]"))
          && JSON_parses value
  then Some "json"
  else if Format.port value then Some "port"
  else None.

(** The entry that [inferSchemaFromEnv] writes for a key: the object
    [{ type, format?, required: true, description }], as a spec whose
    other fields are not set. *)
Definition inferred (key value : string) : VariableSpec.t :=
  {| VariableSpec.type := inferType value;
     VariableSpec.format := inferFormat value;
     VariableSpec.required := true;
     VariableSpec.default := None;
     VariableSpec.description := Some ("TODO: Add description for " ++ key);
     VariableSpec.enum := None;
     VariableSpec.pattern := None;
     VariableSpec.min := None;
     VariableSpec.max := None;
     VariableSpec.minLength := None;
     VariableSpec.maxLength := None |}.

Definition inferSchemaFromEnv (env : list (string * string))
  : list (string * VariableSpec.t) :=
  fold_left
    (fun variables kv => Obj.set variables (fst kv) (inferred (fst kv) (snd kv)))
    env [].

End Inference.

(** ** Schema files ([src/core/schema.ts])

    The file system is the host's. [resolve p] is
    [path.resolve(process.cwd(), p)], [existsSync] is [fs.existsSync],
    [readFileSync p] is [fs.readFileSync(p, 'utf-8')], [extname] is
    [path.extname] and [process_env] the object [process.env]. *)

Class Files := {
  resolve : string -> string;
  existsSync : string -> bool;
  readFileSync : string -> thrown string;
  extname : string -> string;
  process_env : Env
}.

(** The parsers that the source calls: [JSON.parse] into the host's
    values, the schema definition's [safeParse] (a schema, or the issues
    with their paths and messages) and [dotenv.parse]. *)
Class Parsers := {
  Json : Type;
  JSON_parse : string -> thrown Json;
  safeParse : Json -> EnvSchema.t + list (list string * string);
  dotenv_parse : string -> thrown (list (string * string))
}.

Module LoadSchemaResult.
Record t := {
  success : bool;
  schema : option EnvSchema.t;
  error : option string;
  path : string
}.
End LoadSchemaResult.

Module LoadEnvResult.
Record t := {
  success : bool;
  env : list (string * string);
  error : option string;
  path : string
}.
End LoadEnvResult.

Definition DEFAULT_SCHEMA_PATHS : list string :=
  ["env.schema.json"; "env.schema.js"; ".env.schema.json"].

(** [content.replace(/module\.exports\s*=\s*/, '')]: the first place
    where the text [module.exports], white space, an equals sign and
    white space stand is cut out. *)
Definition exports_at (cs : list ascii) : option (list ascii) :=
  if String.prefix "module.exports" (string_of_list_ascii cs) then
    match JS.trim_start (skipn 14 cs) with
    | c :: rest => if Ascii.eqb c "=" then Some (JS.trim_start rest) else None
    | [] => None
    end
  else None.

Fixpoint strip_exports (cs : list ascii) : list ascii :=
  match exports_at cs with
  | Some rest => rest
  | None =>
      match cs with
      | c :: r => c :: strip_exports r
      | [] => []
      end
  end.

(** The text that [createSchemaFile] writes, [json] being
    [JSON.stringify(schema, null, 2)]. *)
Definition schema_file_content (json : string) (js_format : bool) : string :=
  if js_format then "module.exports = " ++ json ++ ";" else json.

Section Schema.

Context {files : Files} {parsers : Parsers}.

(** The loop over the default paths: the first that exists. *)
Fixpoint first_existing (paths : list string) : option string :=
  match paths with
  | [] => None
  | schemaPath :: rest =>
      let absolutePath := resolve schemaPath in
      if existsSync absolutePath then Some absolutePath
      else first_existing rest
  end.

Definition findSchemaFile (customPath : option string) : option string :=
  match customPath with
  | Some p =>
      if JS.truthy p then
        let absolutePath := resolve p in
        if existsSync absolutePath then Some absolutePath else None
      else first_existing DEFAULT_SCHEMA_PATHS
  | None => first_existing DEFAULT_SCHEMA_PATHS
  end.

Definition schema_failure (absolutePath message : string)
  : LoadSchemaResult.t :=
  {| LoadSchemaResult.success := false; LoadSchemaResult.schema := None;
     LoadSchemaResult.error := Some message;
     LoadSchemaResult.path := absolutePath |}.

(** [`${e.path.join('.')}: ${e.message}`] *)
Definition issue_text (issue : list string * string) : string :=
  JS.join "." (fst issue) ++ ": " ++ snd issue.

(** The end of [loadSchema], once the text is parsed. *)
Definition checked_schema (absolutePath : string) (rawSchema : thrown Json)
  : LoadSchemaResult.t :=
  match rawSchema with
  | returned raw =>
      match safeParse raw with
      | inl data =>
          {| LoadSchemaResult.success := true;
             LoadSchemaResult.schema := Some data;
             LoadSchemaResult.error := None;
             LoadSchemaResult.path := absolutePath |}
      | inr issues =>
          schema_failure absolutePath
            ("Invalid schema structure: "
             ++ JS.join ", " (map issue_text issues))
      end
  | threw message =>
      schema_failure absolutePath ("Failed to parse schema: " ++ message)
  end.

Definition loadSchema (schemaPath : string) : LoadSchemaResult.t :=
  let absolutePath := resolve schemaPath in
  if negb (existsSync absolutePath) then
    schema_failure absolutePath ("Schema file not found: " ++ absolutePath)
  else
    match readFileSync absolutePath with
    | returned content =>
        let ext := JS.toLowerCase (extname absolutePath) in
        if String.eqb ext ".json" then
          checked_schema absolutePath (JSON_parse content)
        else if String.eqb ext ".js" then
          let moduleContent :=
            string_of_list_ascii (strip_exports (JS.chars content)) in
          checked_schema absolutePath (JSON_parse moduleContent)
        else
          schema_failure absolutePath
            ("Unsupported schema file format: " ++ ext ++ ". Use .json or .js")
    | threw message =>
        schema_failure absolutePath ("Failed to parse schema: " ++ message)
    end.

(** [loadEnvFile] of the loader. *)
Definition loadEnvFile (envPath : string) : LoadEnvResult.t :=
  let absolutePath := resolve envPath in
  let failure message :=
    {| LoadEnvResult.success := false; LoadEnvResult.env := [];
       LoadEnvResult.error := Some message;
       LoadEnvResult.path := absolutePath |} in
  if negb (existsSync absolutePath) then
    failure ("File not found: " ++ absolutePath)
  else
    match readFileSync absolutePath with
    | returned content =>
        match dotenv_parse content with
        | returned parsed =>
            {| LoadEnvResult.success := true; LoadEnvResult.env := parsed;
               LoadEnvResult.error := None;
               LoadEnvResult.path := absolutePath |}
        | threw message => failure ("Failed to parse env file: " ++ message)
        end
    | threw message => failure ("Failed to parse env file: " ++ message)
    end.

End Schema.

(** ** The programmatic entry points ([src/index.ts]) *)

Module EnvOptions.
Record t := {
  schemaPath : option string;
  envPath : option string;
  useProcessEnv : option bool;
  strict : option bool
}.
End EnvOptions.

(** [ValidationResult & { schemaPath?: string }] *)
Module EnvResult.
Record t := {
  result : ValidationResult.t;
  schemaPath : option string
}.
End EnvResult.

Section Entry.

Context {host : Host} {files : Files} {parsers : Parsers}.

Definition schema_error (message : string) : ValidationResult.t :=
  {| ValidationResult.valid := false;
     ValidationResult.errors :=
       [error_of "_schema" message missing None None];
     ValidationResult.warnings := [];
     ValidationResult.parsed := ∅ |}.

Definition flag (b : option bool) : bool :=
  match b with Some x => x | None => false end.

(** A string option as a condition, and [a || b] on strings. *)
Definition given (s : option string) : bool :=
  match s with Some x => JS.truthy x | None => false end.

Definition or_else (s : option string) (fallback : string) : string :=
  match s with
  | Some x => if JS.truthy x then x else fallback
  | None => fallback
  end.

(** The environment that [validateEnv] builds. *)
Definition loaded_env (options : EnvOptions.t) : list (string * string) :=
  let env :=
    if flag (EnvOptions.useProcessEnv options)
    then loadProcessEnv process_env else [] in
  if given (EnvOptions.envPath options)
     || negb (flag (EnvOptions.useProcessEnv options))
  then
    let envResult := loadEnvFile (or_else (EnvOptions.envPath options) ".env") in
    if LoadEnvResult.success envResult
    then Obj.spread (Obj.spread [] env) (LoadEnvResult.env envResult)
    else env
  else env.

Definition validateEnv (options : EnvOptions.t) : thrown EnvResult.t :=
  match findSchemaFile (EnvOptions.schemaPath options) with
  | None =>
      returned
      {| EnvResult.result :=
           schema_error
             ("No schema file found. Run " ++ JS.quote
              ++ "npx env-guardian-cli init" ++ JS.quote ++ " to create one.");
         EnvResult.schemaPath := None |}
  | Some schemaPath =>
      let schemaResult := loadSchema schemaPath in
      match LoadSchemaResult.success schemaResult,
            LoadSchemaResult.schema schemaResult with
      | true, Some schema =>
          result ← validate schema (as_env (loaded_env options))
                     {| Options.strict := EnvOptions.strict options |};
          returned
            {| EnvResult.result := result;
               EnvResult.schemaPath := Some schemaPath |}
      | _, _ =>
          returned
          {| EnvResult.result :=
               schema_error
                 (or_else (LoadSchemaResult.error schemaResult)
                    "Failed to load schema");
             EnvResult.schemaPath := Some schemaPath |}
      end
  end.

(** [guardEnv]: the parsed object, or the message of the error thrown:
    its own, or what [validate] threw. Its options have no [strict]. *)
Definition guardEnv (schemaPath envPath : option string)
    (useProcessEnv : option bool) : thrown (gmap string (actual Value)) :=
  checked ← validateEnv {| EnvOptions.schemaPath := schemaPath;
                           EnvOptions.envPath := envPath;
                           EnvOptions.useProcessEnv := useProcessEnv;
                           EnvOptions.strict := None |};
  let result := EnvResult.result checked in
  if negb (ValidationResult.valid result) then
    let errorMessages :=
      JS.join (String (ascii_of_nat 10) EmptyString)
        (map (fun e => "  - " ++ ValidationError.variable e ++ ": "
                       ++ ValidationError.message e)
             (ValidationResult.errors result)) in
    threw ("Environment validation failed:"
           ++ String (ascii_of_nat 10) EmptyString ++ errorMessages)
  else returned (ValidationResult.parsed result).

End Entry.

(** ** The report of the validate command ([src/cli/commands/validate.ts])

    For each variable of the schema the command prints at most one
    line: the variable with a status and details. [report_line] is the
    choice of that line; its colours and padding are left out. *)

Inductive LineStatus := line_valid | line_invalid | line_missing | line_default.

(** [result.parsed[name] !== undefined]: an own key of [parsed], which
    never holds [undefined], or a member that [parsed] inherits. *)
Definition has_parsed (result : ValidationResult.t) (name : string) : bool :=
  match ValidationResult.parsed result !! name with
  | Some _ => true
  | None => bool_decide (is_Some (Proto.find name))
  end.

Definition report_line (schema : EnvSchema.t) (result : ValidationResult.t)
    (name : string) : option (LineStatus * string) :=
  let error :=
    List.find (fun e => String.eqb (ValidationError.variable e) name)
              (ValidationResult.errors result) in
  let warning :=
    List.find (fun w => String.eqb (ValidationWarning.variable w) name)
              (ValidationResult.warnings result) in
  let valid_line :=
    if has_parsed result name then
      match Obj.get (EnvSchema.variables schema) name with
      | Some spec =>
          let details :=
            match VariableSpec.format spec with
            | Some fmt =>
                if JS.truthy fmt then fmt
                else type_name (VariableSpec.type spec)
            | None => type_name (VariableSpec.type spec)
            end in
          Some (line_valid, details)
      | None => None
      end
    else None in
  match error with
  | Some e =>
      Some (match ValidationError.type e with
            | missing => line_missing
            | _ => line_invalid
            end,
            ValidationError.message e)
  | None =>
      match warning with
      | Some w =>
          match ValidationWarning.type w with
          | default_applied => Some (line_default, ValidationWarning.message w)
          | _ => valid_line
          end
      | None => valid_line
      end
  end.

(** A file system and parsers to run the definitions on: a directory
    [/app] with a schema file in each format and an env file, a JSON
    parser that only refuses a text ending with a semicolon, a schema
    check that always answers with the one-variable schema of
    [DATABASE_URL], and an env parser that always finds
    [DATABASE_URL=x]. *)

Module Disk.

Definition resolve (p : string) : string :=
  if JS.startsWith p "/" then p else "/app/" ++ p.

Definition existsSync (p : string) : bool :=
  JS.includes ["/app/env.schema.json"; "/app/schema.js"; "/app/.env"] p.

Definition readFileSync (p : string) : thrown string :=
  if String.eqb p "/app/schema.js"
  then returned (schema_file_content "{}" true)
  else if String.eqb p "/app/.env" then returned "DATABASE_URL=x"
  else returned "{}".

Definition extname (p : string) : string :=
  if JS.endsWith p ".json" then ".json"
  else if JS.endsWith p ".js" then ".js"
  else EmptyString.

Definition process_env : Env :=
  [ ("DATABASE_URL", Some "from-process"); ("HOME", Some "/root");
    ("UNSET", None) ].

Definition JSON_parse (text : string) : thrown string :=
  if JS.endsWith text ";" then threw "Unexpected token ;" else returned text.

Definition the_schema : EnvSchema.t :=
  {| EnvSchema.schema := None;
     EnvSchema.variables :=
       [("DATABASE_URL",
         {| VariableSpec.type := type_string; VariableSpec.format := None;
            VariableSpec.required := true; VariableSpec.default := None;
            VariableSpec.description := None; VariableSpec.enum := None;
            VariableSpec.pattern := None; VariableSpec.min := None;
            VariableSpec.max := None; VariableSpec.minLength := None;
            VariableSpec.maxLength := None |})] |}.

Definition safeParse (raw : string)
  : EnvSchema.t + list (list string * string) :=
  inl the_schema.

Definition dotenv_parse (content : string) : thrown (list (string * string)) :=
  returned [("DATABASE_URL", "x")].

End Disk.

Definition plain_files : Files :=
  {| resolve := Disk.resolve; existsSync := Disk.existsSync;
     readFileSync := Disk.readFileSync; extname := Disk.extname;
     process_env := Disk.process_env |}.

Definition plain_parsers : Parsers :=
  {| Json := string; JSON_parse := Disk.JSON_parse;
     safeParse := Disk.safeParse; dotenv_parse := Disk.dotenv_parse |}.

(** ** Notions of the statements *)

Local Open Scope list_scope.

Definition field_spec (t : VariableType) (req : bool) : VariableSpec.t :=
  {| VariableSpec.type := t; VariableSpec.format := None;
     VariableSpec.required := req; VariableSpec.default := None;
     VariableSpec.description := None; VariableSpec.enum := None;
     VariableSpec.pattern := None; VariableSpec.min := None;
     VariableSpec.max := None; VariableSpec.minLength := None;
     VariableSpec.maxLength := None |}.

(** Record updates, to write specs down. *)
Definition set_default (d : Value) (s : VariableSpec.t) : VariableSpec.t :=
  {| VariableSpec.type := VariableSpec.type s;
     VariableSpec.format := VariableSpec.format s;
     VariableSpec.required := VariableSpec.required s;
     VariableSpec.default := Some d;
     VariableSpec.description := VariableSpec.description s;
     VariableSpec.enum := VariableSpec.enum s;
     VariableSpec.pattern := VariableSpec.pattern s;
     VariableSpec.min := VariableSpec.min s;
     VariableSpec.max := VariableSpec.max s;
     VariableSpec.minLength := VariableSpec.minLength s;
     VariableSpec.maxLength := VariableSpec.maxLength s |}.

Definition set_enum (members : list string) (s : VariableSpec.t)
  : VariableSpec.t :=
  {| VariableSpec.type := VariableSpec.type s;
     VariableSpec.format := VariableSpec.format s;
     VariableSpec.required := VariableSpec.required s;
     VariableSpec.default := VariableSpec.default s;
     VariableSpec.description := VariableSpec.description s;
     VariableSpec.enum := Some members;
     VariableSpec.pattern := VariableSpec.pattern s;
     VariableSpec.min := VariableSpec.min s;
     VariableSpec.max := VariableSpec.max s;
     VariableSpec.minLength := VariableSpec.minLength s;
     VariableSpec.maxLength := VariableSpec.maxLength s |}.

Definition set_format (fmt : string) (s : VariableSpec.t) : VariableSpec.t :=
  {| VariableSpec.type := VariableSpec.type s;
     VariableSpec.format := Some fmt;
     VariableSpec.required := VariableSpec.required s;
     VariableSpec.default := VariableSpec.default s;
     VariableSpec.description := VariableSpec.description s;
     VariableSpec.enum := VariableSpec.enum s;
     VariableSpec.pattern := VariableSpec.pattern s;
     VariableSpec.min := VariableSpec.min s;
     VariableSpec.max := VariableSpec.max s;
     VariableSpec.minLength := VariableSpec.minLength s;
     VariableSpec.maxLength := VariableSpec.maxLength s |}.

Definition set_pattern (pat : option string) (s : VariableSpec.t)
  : VariableSpec.t :=
  {| VariableSpec.type := VariableSpec.type s;
     VariableSpec.format := VariableSpec.format s;
     VariableSpec.required := VariableSpec.required s;
     VariableSpec.default := VariableSpec.default s;
     VariableSpec.description := VariableSpec.description s;
     VariableSpec.enum := VariableSpec.enum s;
     VariableSpec.pattern := pat;
     VariableSpec.min := VariableSpec.min s;
     VariableSpec.max := VariableSpec.max s;
     VariableSpec.minLength := VariableSpec.minLength s;
     VariableSpec.maxLength := VariableSpec.maxLength s |}.

(** [min]/[max] and [minLength]/[maxLength], as integers. *)
Definition set_bounds (lo hi : Z) (s : VariableSpec.t) : VariableSpec.t :=
  {| VariableSpec.type := VariableSpec.type s;
     VariableSpec.format := VariableSpec.format s;
     VariableSpec.required := VariableSpec.required s;
     VariableSpec.default := VariableSpec.default s;
     VariableSpec.description := VariableSpec.description s;
     VariableSpec.enum := VariableSpec.enum s;
     VariableSpec.pattern := VariableSpec.pattern s;
     VariableSpec.min := Some (JS.of_Z lo);
     VariableSpec.max := Some (JS.of_Z hi);
     VariableSpec.minLength := VariableSpec.minLength s;
     VariableSpec.maxLength := VariableSpec.maxLength s |}.

Definition set_lengths (lo hi : Z) (s : VariableSpec.t) : VariableSpec.t :=
  {| VariableSpec.type := VariableSpec.type s;
     VariableSpec.format := VariableSpec.format s;
     VariableSpec.required := VariableSpec.required s;
     VariableSpec.default := VariableSpec.default s;
     VariableSpec.description := VariableSpec.description s;
     VariableSpec.enum := VariableSpec.enum s;
     VariableSpec.pattern := VariableSpec.pattern s;
     VariableSpec.min := VariableSpec.min s;
     VariableSpec.max := VariableSpec.max s;
     VariableSpec.minLength := Some (JS.of_Z lo);
     VariableSpec.maxLength := Some (JS.of_Z hi) |}.

(** [min]/[max], [minLength]/[maxLength] and [format] as they may be
    declared or not. *)
Definition with_min_max (lo hi : option JS.number) (s : VariableSpec.t)
  : VariableSpec.t :=
  {| VariableSpec.type := VariableSpec.type s;
     VariableSpec.format := VariableSpec.format s;
     VariableSpec.required := VariableSpec.required s;
     VariableSpec.default := VariableSpec.default s;
     VariableSpec.description := VariableSpec.description s;
     VariableSpec.enum := VariableSpec.enum s;
     VariableSpec.pattern := VariableSpec.pattern s;
     VariableSpec.min := lo;
     VariableSpec.max := hi;
     VariableSpec.minLength := VariableSpec.minLength s;
     VariableSpec.maxLength := VariableSpec.maxLength s |}.

Definition with_lengths (lo hi : option JS.number) (s : VariableSpec.t)
  : VariableSpec.t :=
  {| VariableSpec.type := VariableSpec.type s;
     VariableSpec.format := VariableSpec.format s;
     VariableSpec.required := VariableSpec.required s;
     VariableSpec.default := VariableSpec.default s;
     VariableSpec.description := VariableSpec.description s;
     VariableSpec.enum := VariableSpec.enum s;
     VariableSpec.pattern := VariableSpec.pattern s;
     VariableSpec.min := VariableSpec.min s;
     VariableSpec.max := VariableSpec.max s;
     VariableSpec.minLength := lo;
     VariableSpec.maxLength := hi |}.

Definition with_format (fmt : option string) (s : VariableSpec.t)
  : VariableSpec.t :=
  {| VariableSpec.type := VariableSpec.type s;
     VariableSpec.format := fmt;
     VariableSpec.required := VariableSpec.required s;
     VariableSpec.default := VariableSpec.default s;
     VariableSpec.description := VariableSpec.description s;
     VariableSpec.enum := VariableSpec.enum s;
     VariableSpec.pattern := VariableSpec.pattern s;
     VariableSpec.min := VariableSpec.min s;
     VariableSpec.max := VariableSpec.max s;
     VariableSpec.minLength := VariableSpec.minLength s;
     VariableSpec.maxLength := VariableSpec.maxLength s |}.

(** The names of the table of format validators. *)
Definition format_names : list string :=
  ["url"; "email"; "uuid"; "json"; "base64"; "hex"; "alphanumeric"; "port";
   "positive"; "integer"; "percentage"]%string.

(** The tokens of the boolean coercion. *)
Definition true_tokens : list string := ["true"; "1"; "yes"; "on"]%string.
Definition false_tokens : list string := ["false"; "0"; "no"; "off"]%string.

Definition schema_of (vars : list (string * VariableSpec.t)) : EnvSchema.t :=
  {| EnvSchema.schema := None; EnvSchema.variables := vars |}.

(** The entries of a result that name a given variable. *)
Definition errors_for (name : string) (r : ValidationResult.t)
  : list ValidationError.t :=
  filter (λ e, ValidationError.variable e = name) (ValidationResult.errors r).

Definition warnings_for (name : string) (r : ValidationResult.t)
  : list ValidationWarning.t :=
  filter (λ w, ValidationWarning.variable w = name)
         (ValidationResult.warnings r).

Definition unused_for (name : string) (r : ValidationResult.t)
  : list ValidationWarning.t :=
  filter (λ w, ValidationWarning.type w = unused) (warnings_for name r).

(** What the own keys of [parsed] keep of the value that the field
    validator returned for a name. *)
Definition kept (name : string) (value : option (actual Value))
  : option (actual Value) :=
  if String.eqb name "__proto__" then None else value.

(** What [env[name]] gives is [undefined] or the empty string. *)
Definition unset (value : option (actual string)) : Prop :=
  value = None ∨ value = Some (typed EmptyString).

(** The three collections of [validate] as the objects that it
    creates, in the order of their creation. *)
Definition cells (acc : Acc) : Imp.heap :=
  [Imp.Errors (errors acc); Imp.Warnings (warnings acc);
   Imp.Parsed (parsed acc)].

(** A later heap: every object of [h] is in [h'] as it was, and [h']
    may have objects that [h] did not have. *)
Definition extends (h h' : Imp.heap) : Prop := ∃ added, h' = h ++ added.

Section Views.

Context {host : Host}.

Implicit Types (name key : string) (env : Env).

(** What one entry of the schema contributes. *)
Definition field env (entry : string * VariableSpec.t) : thrown FieldResult.t :=
  validateVariable entry.1 (env_get env entry.1) entry.2.

(** The error and the warning of an entry whose validation returns. *)
Definition field_error env entry : option ValidationError.t :=
  match field env entry with
  | returned result => FieldResult.error result
  | threw _ => None
  end.

Definition field_warning env entry : option ValidationWarning.t :=
  match field env entry with
  | returned result => FieldResult.warning result
  | threw _ => None
  end.

(** What the strict scan keeps of the keys of the environment. *)
Definition flagged (schemaKeys : gset string) key : bool :=
  negb (isSystemEnvVar key) && negb (bool_decide (key ∈ schemaKeys)).

(** The four outcomes of the field validator. *)
Inductive outcome name : FieldResult.t → Prop :=
  | outcome_error e :
      ValidationError.variable e = name → outcome name (fail e)
  | outcome_default d : outcome name (use_default name d)
  | outcome_skip : outcome name skip
  | outcome_parsed v :
      outcome name {| FieldResult.error := None; FieldResult.warning := None;
                      FieldResult.parsed := Some v |}.

(** The collections as the first loop leaves them: at its end, or where
    the validation of a variable throws. *)
Fixpoint reached env (vars : list (string * VariableSpec.t)) (acc : Acc) : Acc :=
  match vars with
  | [] => acc
  | entry :: rest =>
      match visit env acc entry with
      | returned acc' => reached env rest acc'
      | threw _ => acc
      end
  end.

End Views.

(** ** Sample specifications and environments *)


(** The environments of the strict-mode example of the specification,
    in one. *)
Definition database_schema : EnvSchema.t :=
  schema_of [("DATABASE_URL"%string, field_spec type_string true)].

Definition extra_env : Env :=
  [ ("DATABASE_URL"%string, Some "x"%string);
    ("EXTRA"%string, Some "y"%string);
    ("PATH"%string, Some "/usr/bin"%string) ].

Definition strict_on : Options.t := {| Options.strict := Some true |}.


(** A string whose format, and one whose pattern, is the unbalanced
    ["("]. *)
Definition bad_format : VariableSpec.t :=
  set_format "regex:(" (field_spec type_string true).

Definition bad_pattern : VariableSpec.t :=
  set_pattern (Some "("%string) (field_spec type_string true).

(** Data of the further properties. *)
Definition bounded_retry : VariableSpec.t :=
  set_bounds 1 10 (field_spec type_number true).

Definition bounded_key : VariableSpec.t :=
  set_lengths 3 50 (field_spec type_string true).

Definition two_variables : EnvSchema.t :=
  schema_of [ ("API_KEY"%string, field_spec type_string true);
              ("DEBUG"%string, field_spec type_boolean false) ].

Definition dotenv_sample : list (string * string) :=
  [ ("DATABASE_URL", "https://db.example.com"); ("PORT", "3000");
    ("DEBUG", "true"); ("API_KEY", "sk-1234567890") ]%string.

Definition entry_options : EnvOptions.t :=
  {| EnvOptions.schemaPath := None; EnvOptions.envPath := Some ".env"%string;
     EnvOptions.useProcessEnv := Some true; EnvOptions.strict := None |}.

(** ** Lemmas on the embedding *)

(** *** Host primitives *)

Lemma truthy_nonempty (v : string) : v ≠ EmptyString → JS.truthy v = true.
Proof. by destruct v. Qed.


Lemma startsWith_append (pre s : string) :
  JS.startsWith (pre ++ s)%string pre = true.
Proof.
  unfold JS.startsWith. induction pre as [|a pre IH]; simpl.
  - by destruct s.
  - by destruct (ascii_dec a a).
Qed.

Lemma startsWith_refl (s : string) : JS.startsWith s s = true.
Proof.
  unfold JS.startsWith. induction s as [|a s IH]; simpl; [done|].
  by destruct (ascii_dec a a).
Qed.

(** A key is a system variable when a member of the list is a prefix of
    it; the test for equality adds nothing to that. *)
Lemma isSystemEnvVar_prefix (key : string) :
  isSystemEnvVar key = true
  ↔ ∃ p, p ∈ systemVars ∧ JS.startsWith key p = true.
Proof.
  unfold isSystemEnvVar. rewrite existsb_exists. split.
  - intros (p & Hin & Hp). exists p. split; [by apply list_elem_of_In|].
    apply orb_true_iff in Hp as [Hp|Hp]; [done|].
    apply String.eqb_eq in Hp as ->. apply startsWith_refl.
  - intros (p & Hin & Hp). exists p. split; [by apply list_elem_of_In|].
    by rewrite Hp.
Qed.

(** *** The members of [Object.prototype] *)

Lemma find_key (m : Proto.member) : Proto.find (Proto.key m) = Some m.
Proof. by destruct m. Qed.

Lemma find_Some (k : string) (m : Proto.member) :
  Proto.find k = Some m → Proto.key m = k.
Proof.
  unfold Proto.find. intros H. apply find_some in H as [_ H].
  by apply String.eqb_eq in H.
Qed.

Lemma find_proto : Proto.find "__proto__" = Some Proto.__proto__.
Proof. done. Qed.

(** A name that [Object.prototype] does not have is not [__proto__]. *)
Lemma find_None_proto (k : string) :
  Proto.find k = None → String.eqb k "__proto__" = false.
Proof.
  intros H. apply String.eqb_neq. intros ->. by rewrite find_proto in H.
Qed.

(** *** Reading the environment *)

(** What [env[name]] gives is a string only if it is the value of the
    own key [name]. *)
Lemma env_get_typed (env : Env) (name s : string) :
  env_get env name = Some (typed s) ↔ Obj.get env name = Some (Some s).
Proof.
  unfold env_get. destruct (Obj.get env name) as [[v|]|].
  - split; congruence.
  - split; congruence.
  - destruct (Proto.find name); simpl; split; congruence.
Qed.

(** A key that the environment does not have reads as [undefined],
    unless [Object.prototype] has a member of that name. *)
Lemma env_get_absent (env : Env) (name : string) :
  Obj.get env name = None → Proto.find name = None → env_get env name = None.
Proof. unfold env_get. by intros -> ->. Qed.

Lemma env_get_inherited (env : Env) (name : string) (m : Proto.member) :
  env_get env name = Some (inherited m)
  ↔ Obj.get env name = None ∧ Proto.find name = Some m.
Proof.
  unfold env_get. destruct (Obj.get env name) as [[v|]|].
  - split; [done|]. by intros [? _].
  - split; [done|]. by intros [? _].
  - destruct (Proto.find name); simpl; split.
    + by intros [= ->].
    + by intros [_ [= ->]].
    + done.
    + by intros [_ ?].
Qed.

(** *** Calls that can throw *)

Lemma bind_returned {A B : Type} (x : thrown A) (f : A → thrown B) (b : B) :
  x ≫= f = returned b → ∃ a, x = returned a ∧ f a = returned b.
Proof. destruct x as [a|m]; simpl; [|done]. intros H. by exists a. Qed.

Lemma each_cons_returned {A B : Type} (body : B → A → thrown B)
    (x : A) (rest : list A) (b b2 : B) :
  each body (x :: rest) b = returned b2 →
  ∃ b1, body b x = returned b1 ∧ each body rest b1 = returned b2.
Proof. simpl. apply bind_returned. Qed.

Section Properties.

Context {host : Host}.

Implicit Types (name key : string) (value : option (actual string))
  (spec : VariableSpec.t) (env : Env) (acc : Acc)
  (vars : list (string * VariableSpec.t)).

(** *** The two loops *)

(** A turn of the first loop, when validation of the entry returns. *)
Lemma visit_returned env acc n s acc' :
  visit env acc (n, s) = returned acc' →
  ∃ fr, field env (n, s) = returned fr
        ∧ errors acc' = push_opt (errors acc) (FieldResult.error fr)
        ∧ warnings acc' = push_opt (warnings acc) (FieldResult.warning fr)
        ∧ parsed acc' = match FieldResult.parsed fr with
                        | Some v => store (parsed acc) n v
                        | None => parsed acc
                        end.
Proof.
  unfold visit, field; simpl.
  destruct (validateVariable n (env_get env n) s) as [fr|m]; simpl; [|done].
  intros [= <-]. by exists fr.
Qed.

Lemma visit_errors env vars acc acc' :
  each (visit env) vars acc = returned acc' →
  errors acc' = errors acc ++ omap (field_error env) vars.
Proof.
  revert acc; induction vars as [|[n s] vars IH]; intros acc.
  - intros [= <-]. by rewrite app_nil_r.
  - intros (acc1 & Hv & Hrest)%each_cons_returned. simpl. apply IH in Hrest as ->.
    apply visit_returned in Hv as (fr & Hfr & -> & _).
    unfold field_error. rewrite Hfr.
    destruct (FieldResult.error fr); simpl; [|done].
    unfold push. by rewrite <- app_assoc.
Qed.

Lemma visit_warnings env vars acc acc' :
  each (visit env) vars acc = returned acc' →
  warnings acc' = warnings acc ++ omap (field_warning env) vars.
Proof.
  revert acc; induction vars as [|[n s] vars IH]; intros acc.
  - intros [= <-]. by rewrite app_nil_r.
  - intros (acc1 & Hv & Hrest)%each_cons_returned. simpl. apply IH in Hrest as ->.
    apply visit_returned in Hv as (fr & Hfr & _ & -> & _).
    unfold field_warning. rewrite Hfr.
    destruct (FieldResult.warning fr); simpl; [|done].
    unfold push. by rewrite <- app_assoc.
Qed.

(** The loop returns exactly when the validation of each entry does. *)
Lemma visit_fields env vars acc acc' :
  each (visit env) vars acc = returned acc' →
  ∀ entry, entry ∈ vars → ∃ fr, field env entry = returned fr.
Proof.
  revert acc; induction vars as [|[n s] vars IH]; intros acc.
  - intros _ entry Hin. by apply elem_of_nil in Hin.
  - intros (acc1 & Hv & Hrest)%each_cons_returned entry Hin. apply elem_of_cons in Hin as [->|Hin].
    + apply visit_returned in Hv as (fr & Hfr & _). by exists fr.
    + by apply (IH acc1).
Qed.

Lemma visit_returns env vars acc :
  (∀ entry, entry ∈ vars → ∃ fr, field env entry = returned fr) →
  ∃ acc', each (visit env) vars acc = returned acc'.
Proof.
  revert acc; induction vars as [|[n s] vars IH]; intros acc Hall; simpl.
  - by exists acc.
  - destruct (Hall (n, s)) as [fr Hfr]; [by left|].
    unfold visit at 1. unfold field in Hfr; simpl in Hfr. rewrite Hfr. simpl.
    apply IH. intros entry Hin. apply Hall. by right.
Qed.

Lemma store_other (p : gmap string (actual Value)) n v name :
  name ≠ n → store p n v !! name = p !! name.
Proof.
  intros Hne. unfold store. destruct (String.eqb n "__proto__"); [done|].
  by rewrite lookup_insert_ne.
Qed.

Lemma store_same (p : gmap string (actual Value)) n v :
  p !! n = None → store p n v !! n = kept n (Some v).
Proof.
  intros Hp. unfold store, kept. destruct (String.eqb n "__proto__"); [done|].
  by rewrite lookup_insert_eq.
Qed.

(** No turn of the loop gives [parsed] the key [__proto__]. *)
Lemma store_proto (p : gmap string (actual Value)) n v :
  p !! "__proto__" = None → store p n v !! "__proto__" = None.
Proof.
  intros Hp. unfold store. destruct (String.eqb n "__proto__") eqn:Hn; [done|].
  apply String.eqb_neq in Hn. by rewrite lookup_insert_ne.
Qed.

Lemma visit_parsed_other env vars acc acc' name :
  each (visit env) vars acc = returned acc' →
  name ∉ keys vars →
  parsed acc' !! name = parsed acc !! name.
Proof.
  revert acc; induction vars as [|[n s] vars IH]; intros acc.
  - by intros [= <-].
  - intros (acc1 & Hv & Hrest)%each_cons_returned Hn. simpl in Hn. apply not_elem_of_cons in Hn as [Hne Hn].
    rewrite (IH acc1) by done.
    apply visit_returned in Hv as (fr & _ & _ & _ & ->).
    destruct (FieldResult.parsed fr); [|done]. by apply store_other.
Qed.

Lemma visit_parsed env vars acc acc' name spec :
  each (visit env) vars acc = returned acc' →
  NoDup (keys vars) → (name, spec) ∈ vars → parsed acc !! name = None →
  ∃ fr, field env (name, spec) = returned fr
        ∧ parsed acc' !! name = kept name (FieldResult.parsed fr).
Proof.
  revert acc; induction vars as [|[n s] vars IH]; intros acc.
  - intros _ _ Hin. by apply elem_of_nil in Hin.
  - intros (acc1 & Hv & Hrest)%each_cons_returned Hnd Hin Hacc.
    simpl in Hnd. apply NoDup_cons in Hnd as [Hfresh Hnd].
    apply visit_returned in Hv as (fr & Hfr & _ & _ & Hp).
    apply elem_of_cons in Hin as [Heq|Hin].
    + injection Heq as -> ->. exists fr. split; [done|].
      rewrite (visit_parsed_other _ _ _ _ _ Hrest) by done. rewrite Hp.
      destruct (FieldResult.parsed fr) as [v|].
      * by apply store_same.
      * rewrite Hacc. unfold kept. by destruct (String.eqb _ _).
    + assert (name ≠ n) as Hne.
      { intros ->. apply Hfresh. unfold keys.
        apply (list_elem_of_fmap_2 fst) in Hin. exact Hin. }
      apply (IH acc1); [done..|]. rewrite Hp.
      destruct (FieldResult.parsed fr); [|done]. by rewrite store_other.
Qed.

Lemma visit_parsed_proto env vars acc acc' :
  each (visit env) vars acc = returned acc' →
  parsed acc !! "__proto__" = None → parsed acc' !! "__proto__" = None.
Proof.
  revert acc; induction vars as [|[n s] vars IH]; intros acc.
  - by intros [= <-].
  - intros (acc1 & Hv & Hrest)%each_cons_returned Hacc. apply (IH acc1); [done|].
    apply visit_returned in Hv as (fr & _ & _ & _ & ->).
    destruct (FieldResult.parsed fr); [|done]. by apply store_proto.
Qed.

Lemma scan_errors ks (keys_ : list string) acc :
  errors (fold_left (scan ks) keys_ acc) = errors acc.
Proof.
  revert acc; induction keys_ as [|k keys_ IH]; intros acc; [done|].
  simpl. rewrite IH. unfold scan.
  destruct (isSystemEnvVar k); [done|]. by destruct (negb _).
Qed.

Lemma scan_parsed ks (keys_ : list string) acc :
  parsed (fold_left (scan ks) keys_ acc) = parsed acc.
Proof.
  revert acc; induction keys_ as [|k keys_ IH]; intros acc; [done|].
  simpl. rewrite IH. unfold scan.
  destruct (isSystemEnvVar k); [done|]. by destruct (negb _).
Qed.

Lemma scan_warnings ks (keys_ : list string) acc :
  warnings (fold_left (scan ks) keys_ acc)
  = warnings acc ++ map unused_warning (List.filter (flagged ks) keys_).
Proof.
  revert acc; induction keys_ as [|k keys_ IH]; intros acc; simpl.
  - by rewrite app_nil_r.
  - rewrite IH. unfold scan, flagged.
    destruct (isSystemEnvVar k); simpl; [done|].
    destruct (bool_decide _); simpl; [done|].
    unfold push. by rewrite <- app_assoc.
Qed.

(** *** The result of [validate], collection by collection *)

(** [validate] returns when its first loop does, and what. *)
Lemma validate_returned schema env options r :
  validate schema env options = returned r →
  ∃ acc, each (visit env) (EnvSchema.variables schema) fresh = returned acc
         ∧ ValidationResult.valid r = Nat.eqb (length (ValidationResult.errors r)) 0
         ∧ ValidationResult.errors r = errors acc
         ∧ ValidationResult.warnings r
           = warnings acc
             ++ (if is_strict options
                 then map unused_warning
                        (List.filter
                           (flagged (list_to_set (keys (EnvSchema.variables schema))))
                           (keys env))
                 else [])
         ∧ ValidationResult.parsed r = parsed acc.
Proof.
  unfold validate.
  destruct (each _ _ _) as [acc|m]; simpl; [|done].
  intros [= <-]. exists acc. simpl.
  destruct (is_strict options).
  - by rewrite scan_errors, scan_warnings, scan_parsed.
  - by rewrite app_nil_r.
Qed.

(** [validate] throws only what the validation of a variable throws. *)
Lemma validate_returns schema env options :
  (∀ entry, entry ∈ EnvSchema.variables schema →
            ∃ fr, field env entry = returned fr)
  ↔ ∃ r, validate schema env options = returned r.
Proof.
  split.
  - intros Hall.
    destruct (visit_returns env _ fresh Hall) as [acc Hacc].
    unfold validate. rewrite Hacc. simpl. eauto.
  - intros [r Hr]. apply validate_returned in Hr as (acc & Hacc & _).
    by apply visit_fields with fresh acc.
Qed.

Lemma validate_errors schema env options r :
  validate schema env options = returned r →
  ValidationResult.errors r
  = omap (field_error env) (EnvSchema.variables schema).
Proof.
  intros (acc & Hacc & _ & -> & _)%validate_returned.
  by rewrite (visit_errors _ _ _ _ Hacc).
Qed.

Lemma validate_warnings schema env options r :
  validate schema env options = returned r →
  ValidationResult.warnings r
  = omap (field_warning env) (EnvSchema.variables schema)
    ++ (if is_strict options
        then map unused_warning
               (List.filter
                  (flagged (list_to_set (keys (EnvSchema.variables schema))))
                  (keys env))
        else []).
Proof.
  intros (acc & Hacc & _ & _ & -> & _)%validate_returned.
  by rewrite (visit_warnings _ _ _ _ Hacc).
Qed.

Lemma validate_parsed schema env options r name spec :
  validate schema env options = returned r →
  NoDup (keys (EnvSchema.variables schema)) →
  (name, spec) ∈ EnvSchema.variables schema →
  ∃ fr, field env (name, spec) = returned fr
        ∧ ValidationResult.parsed r !! name = kept name (FieldResult.parsed fr).
Proof.
  intros (acc & Hacc & _ & _ & _ & ->)%validate_returned Hnd Hin.
  by apply (visit_parsed _ _ _ _ _ _ Hacc).
Qed.

Lemma validate_valid schema env options r :
  validate schema env options = returned r →
  ValidationResult.valid r
  = Nat.eqb (length (ValidationResult.errors r)) 0.
Proof. by intros (acc & _ & -> & _)%validate_returned. Qed.

(** *** What the field validator returns *)

Lemma check_enum_inv name v spec e :
  check_enum name v spec = Some e →
  ValidationError.variable e = name ∧ ValidationError.type e = invalid_enum.
Proof.
  unfold check_enum. destruct (VariableSpec.enum spec); [|done].
  destruct (_ && _); [|done]. by intros [= <-].
Qed.

Lemma check_format_inv name v spec e :
  check_format name v spec = returned (Some e) →
  ValidationError.variable e = name ∧ ValidationError.type e = invalid_format.
Proof.
  unfold check_format. destruct (VariableSpec.format spec) as [fmt|]; [|done].
  destruct (negb (JS.truthy fmt)); [done|].
  destruct (JS.startsWith fmt "regex:").
  - destruct (RegExp _) as [regex|]; [|by intros [= <-]].
    destruct (negb (regex _)); [|done]. by intros [= <-].
  - destruct (formatValidator fmt) as [validator|]; [|done].
    destruct (validator v) as [ok|m]; simpl; [|done].
    destruct (negb ok); [|done]. by intros [= <-].
Qed.

Lemma check_range_inv name coerced spec e :
  check_range name coerced spec = Some e →
  ValidationError.variable e = name ∧ ValidationError.type e = invalid_range.
Proof.
  unfold check_range. destruct (VariableSpec.type spec); try done.
  destruct (VariableSpec.min spec) as [lo|].
  - destruct (JS.lt _ lo); [by intros [= <-]|].
    destruct (VariableSpec.max spec) as [hi|]; [|done].
    destruct (JS.gt _ hi); [|done]. by intros [= <-].
  - destruct (VariableSpec.max spec) as [hi|]; [|done].
    destruct (JS.gt _ hi); [|done]. by intros [= <-].
Qed.

Lemma check_length_inv name coerced spec e :
  check_length name coerced spec = Some e →
  ValidationError.variable e = name ∧ ValidationError.type e = invalid_range.
Proof.
  unfold check_length. destruct (VariableSpec.type spec); try done.
  destruct (string_length _) as [len|]; [|done].
  destruct (VariableSpec.minLength spec) as [lo|].
  - destruct (JS.lt _ lo); [by intros [= <-]|].
    destruct (VariableSpec.maxLength spec) as [hi|]; [|done].
    destruct (JS.gt _ hi); [|done]. by intros [= <-].
  - destruct (VariableSpec.maxLength spec) as [hi|]; [|done].
    destruct (JS.gt _ hi); [|done]. by intros [= <-].
Qed.

Lemma check_pattern_inv name v spec e :
  check_pattern name v spec = Some e →
  ValidationError.variable e = name ∧ ValidationError.type e = invalid_format.
Proof.
  unfold check_pattern. destruct (VariableSpec.pattern spec) as [pat|]; [|done].
  destruct (negb (JS.truthy pat)); [done|].
  destruct (RegExp pat) as [regex|]; [|done].
  destruct (negb (regex _)); [|done]. by intros [= <-].
Qed.

(** The checks in a row: what it means that they return no error, and
    that they return one. *)
Lemma first_error_cons_returned c cs :
  first_error (returned c :: cs)
  = match c with Some e => returned (Some e) | None => first_error cs end.
Proof. by destruct c. Qed.

(** An error of the checks after coercion names the variable and is
    not of the kinds [missing] and [invalid_type]. *)
Lemma checks_inv name v coerced spec e :
  first_error (checks name v coerced spec) = returned (Some e) →
  ValidationError.variable e = name
  ∧ ValidationError.type e ≠ missing
  ∧ ValidationError.type e ≠ invalid_type.
Proof.
  unfold checks; simpl.
  destruct (check_enum _ _ _) eqn:H1.
  { intros [= <-]. apply check_enum_inv in H1 as [? ->]. done. }
  destruct (check_format _ _ _) as [[e2|]|m] eqn:H2; [| |done].
  { intros [= <-]. apply check_format_inv in H2 as [? ->]. done. }
  destruct (check_range _ _ _) eqn:H3.
  { intros [= <-]. apply check_range_inv in H3 as [? ->]. done. }
  destruct (check_length _ _ _) eqn:H4.
  { intros [= <-]. apply check_length_inv in H4 as [? ->]. done. }
  destruct (check_pattern _ _ _) eqn:H5; [|done].
  intros [= <-]. apply check_pattern_inv in H5 as [? ->]. done.
Qed.

Lemma presence_outcome name spec : outcome name (presence name spec).
Proof.
  unfold presence.
  destruct (VariableSpec.required spec), (VariableSpec.default spec);
    by constructor.
Qed.

Lemma validateVariable_outcome name value spec fr :
  validateVariable name value spec = returned fr → outcome name fr.
Proof.
  unfold validateVariable. destruct value as [v|];
    [|intros [= <-]; apply presence_outcome].
  destruct (is_empty v); [intros [= <-]; apply presence_outcome|].
  destruct (coerceValue v _) as [coerced|m]; cbn [mbind thrown_bind]; [|done].
  destruct (negb (Coerced.success _)); [intros [= <-]; by constructor|].
  destruct (first_error _) as [[e|]|m] eqn:He; cbn [mbind thrown_bind];
    [| |done].
  - intros [= <-]. apply checks_inv in He as [? _]. by constructor.
  - intros [= <-]. by constructor.
Qed.

Lemma field_error_variable env n s e :
  field_error env (n, s) = Some e → ValidationError.variable e = n.
Proof.
  unfold field_error, field; simpl.
  destruct (validateVariable n (env_get env n) s) as [fr|m] eqn:Hfr; [|done].
  destruct (validateVariable_outcome _ _ _ _ Hfr); simpl; congruence.
Qed.

Lemma field_warning_inv env n s w :
  field_warning env (n, s) = Some w →
  ValidationWarning.variable w = n
  ∧ ValidationWarning.type w = default_applied.
Proof.
  unfold field_warning, field; simpl.
  destruct (validateVariable n (env_get env n) s) as [fr|m] eqn:Hfr; [|done].
  destruct (validateVariable_outcome _ _ _ _ Hfr); simpl; try done.
  by intros [= <-].
Qed.

(** *** Entries of a variable among those of the schema *)

Section ByKey.

Context {A B : Type} (f : string * A → option B) (key : B → string).
Hypothesis f_key : ∀ n x b, f (n, x) = Some b → key b = n.

Lemma filter_omap_other (vars : list (string * A)) name :
  name ∉ keys vars → filter (λ b, key b = name) (omap f vars) = [].
Proof.
  induction vars as [|[n x] vars IH]; intros Hn; [done|].
  simpl in Hn. apply not_elem_of_cons in Hn as [Hne Hn]. simpl.
  destruct (f (n, x)) as [b|] eqn:Hf; [|by apply IH].
  rewrite filter_cons. apply f_key in Hf.
  case_decide; [congruence|by apply IH].
Qed.

Lemma filter_omap_key (vars : list (string * A)) name a :
  NoDup (keys vars) → (name, a) ∈ vars →
  filter (λ b, key b = name) (omap f vars) = option_list (f (name, a)).
Proof.
  induction vars as [|[n x] vars IH]; intros Hnd Hin.
  - by apply elem_of_nil in Hin.
  - simpl in Hnd. apply NoDup_cons in Hnd as [Hfresh Hnd].
    apply elem_of_cons in Hin as [Heq|Hin]; simpl.
    + injection Heq as -> ->.
      destruct (f (n, x)) as [b|] eqn:Hf; simpl.
      * rewrite filter_cons. apply f_key in Hf.
        case_decide; [|done]. by rewrite filter_omap_other.
      * by rewrite filter_omap_other.
    + assert (name ≠ n) as Hne.
      { intros ->. apply Hfresh.
        apply (list_elem_of_fmap_2 fst) in Hin. exact Hin. }
      destruct (f (n, x)) as [b|] eqn:Hf; [|by apply IH].
      rewrite filter_cons. apply f_key in Hf.
      case_decide; [congruence|by apply IH].
Qed.

End ByKey.

(** *** The warnings of the strict scan *)

Lemma scan_for_unflagged ks (l : list string) key :
  flagged ks key = false →
  filter (λ w, ValidationWarning.variable w = key)
         (map unused_warning (List.filter (flagged ks) l)) = [].
Proof.
  intros Hk. induction l as [|k l IH]; [done|]. simpl.
  destruct (flagged ks k) eqn:Hf; [|done]. simpl.
  rewrite filter_cons. simpl. case_decide; [congruence|done].
Qed.

Lemma scan_for_absent ks (l : list string) key :
  key ∉ l →
  filter (λ w, ValidationWarning.variable w = key)
         (map unused_warning (List.filter (flagged ks) l)) = [].
Proof.
  induction l as [|k l IH]; intros Hk; [done|].
  apply not_elem_of_cons in Hk as [Hne Hk]. simpl.
  destruct (flagged ks k); [|by apply IH]. simpl.
  rewrite filter_cons. simpl. case_decide; [congruence|by apply IH].
Qed.

Lemma scan_for_flagged ks (l : list string) key :
  NoDup l → key ∈ l → flagged ks key = true →
  filter (λ w, ValidationWarning.variable w = key)
         (map unused_warning (List.filter (flagged ks) l))
  = [unused_warning key].
Proof.
  intros Hnd Hin Hk. induction l as [|k l IH].
  - by apply elem_of_nil in Hin.
  - apply NoDup_cons in Hnd as [Hfresh Hnd].
    apply elem_of_cons in Hin as [<-|Hin]; simpl.
    + rewrite Hk. simpl. rewrite filter_cons. simpl.
      case_decide; [|done]. by rewrite scan_for_absent.
    + assert (key ≠ k) as Hne by (intros ->; done).
      destruct (flagged ks k); [|by apply IH]. simpl.
      rewrite filter_cons. simpl. case_decide; [congruence|by apply IH].
Qed.

Lemma flagged_declared vars name :
  name ∈ keys vars → flagged (list_to_set (keys vars)) name = false.
Proof.
  intros Hin. unfold flagged. rewrite bool_decide_eq_true_2.
  - by rewrite andb_false_r.
  - by apply elem_of_list_to_set.
Qed.

Lemma flagged_undeclared vars key :
  key ∉ keys vars → isSystemEnvVar key = false →
  flagged (list_to_set (keys vars)) key = true.
Proof.
  intros Hin Hsys. unfold flagged. rewrite Hsys, bool_decide_eq_false_2.
  - done.
  - by rewrite elem_of_list_to_set.
Qed.

(** The field validator never warns [unused]. *)
Lemma field_warnings_not_unused env vars :
  filter (λ w, ValidationWarning.type w = unused)
         (omap (field_warning env) vars) = [].
Proof.
  induction vars as [|[n s] vars IH]; [done|]. simpl.
  destruct (field_warning env (n, s)) as [w|] eqn:Hw; [|done].
  apply field_warning_inv in Hw as [_ Hw].
  rewrite filter_cons. case_decide; [congruence|done].
Qed.

(** *** One variable of the schema in the result

    With unique keys, what a result holds for a declared variable is
    what the field validator returned for it, in each collection; of
    its parsed value, what the assignment keeps. *)
Lemma validate_for_variable schema env options r name spec :
  validate schema env options = returned r →
  NoDup (keys (EnvSchema.variables schema)) →
  (name, spec) ∈ EnvSchema.variables schema →
  ∃ fr, validateVariable name (env_get env name) spec = returned fr
        ∧ errors_for name r = option_list (FieldResult.error fr)
        ∧ warnings_for name r = option_list (FieldResult.warning fr)
        ∧ ValidationResult.parsed r !! name = kept name (FieldResult.parsed fr).
Proof.
  intros Hr Hnd Hin.
  destruct (validate_parsed _ _ _ _ _ _ Hr Hnd Hin) as (fr & Hfr & Hp).
  exists fr. split; [exact Hfr|]. split; [|split].
  - unfold errors_for. rewrite (validate_errors _ _ _ _ Hr).
    rewrite (filter_omap_key _ _ (field_error_variable env) _ _ spec) by done.
    unfold field_error. by rewrite Hfr.
  - unfold warnings_for. rewrite (validate_warnings _ _ _ _ Hr), filter_app.
    rewrite (filter_omap_key (field_warning env) ValidationWarning.variable)
      with (a := spec); [|by intros ??? [??]%field_warning_inv|done..].
    assert (name ∈ keys (EnvSchema.variables schema)) as Hk.
    { apply (list_elem_of_fmap_2 fst) in Hin. exact Hin. }
    unfold field_warning at 1. rewrite Hfr.
    destruct (is_strict options); simpl.
    + rewrite scan_for_unflagged by by apply flagged_declared.
      by rewrite app_nil_r.
    + by rewrite filter_nil, app_nil_r.
  - exact Hp.
Qed.

End Properties.

(** ** The properties of the specification *)

Section Coercion.

Context {host : Host}.

Lemma coerce_number_nan (v : actual string) :
  JS.isNaN (JS.Number (text v)) = true →
  coerceValue v type_number
  = returned
      {| Coerced.success := false; Coerced.value := as_value v;
         Coerced.error :=
           Some ("Cannot convert " ++ JS.quote ++ text v ++ JS.quote
                 ++ " to number")%string |}.
Proof. intros H. unfold coerceValue. by rewrite H. Qed.

(** The cast of [check_range] is applied to a number. *)
Lemma coerce_number_value (v : actual string) :
  JS.isNaN (JS.Number (text v)) = false →
  coerceValue v type_number
  = returned
      {| Coerced.success := true;
         Coerced.value := typed (VNumber (JS.Number (text v)));
         Coerced.error := None |}.
Proof. intros H. unfold coerceValue. by rewrite H. Qed.

(** The cast of [check_length] is applied to the raw value. *)
Lemma coerce_string_value (v : actual string) :
  coerceValue v type_string
  = returned
      {| Coerced.success := true; Coerced.value := as_value v;
         Coerced.error := None |}.
Proof. done. Qed.

(** The coercion of a string returns. *)
Lemma coerce_typed_returns (s : string) (t : VariableType) :
  ∃ coerced, coerceValue (typed s) t = returned coerced.
Proof.
  destruct t; unfold coerceValue; [by eexists| |].
  - destruct (JS.isNaN _); by eexists.
  - destruct (JS.includes _ _); [by eexists|].
    destruct (JS.includes _ _); by eexists.
Qed.

(** The field validator on a raw value that is present. *)
Lemma validateVariable_present name (v : actual string) spec :
  is_empty v = false →
  validateVariable name (Some v) spec
  = coerced ← coerceValue v (VariableSpec.type spec);
    if negb (Coerced.success coerced) then
      returned
        (fail (error_of name (coerce_message coerced) invalid_type
                 (Some (type_name (VariableSpec.type spec))) (Some v)))
    else
      failed ← first_error (checks name v coerced spec);
      match failed with
      | Some e => returned (fail e)
      | None =>
          returned
            {| FieldResult.error := None; FieldResult.warning := None;
               FieldResult.parsed := Some (Coerced.value coerced) |}
      end.
Proof. intros H. unfold validateVariable. by rewrite H. Qed.

Lemma is_empty_typed (s : string) : s ≠ EmptyString → is_empty (typed s) = false.
Proof. intros H. simpl. by rewrite truthy_nonempty. Qed.


End Coercion.



Section Presence.

Context {host : Host}.

Lemma validateVariable_unset name value spec :
  unset value → validateVariable name value spec = returned (presence name spec).
Proof. by intros [-> | ->]. Qed.




End Presence.






Section Aggregation.

Context {host : Host}.

(** C4. A result is valid exactly when it has no error, [isValid]
    returns that boolean, and validity depends on nothing but the
    errors: neither the options, which only add warnings, nor the
    warnings of any other result with the same errors change it. Where
    [validate] throws, [isValid] throws the same. *)
Theorem valid_iff_no_errors schema env options :
  match validate schema env options with
  | returned r =>
      (ValidationResult.valid r = true ↔ ValidationResult.errors r = [])
      ∧ isValid schema env = returned (ValidationResult.valid r)
      ∧ (∀ schema' env' options' r',
           validate schema' env' options' = returned r' →
           ValidationResult.errors r' = ValidationResult.errors r →
           ValidationResult.valid r' = ValidationResult.valid r)
  | threw message => isValid schema env = threw message
  end.
Proof.
  destruct (validate schema env options) as [r|m] eqn:Hr.
  - split; [|split].
    + rewrite (validate_valid _ _ _ _ Hr).
      destruct (ValidationResult.errors r); simpl; [done|].
      split; discriminate.
    + unfold isValid.
      destruct (proj1 (validate_returns schema env Options.none)) as [r0 Hr0].
      { apply (validate_returns schema env options). by exists r. }
      rewrite Hr0. simpl.
      rewrite (validate_valid _ _ _ _ Hr), (validate_valid _ _ _ _ Hr0).
      by rewrite (validate_errors _ _ _ _ Hr), (validate_errors _ _ _ _ Hr0).
    + intros schema' env' options' r' Hr' He.
      by rewrite (validate_valid _ _ _ _ Hr), (validate_valid _ _ _ _ Hr'), He.
  - unfold isValid. unfold validate in *.
    destruct (each _ _ _) as [acc|m']; simpl in *; congruence.
Qed.

Lemma unused_for_fields env vars key :
  filter (λ w, ValidationWarning.type w = unused)
    (filter (λ w, ValidationWarning.variable w = key)
       (omap (field_warning env) vars)) = [].
Proof.
  induction vars as [|[n s] vars IH]; [done|]. simpl.
  destruct (field_warning env (n, s)) as [w|] eqn:Hw; [|done].
  apply field_warning_inv in Hw as [_ Hw].
  rewrite filter_cons. case_decide; [|done].
  rewrite filter_cons. case_decide; [congruence|done].
Qed.

(** C7. In strict mode every key of the environment that the schema
    does not declare and the list of system variables does not match
    gets exactly one [unused] warning; a key that the list matches (a
    member of the list is the key or a prefix of it), such as PATH or
    HOME, gets none, nor does a declared one; without strict mode there
    is no [unused] warning at all. *)
Theorem strict_unused_warnings schema env options r :
  validate schema env options = returned r →
  NoDup (keys env) →
  let declared k := k ∈ keys (EnvSchema.variables schema) in
  (is_strict options = true →
   ∀ k, k ∈ keys env → ¬ declared k → isSystemEnvVar k = false →
        unused_for k r = [unused_warning k])
  ∧ (∀ k, isSystemEnvVar k = true → unused_for k r = [])
  ∧ (∀ k, declared k → unused_for k r = [])
  ∧ (is_strict options = false →
     filter (λ w, ValidationWarning.type w = unused)
            (ValidationResult.warnings r) = [])
  ∧ (∀ k, isSystemEnvVar k = true
          ↔ ∃ p, p ∈ systemVars ∧ JS.startsWith k p = true)
  ∧ isSystemEnvVar "PATH" = true
  ∧ isSystemEnvVar "HOME" = true.
Proof.
  intros Hr Hnd declared.
  assert (∀ k, unused_for k r
               = filter (λ w, ValidationWarning.type w = unused)
                   (filter (λ w, ValidationWarning.variable w = k)
                      (if is_strict options
                       then map unused_warning
                              (List.filter
                                 (flagged (list_to_set
                                    (keys (EnvSchema.variables schema))))
                                 (keys env))
                       else []))) as Hscan.
  { intros k. unfold unused_for, warnings_for.
    by rewrite (validate_warnings _ _ _ _ Hr), !filter_app, unused_for_fields. }
  repeat split.
  - intros Hs k Hin Hdecl Hsys. rewrite Hscan, Hs.
    rewrite scan_for_flagged; [done..|].
    by apply flagged_undeclared.
  - intros k Hsys. rewrite Hscan.
    destruct (is_strict options); [|done].
    rewrite scan_for_unflagged; [done|].
    unfold flagged. by rewrite Hsys.
  - intros k Hdecl. rewrite Hscan.
    destruct (is_strict options); [|done].
    rewrite scan_for_unflagged; [done|].
    by apply flagged_declared.
  - intros Hs. rewrite (validate_warnings _ _ _ _ Hr), Hs, app_nil_r.
    apply field_warnings_not_unused.
  - apply isSystemEnvVar_prefix.
  - apply isSystemEnvVar_prefix.
Qed.

(** C8. The field validator returns at most one error, one warning and
    one parsed value, and never an error together with a warning (nor
    with a parsed value), whatever the name, the raw value and the
    spec. A result of [validate] holds for a declared variable just
    what was returned for it, so at most one entry in each collection,
    and none in any of them when nothing was returned; of a parsed
    value under the name [__proto__] it holds nothing. *)
Theorem field_validator_single_outcome schema env options r name spec :
  validate schema env options = returned r →
  NoDup (keys (EnvSchema.variables schema)) →
  (name, spec) ∈ EnvSchema.variables schema →
  (∀ name' value spec' fr,
     validateVariable name' value spec' = returned fr →
     ¬ (is_Some (FieldResult.error fr) ∧ is_Some (FieldResult.warning fr))
     ∧ ¬ (is_Some (FieldResult.error fr) ∧ is_Some (FieldResult.parsed fr)))
  ∧ ∃ fr,
      validateVariable name (env_get env name) spec = returned fr
      ∧ errors_for name r = option_list (FieldResult.error fr)
      ∧ warnings_for name r = option_list (FieldResult.warning fr)
      ∧ ValidationResult.parsed r !! name
        = (if String.eqb name "__proto__" then None else FieldResult.parsed fr)
      ∧ (length (errors_for name r) ≤ 1)%nat
      ∧ (length (warnings_for name r) ≤ 1)%nat
      ∧ (errors_for name r = [] ∨ warnings_for name r = [])
      ∧ (fr = skip →
         errors_for name r = [] ∧ warnings_for name r = []
         ∧ ValidationResult.parsed r !! name = None).
Proof.
  intros Hr Hnd Hin. split.
  { intros name' value spec' fr Hfr.
    destruct (validateVariable_outcome _ _ _ _ Hfr); simpl;
      split; intros [[? ?] [? ?]]; discriminate. }
  destruct (validate_for_variable schema env options r name spec Hr Hnd Hin)
    as (fr & Hfr & He & Hw & Hp).
  exists fr. rewrite He, Hw, Hp. split_and!; try done.
  - destruct (FieldResult.error fr); simpl; lia.
  - destruct (FieldResult.warning fr); simpl; lia.
  - destruct (validateVariable_outcome _ _ _ _ Hfr); simpl; auto.
  - intros ->. unfold kept. simpl. by destruct (String.eqb name _).
Qed.

End Aggregation.

Lemma strict_unused_warnings_witness :
  ∃ r, validate (host := plain_host) database_schema extra_env strict_on
       = returned r
       ∧ NoDup (keys extra_env)
       ∧ unused_for "EXTRA" r = [unused_warning "EXTRA"]
       ∧ unused_for "PATH" r = []
       ∧ ValidationResult.warnings r = [unused_warning "EXTRA"].
Proof.
  eexists. split; [vm_compute; reflexivity|].
  assert (NoDup (keys extra_env)) as Hnd.
  { apply (bool_decide_unpack _). vm_compute. reflexivity. }
  split; [exact Hnd|].
  destruct (strict_unused_warnings (host := plain_host)
              database_schema extra_env strict_on _ eq_refl Hnd)
    as (Hextra & Hsys & _).
  split; [|split].
  - apply Hextra; [reflexivity| | |reflexivity].
    + apply (bool_decide_unpack _). vm_compute. reflexivity.
    + apply (bool_decide_unpack _). vm_compute. reflexivity.
  - apply Hsys. reflexivity.
  - vm_compute. reflexivity.
Defined.

Lemma field_validator_single_outcome_witness :
  let schema :=
    schema_of [ ("API_KEY"%string, field_spec type_string true);
                ("DEBUG"%string, field_spec type_boolean false) ] in
  ∃ r, validate (host := plain_host) schema [] Options.none = returned r
       ∧ NoDup (keys (EnvSchema.variables schema))
       ∧ (length (errors_for "API_KEY" r) ≤ 1)%nat
       ∧ errors_for "DEBUG" r = []
       ∧ warnings_for "DEBUG" r = []
       ∧ ValidationResult.parsed r !! "DEBUG"%string = None.
Proof.
  intros schema. eexists. split; [vm_compute; reflexivity|].
  assert (NoDup (keys (EnvSchema.variables schema))) as Hnd.
  { apply (bool_decide_unpack _). vm_compute. reflexivity. }
  split; [exact Hnd|].
  split.
  - destruct (field_validator_single_outcome (host := plain_host)
                schema [] Options.none _ "API_KEY"
                (field_spec type_string true) eq_refl Hnd)
      as (_ & fr & _ & _ & _ & _ & Hlen & _); [apply list_elem_of_here|].
    exact Hlen.
  - destruct (field_validator_single_outcome (host := plain_host)
                schema [] Options.none _ "DEBUG"
                (field_spec type_boolean false) eq_refl Hnd)
      as (_ & fr & Hfr & _ & _ & _ & _ & _ & _ & Hskip);
      [apply list_elem_of_further, list_elem_of_here|].
    apply Hskip. injection Hfr as <-. reflexivity.
Defined.

Section Checks.

Context {host : Host}.

(** The field validator on a raw value that is present and coerced. *)
Lemma validateVariable_checked name (v : actual string) spec coerced :
  is_empty v = false →
  coerceValue v (VariableSpec.type spec) = returned coerced →
  Coerced.success coerced = true →
  validateVariable name (Some v) spec
  = failed ← first_error (checks name v coerced spec);
    match failed with
    | Some e => returned (fail e)
    | None =>
        returned
          {| FieldResult.error := None; FieldResult.warning := None;
             FieldResult.parsed := Some (Coerced.value coerced) |}
    end.
Proof.
  intros Hv Hc Hs. rewrite validateVariable_present by done.
  rewrite Hc. cbn [mbind thrown_bind]. by rewrite Hs.
Qed.


Lemma check_pattern_uncompilable name v spec p :
  VariableSpec.pattern spec = Some p → RegExp p = None →
  check_pattern name v spec = None.
Proof.
  intros Hp Hr. unfold check_pattern. rewrite Hp, Hr.
  by destruct (negb _).
Qed.

(** The format [regex:p] of a pattern that does not compile. *)
Lemma check_format_uncompilable name v spec p :
  VariableSpec.format spec = Some ("regex:" ++ p)%string → RegExp p = None →
  check_format name v spec
  = returned
      (Some {| ValidationError.variable := name;
               ValidationError.message := ("Invalid regex pattern: " ++ p)%string;
               ValidationError.type := invalid_format;
               ValidationError.expected := None;
               ValidationError.received := None |}).
Proof.
  intros Hf Hr. unfold check_format. rewrite Hf.
  change (JS.truthy ("regex:" ++ p)%string) with true.
  change (JS.slice ("regex:" ++ p)%string 6) with p.
  rewrite startsWith_append. cbn [negb]. by rewrite Hr.
Qed.

(** C6. A pattern [p] that the host does not compile is treated in two
    ways. As the format [regex:p] of a raw value that is present,
    coerced and past the enum check, it makes the field validator
    return an error and nothing else: an error of kind
    [invalid_format] for the variable, whose message names [p]. As the
    custom [pattern] it returns nothing: the check is left, and the
    field validator answers as it does for the spec without the
    pattern. *)
Theorem regex_compile_failure_asymmetry name (v : actual string) spec p coerced :
  RegExp p = None →
  is_empty v = false →
  coerceValue v (VariableSpec.type spec) = returned coerced →
  Coerced.success coerced = true →
  check_enum name v spec = None →
  (VariableSpec.format spec = Some ("regex:" ++ p)%string →
   ∃ fr e,
     validateVariable name (Some v) spec = returned fr
     ∧ FieldResult.error fr = Some e
     ∧ FieldResult.warning fr = None
     ∧ FieldResult.parsed fr = None
     ∧ ValidationError.variable e = name
     ∧ ValidationError.type e = invalid_format
     ∧ ValidationError.message e = ("Invalid regex pattern: " ++ p)%string
     ∧ ValidationError.expected e = None
     ∧ ValidationError.received e = None)
  ∧ (VariableSpec.pattern spec = Some p →
     check_pattern name v spec = None
     ∧ validateVariable name (Some v) spec
       = validateVariable name (Some v) (set_pattern None spec)).
Proof.
  intros Hr Hv Hc Hs Henum. split.
  - intros Hf. rewrite (validateVariable_checked _ _ _ coerced) by done.
    unfold checks. rewrite first_error_cons_returned, Henum.
    rewrite (check_format_uncompilable _ _ _ p) by done.
    cbn [first_error mbind thrown_bind].
    do 2 eexists. split; [reflexivity|]. split_and!; reflexivity.
  - intros Hp. split; [by apply (check_pattern_uncompilable _ _ _ p)|].
    rewrite !(validateVariable_checked _ _ _ coerced) by done.
    unfold checks.
    rewrite (check_pattern_uncompilable name v spec p) by done.
    reflexivity.
Qed.

End Checks.


Lemma regex_compile_failure_asymmetry_witness :
  RegExp (Host := plain_host) "(" = None
  ∧ (∃ fr e,
       validateVariable (host := plain_host) "TOKEN" (Some (typed "abc"%string))
         bad_format = returned fr
       ∧ FieldResult.error fr = Some e
       ∧ ValidationError.type e = invalid_format
       ∧ ValidationError.message e = "Invalid regex pattern: ("%string)
  ∧ validateVariable (host := plain_host) "TOKEN" (Some (typed "abc"%string))
      bad_pattern
    = validateVariable (host := plain_host) "TOKEN" (Some (typed "abc"%string))
        (set_pattern None bad_pattern).
Proof.
  split; [reflexivity|]. split.
  - edestruct (regex_compile_failure_asymmetry (host := plain_host)
                 "TOKEN" (typed "abc"%string) bad_format "(") as [Hformat _];
      [reflexivity | reflexivity | vm_compute; reflexivity | reflexivity
      | reflexivity |].
    destruct Hformat as (fr & e & Hfr & He & _ & _ & _ & Ht & Hm & _);
      [reflexivity|].
    exists fr, e. by split_and!.
  - edestruct (regex_compile_failure_asymmetry (host := plain_host)
                 "TOKEN" (typed "abc"%string) bad_pattern "(") as [_ Hpattern];
      [reflexivity | reflexivity | vm_compute; reflexivity | reflexivity
      | reflexivity |].
    apply Hpattern. reflexivity.
Defined.

(** ** [validate] keeps no state *)

Section Statelessness.

Context {host : Host}.

Implicit Types (h : Imp.heap) (acc : Acc).

Lemma lookup_cells h acc :
  (h ++ cells acc) !! (length h + 0)%nat = Some (Imp.Errors (errors acc))
  ∧ (h ++ cells acc) !! (length h + 1)%nat = Some (Imp.Warnings (warnings acc))
  ∧ (h ++ cells acc) !! (length h + 2)%nat = Some (Imp.Parsed (parsed acc)).
Proof.
  split_and!; rewrite lookup_app_r by lia.
  - by replace (length h + 0 - length h)%nat with 0%nat by lia.
  - by replace (length h + 1 - length h)%nat with 1%nat by lia.
  - by replace (length h + 2 - length h)%nat with 2%nat by lia.
Qed.

Lemma read_cells h cells_ (env : nat) (e : Env) name :
  h !! env = Some (Imp.Environment e) →
  Imp.read env name (h ++ cells_) = Some (returned (env_get e name), h ++ cells_).
Proof. intros He. unfold Imp.read. by rewrite (lookup_app_l_Some _ _ _ _ He). Qed.

Lemma push_error_cells h acc e :
  Imp.push_error (length h + 0) e (h ++ cells acc)
  = Some (returned tt,
          h ++ cells {| errors := push (errors acc) e;
                        warnings := warnings acc; parsed := parsed acc |}).
Proof.
  unfold Imp.push_error. destruct (lookup_cells h acc) as (-> & _).
  by rewrite insert_app_r.
Qed.

Lemma push_warning_cells h acc w :
  Imp.push_warning (length h + 1) w (h ++ cells acc)
  = Some (returned tt,
          h ++ cells {| errors := errors acc;
                        warnings := push (warnings acc) w;
                        parsed := parsed acc |}).
Proof.
  unfold Imp.push_warning. destruct (lookup_cells h acc) as (_ & -> & _).
  by rewrite insert_app_r.
Qed.

Lemma assign_cells h acc name v :
  Imp.assign (length h + 2) name v (h ++ cells acc)
  = Some (returned tt,
          h ++ cells {| errors := errors acc; warnings := warnings acc;
                        parsed := store (parsed acc) name v |}).
Proof.
  unfold Imp.assign. destruct (lookup_cells h acc) as (_ & _ & ->).
  by rewrite insert_app_r.
Qed.

(** A turn of the first loop changes the three collections as [visit]
    says, and nothing else. *)
Lemma visit_run h (env : nat) (e : Env) acc entry :
  h !! env = Some (Imp.Environment e) →
  Imp.visit env (length h + 0) (length h + 1) (length h + 2) entry
    (h ++ cells acc)
  = Some (match visit e acc entry with
          | returned acc' => (returned tt, h ++ cells acc')
          | threw message => (threw message, h ++ cells acc)
          end).
Proof.
  intros He. destruct entry as [name spec].
  unfold Imp.visit, visit. cbn [fst snd].
  unfold mbind at 1, Imp.M_bind. rewrite (read_cells _ _ _ e) by done.
  unfold mbind at 1, Imp.M_bind, Imp.call.
  destruct (validateVariable name (env_get e name) spec) as [fr|m];
    cbn [mbind thrown_bind]; [|done].
  destruct fr as [[err|] [warn|] [value|]]; cbn [Imp.when push_opt
    FieldResult.error FieldResult.warning FieldResult.parsed];
    unfold mbind, Imp.M_bind, mret, Imp.M_ret;
    rewrite ?push_error_cells, ?push_warning_cells, ?assign_cells;
    try reflexivity; destruct acc; reflexivity.
Qed.

Lemma for_of_visit h (env : nat) (e : Env) vars acc :
  h !! env = Some (Imp.Environment e) →
  Imp.for_of vars
    (Imp.visit env (length h + 0) (length h + 1) (length h + 2))
    (h ++ cells acc)
  = Some (match each (visit e) vars acc with
          | returned _ => returned tt
          | threw message => threw message
          end,
          h ++ cells (reached e vars acc)).
Proof.
  intros He. revert acc. induction vars as [|entry vars IH]; intros acc.
  - reflexivity.
  - cbn [Imp.for_of each reached]. unfold mbind at 1, Imp.M_bind.
    rewrite (visit_run _ _ e) by done.
    destruct (visit e acc entry) as [acc'|m]; cbn [mbind thrown_bind];
      [apply IH|done].
Qed.

Lemma each_reached (e : Env) vars acc acc' :
  each (visit e) vars acc = returned acc' → reached e vars acc = acc'.
Proof.
  revert acc. induction vars as [|entry vars IH]; intros acc.
  - by intros [= <-].
  - cbn [each reached].
    destruct (visit e acc entry) as [acc1|m]; cbn [mbind thrown_bind]; [|done].
    apply IH.
Qed.

Lemma for_of_scan h ks (names : list string) acc :
  Imp.for_of names (Imp.scan ks (length h + 1)) (h ++ cells acc)
  = Some (returned tt, h ++ cells (fold_left (scan ks) names acc)).
Proof.
  revert acc. induction names as [|key names IH]; intros acc.
  - reflexivity.
  - cbn [Imp.for_of fold_left]. unfold mbind at 1, Imp.M_bind.
    unfold Imp.scan at 1, scan at 2.
    destruct (isSystemEnvVar key); [apply IH|].
    destruct (negb _); [|apply IH].
    rewrite push_warning_cells. apply IH.
Qed.

(** A call of [validate]: it adds three objects to the heap, changes
    nothing that was there, and returns or throws as the function
    [validate] of the values of its arguments. *)
Lemma validate_run h (schema env options : nat) s e o :
  h !! schema = Some (Imp.Schema s) →
  h !! env = Some (Imp.Environment e) →
  h !! options = Some (Imp.OptionsObject o) →
  ∃ acc,
    Imp.validate schema env options h
    = Some (match validate s e o with
            | returned r =>
                returned {| Imp.valid := ValidationResult.valid r;
                            Imp.errors := length h + 0;
                            Imp.warnings := length h + 1;
                            Imp.parsed := length h + 2 |}
            | threw message => threw message
            end,
            h ++ cells acc)
    ∧ ∀ r, validate s e o = returned r →
           errors acc = ValidationResult.errors r
           ∧ warnings acc = ValidationResult.warnings r
           ∧ parsed acc = ValidationResult.parsed r.
Proof.
  intros Hs He Ho.
  assert (∀ acc, Imp.entries schema (h ++ cells acc)
                 = Some (returned (EnvSchema.variables s), h ++ cells acc))
    as Hentries.
  { intros acc. unfold Imp.entries.
    by rewrite (lookup_app_l_Some _ _ _ _ Hs). }
  assert (∀ acc, Imp.strict options (h ++ cells acc)
                 = Some (returned (is_strict o), h ++ cells acc)) as Hstrict.
  { intros acc. unfold Imp.strict.
    by rewrite (lookup_app_l_Some _ _ _ _ Ho). }
  assert (∀ acc, Imp.env_keys env (h ++ cells acc)
                 = Some (returned (keys e), h ++ cells acc)) as Hkeys.
  { intros acc. unfold Imp.env_keys.
    by rewrite (lookup_app_l_Some _ _ _ _ He). }
  assert (∀ acc, Imp.error_count (length h + 0) (h ++ cells acc)
                 = Some (returned (length (errors acc)), h ++ cells acc))
    as Hcount.
  { intros acc. unfold Imp.error_count.
    by destruct (lookup_cells h acc) as (-> & _). }
  assert (Imp.validate schema env options h
          = (variables ← Imp.entries schema;
             Imp.for_of variables
               (Imp.visit env (length h + 0) (length h + 1) (length h + 2))
               ≫= λ _,
             strict_mode ← Imp.strict options;
             (if strict_mode : bool
              then Imp.strict_block schema env (length h + 1)
              else mret tt) ≫= λ _,
             count ← Imp.error_count (length h + 0);
             mret {| Imp.valid := Nat.eqb count 0;
                     Imp.errors := length h + 0;
                     Imp.warnings := length h + 1;
                     Imp.parsed := length h + 2 |}) (h ++ cells fresh))
    as ->.
  { unfold Imp.validate. unfold mbind at 1 2 3, Imp.M_bind, Imp.alloc.
    rewrite !length_app. simpl length.
    replace (length h + 1 + 1)%nat with (length h + 2)%nat by lia.
    rewrite Nat.add_0_r. rewrite <- !app_assoc. reflexivity. }
  unfold mbind at 1, Imp.M_bind. rewrite Hentries.
  unfold mbind at 1, Imp.M_bind. rewrite (for_of_visit _ _ e) by done.
  unfold validate.
  destruct (each (visit e) (EnvSchema.variables s) fresh) as [acc|m] eqn:Hv.
  - rewrite (each_reached _ _ _ _ Hv).
    unfold mbind at 1, Imp.M_bind. rewrite Hstrict.
    cbn [mbind thrown_bind].
    destruct (is_strict o).
    + exists (fold_left (scan (list_to_set (keys (EnvSchema.variables s))))
                (keys e) acc).
      unfold mbind at 1, Imp.M_bind. unfold Imp.strict_block.
      unfold mbind at 1, Imp.M_bind. rewrite Hentries.
      unfold mbind at 1, Imp.M_bind. rewrite Hkeys.
      rewrite for_of_scan.
      unfold mbind at 1, Imp.M_bind. rewrite Hcount.
      split; [reflexivity|]. by intros r [= <-].
    + exists acc.
      unfold mbind at 1, Imp.M_bind. unfold mret at 1, Imp.M_ret.
      unfold mbind at 1, Imp.M_bind. rewrite Hcount.
      split; [reflexivity|]. by intros r [= <-].
  - exists (reached e (EnvSchema.variables s) fresh).
    cbn [mbind thrown_bind]. split; [reflexivity|]. done.
Qed.

(** C9. [validate] keeps no state. A call adds objects to the heap (the
    collections that it creates) and changes no object that was there:
    not its arguments, nor the result of an earlier call. What it
    returns is decided by the values of its arguments: two calls, from
    any two heaps (such as the heap before and the heap after the first
    call), on schemas, environments and options that are equal as
    values, both return or both throw the same; where they return,
    the results have the same validity and their collections hold the
    same errors, warnings and parsed values, in the same order: those
    of the function [validate] of the values. *)
Theorem validate_deterministic h1 h2
    (schema1 env1 options1 schema2 env2 options2 : nat) s1 e1 o1 s2 e2 o2 :
  h1 !! schema1 = Some (Imp.Schema s1) →
  h1 !! env1 = Some (Imp.Environment e1) →
  h1 !! options1 = Some (Imp.OptionsObject o1) →
  h2 !! schema2 = Some (Imp.Schema s2) →
  h2 !! env2 = Some (Imp.Environment e2) →
  h2 !! options2 = Some (Imp.OptionsObject o2) →
  s1 = s2 → e1 = e2 → o1 = o2 →
  ∃ out1 h1' out2 h2',
    Imp.validate schema1 env1 options1 h1 = Some (out1, h1')
    ∧ Imp.validate schema2 env2 options2 h2 = Some (out2, h2')
    ∧ extends h1 h1'
    ∧ extends h2 h2'
    ∧ match out1, out2 with
      | returned result1, returned result2 =>
          ∃ r, validate s1 e1 o1 = returned r
               ∧ Imp.contents h1' result1 = Some r
               ∧ Imp.contents h2' result2 = Some r
               ∧ ∀ h, extends h1' h → Imp.contents h result1 = Some r
      | threw message1, threw message2 =>
          message1 = message2 ∧ validate s1 e1 o1 = threw message1
      | _, _ => False
      end.
Proof.
  intros Hs1 He1 Ho1 Hs2 He2 Ho2 <- <- <-.
  destruct (validate_run h1 _ _ _ _ _ _ Hs1 He1 Ho1) as (acc1 & Hrun1 & Hacc1).
  destruct (validate_run h2 _ _ _ _ _ _ Hs2 He2 Ho2) as (acc2 & Hrun2 & Hacc2).
  do 4 eexists. split; [exact Hrun1|]. split; [exact Hrun2|].
  split; [by eexists|]. split; [by eexists|].
  destruct (validate s1 e1 o1) as [r|m] eqn:Hr; [|done].
  destruct (Hacc1 r eq_refl) as (E1 & W1 & P1).
  destruct (Hacc2 r eq_refl) as (E2 & W2 & P2).
  exists r. split; [done|].
  assert (∀ h acc added,
            errors acc = ValidationResult.errors r →
            warnings acc = ValidationResult.warnings r →
            parsed acc = ValidationResult.parsed r →
            Imp.contents ((h ++ cells acc) ++ added)
              {| Imp.valid := ValidationResult.valid r;
                 Imp.errors := length h + 0; Imp.warnings := length h + 1;
                 Imp.parsed := length h + 2 |} = Some r) as Hcontents.
  { intros h acc added E W P. unfold Imp.contents. cbn.
    destruct (lookup_cells h acc) as (L1 & L2 & L3).
    rewrite (lookup_app_l_Some _ _ _ _ L1), (lookup_app_l_Some _ _ _ _ L2),
      (lookup_app_l_Some _ _ _ _ L3), E, W, P.
    by destruct r. }
  split_and!.
  - rewrite <- (app_nil_r (h1 ++ cells acc1)). by apply Hcontents.
  - rewrite <- (app_nil_r (h2 ++ cells acc2)). by apply Hcontents.
  - intros h [added ->]. by apply Hcontents.
Qed.

End Statelessness.

Lemma validate_deterministic_witness :
  let h := [Imp.Schema database_schema; Imp.Environment extra_env;
            Imp.OptionsObject strict_on] in
  ∃ result1 h1 result2 h2,
    Imp.validate (host := plain_host) 0 1 2 h = Some (returned result1, h1)
    ∧ Imp.validate (host := plain_host) 0 1 2 h1 = Some (returned result2, h2)
    ∧ take 3 h2 = h
    ∧ Imp.contents h2 result1 = Imp.contents h2 result2
    ∧ ValidationResult.warnings <$> Imp.contents h2 result2
      = Some [unused_warning "EXTRA"].
Proof.
  intros h.
  assert (∃ result1 h1, Imp.validate (host := plain_host) 0 1 2 h
                        = Some (returned result1, h1)) as (result1 & h1 & H1).
  { do 2 eexists. vm_compute. reflexivity. }
  assert (∃ added, h1 = h ++ added) as [added Hh1].
  { eexists. vm_compute in H1. injection H1 as _ <-. reflexivity. }
  destruct (validate_deterministic (host := plain_host) h h1 0 1 2 0 1 2
              database_schema extra_env strict_on
              database_schema extra_env strict_on)
    as (out1 & h1' & out2 & h2 & Hrun1 & Hrun2 & _ & [added2 Hh2] & Hsame);
    try reflexivity; try (rewrite Hh1; reflexivity).
  rewrite H1 in Hrun1. injection Hrun1 as <- <-.
  destruct out2 as [result2|m]; [|done].
  destruct Hsame as (r & Hr & _ & Hc2 & Hc1).
  exists result1, h1, result2, h2. split_and!; [done|done| | |].
  - rewrite Hh2, Hh1. reflexivity.
  - rewrite Hc2. apply Hc1. by exists added2.
  - rewrite Hc2. vm_compute in Hr. injection Hr as <-. reflexivity.
Defined.

(** ** Further properties of the validator *)

Section Numbers.

(** Comparison of doubles the other way round. *)
Lemma SFcompare_antisym (a b : spec_float) :
  SFcompare b a = CompOpp <$> SFcompare a b.
Proof.
  destruct a as [[]|[]| |[] ma ea], b as [[]|[]| |[] mb eb]; simpl; try done.
  - rewrite (Z.compare_antisym ea eb).
    destruct (ea ?= eb)%Z; simpl; try done.
    by rewrite (Pos.compare_cont_antisym ma mb Eq).
  - rewrite (Z.compare_antisym ea eb).
    destruct (ea ?= eb)%Z; simpl; try done.
    by rewrite (Pos.compare_cont_antisym ma mb Eq).
Qed.

(** Of two numbers, neither NaN: not [a < b] is [a >= b]. *)
Lemma not_lt_ge (a b : JS.number) :
  JS.isNaN a = false → JS.isNaN b = false →
  JS.lt a b = false → JS.ge a b = true.
Proof.
  intros Ha Hb. unfold JS.lt, JS.ge, SFltb, SFleb.
  rewrite (SFcompare_antisym a b).
  destruct (SFcompare a b) as [[]|] eqn:Hc; simpl; try done.
  destruct a, b; try done; simpl in Hc; repeat case_match; done.
Qed.

Lemma not_gt_le (a b : JS.number) :
  JS.isNaN a = false → JS.isNaN b = false →
  JS.gt a b = false → JS.le a b = true.
Proof. intros Ha Hb. apply (not_lt_ge b a); done. Qed.

(** Rounding an integer never gives NaN. *)
Lemma iter_shr_1_nonneg (p : positive) (mrs : shr_record) :
  (0 <= shr_m mrs)%Z → (0 <= shr_m (SpecFloat.iter_pos shr_1 p mrs))%Z.
Proof.
  assert (∀ r, (0 <= shr_m r)%Z → (0 <= shr_m (shr_1 r))%Z) as Hstep.
  { intros [m r s] Hm. simpl in *. destruct m as [|[q|q|]|q]; simpl; lia. }
  revert mrs. induction p as [p IH|p IH|]; intros mrs Hm; simpl; auto.
Qed.

Lemma shr_fexp_nonneg (m e : Z) (l : location) :
  (0 <= m)%Z → (0 <= shr_m (fst (shr_fexp JS.prec JS.emax m e l)))%Z.
Proof.
  intros Hm. unfold shr_fexp, shr.
  assert (0 <= shr_m (shr_record_of_loc m l))%Z as H0.
  { by destruct l as [|[]]. }
  destruct (_ - e)%Z; simpl; [done| |done].
  by apply iter_shr_1_nonneg.
Qed.

Lemma binary_round_aux_not_nan (sx : bool) (mx ex : Z) (lx : location) :
  (0 <= mx)%Z →
  JS.isNaN (binary_round_aux JS.prec JS.emax sx mx ex lx) = false.
Proof.
  intros Hm. unfold binary_round_aux.
  pose proof (shr_fexp_nonneg mx ex lx Hm) as H1.
  destruct (shr_fexp JS.prec JS.emax mx ex lx) as [mrs' e']. simpl in H1.
  assert (0 <= round_nearest_even (shr_m mrs') (loc_of_shr_record mrs'))%Z
    as H2.
  { unfold round_nearest_even.
    destruct (loc_of_shr_record mrs') as [|[]]; try done; [|lia].
    destruct (Z.even _); lia. }
  pose proof (shr_fexp_nonneg _ e' loc_Exact H2) as H3.
  destruct (shr_fexp JS.prec JS.emax _ e' loc_Exact) as [mrs'' e''].
  simpl in H3. destruct (shr_m mrs''); [done| |lia].
  by destruct (_ <=? _)%Z.
Qed.

Lemma of_Z_not_nan (z : Z) : JS.isNaN (JS.of_Z z) = false.
Proof.
  unfold JS.of_Z, binary_normalize.
  destruct z as [|p|p]; [done| |]; unfold binary_round;
    destruct (shl_align _ _ _); by apply binary_round_aux_not_nan.
Qed.

End Numbers.

Section Acceptance.

Context {host : Host}.

(** A present raw value gets a parsed value only past coercion and all
    the checks. *)
Lemma validateVariable_accepted name (v : actual string) spec fr x :
  is_empty v = false →
  validateVariable name (Some v) spec = returned fr →
  FieldResult.parsed fr = Some x →
  ∃ coerced,
    coerceValue v (VariableSpec.type spec) = returned coerced
    ∧ Coerced.success coerced = true
    ∧ x = Coerced.value coerced
    ∧ check_enum name v spec = None
    ∧ check_format name v spec = returned None
    ∧ check_range name coerced spec = None
    ∧ check_length name coerced spec = None
    ∧ check_pattern name v spec = None.
Proof.
  intros Hv. rewrite validateVariable_present by done.
  destruct (coerceValue v _) as [coerced|m]; cbn [mbind thrown_bind]; [|done].
  destruct (Coerced.success coerced) eqn:Hc; cbn [negb];
    [|by intros [= <-]].
  unfold checks. rewrite first_error_cons_returned.
  destruct (check_enum _ _ _); [by intros [= <-]|].
  destruct (check_format _ _ _) as [[e2|]|m];
    cbn [first_error mbind thrown_bind]; [by intros [= <-]| |done].
  destruct (check_range _ _ _) eqn:H3; cbn [first_error mbind thrown_bind];
    [by intros [= <-]|].
  destruct (check_length _ _ _) eqn:H4; cbn [first_error mbind thrown_bind];
    [by intros [= <-]|].
  destruct (check_pattern _ _ _); cbn [first_error mbind thrown_bind];
    [by intros [= <-]|].
  intros [= <-] [= <-]. exists coerced. by split_and!.
Qed.

Lemma includes_app (xs ys : list string) (x : string) :
  JS.includes (xs ++ ys) x = JS.includes xs x || JS.includes ys x.
Proof. unfold JS.includes. apply existsb_app. Qed.

Lemma lower_char_idempotent (c : ascii) :
  JS.lower_char (JS.lower_char c) = JS.lower_char c.
Proof. destruct c as [[] [] [] [] [] [] [] []]; reflexivity. Qed.

Lemma toLowerCase_idempotent (s : string) :
  JS.toLowerCase (JS.toLowerCase s) = JS.toLowerCase s.
Proof.
  induction s as [|c s IH]; simpl; [done|].
  by rewrite lower_char_idempotent, IH.
Qed.

Lemma coerce_boolean_spec (u lower : string) :
  JS.toLowerCase u = lower →
  ∃ coerced,
    coerceValue (typed u) type_boolean = returned coerced
    ∧ Coerced.success coerced
      = JS.includes (true_tokens ++ false_tokens) lower
    ∧ (Coerced.success coerced = true →
       Coerced.value coerced
       = typed (VBoolean (JS.includes true_tokens lower))).
Proof.
  intros Hu. rewrite includes_app. unfold coerceValue. rewrite Hu.
  change (JS.includes ["true"; "1"; "yes"; "on"]%string lower)
    with (JS.includes true_tokens lower).
  change (JS.includes ["false"; "0"; "no"; "off"]%string lower)
    with (JS.includes false_tokens lower).
  destruct (JS.includes true_tokens lower); [by eexists|].
  destruct (JS.includes false_tokens lower); by eexists.
Qed.

(** X1. Boolean coercion of a string returns, and reads the string in
    lower case only: it succeeds exactly when that is one of true, 1,
    yes, on, false, 0, no and off, with the value true for the first
    four and false for the others; so strings that are equal in lower
    case, among them a string and its lower-case form, succeed alike
    and give the same boolean. *)
Theorem boolean_coercion_ignores_case (v : string) :
  let lower := JS.toLowerCase v in
  ∃ coerced,
    coerceValue (typed v) type_boolean = returned coerced
    ∧ Coerced.success coerced
      = JS.includes (true_tokens ++ false_tokens) lower
    ∧ (Coerced.success coerced = true →
       Coerced.value coerced
       = typed (VBoolean (JS.includes true_tokens lower)))
    ∧ (∀ v', JS.toLowerCase v' = lower →
         ∃ coerced',
           coerceValue (typed v') type_boolean = returned coerced'
           ∧ Coerced.success coerced' = Coerced.success coerced
           ∧ (Coerced.success coerced = true →
              Coerced.value coerced' = Coerced.value coerced))
    ∧ (∃ coerced',
         coerceValue (typed lower) type_boolean = returned coerced'
         ∧ Coerced.success coerced' = Coerced.success coerced).
Proof.
  intros lower.
  destruct (coerce_boolean_spec v lower eq_refl) as (c & Hc & Hs & Hv).
  exists c. split_and!; [done|done|done| |].
  - intros v' Hv'.
    destruct (coerce_boolean_spec v' lower Hv') as (c' & Hc' & Hs' & Hv'').
    exists c'. split_and!; [done|congruence|].
    intros Ht. rewrite Hv, Hv''; congruence.
  - destruct (coerce_boolean_spec lower lower (toLowerCase_idempotent v))
      as (c' & Hc' & Hs' & _).
    exists c'. split; [done|congruence].
Qed.

(** X2. The parsed value that a result of [validate] records for a
    declared variable whose raw value is present has the declared
    type: the raw string itself for a string, the number that the
    string parses to, which is not NaN, for a number, and for a boolean
    true or false as the lower-case value is one of true, 1, yes and on
    or not. *)
Theorem parsed_value_has_declared_type schema env options r name spec v x :
  validate schema env options = returned r →
  NoDup (keys (EnvSchema.variables schema)) →
  (name, spec) ∈ EnvSchema.variables schema →
  env_get env name = Some (typed v) →
  v ≠ EmptyString →
  ValidationResult.parsed r !! name = Some x →
  match VariableSpec.type spec with
  | type_string => x = typed (VString v)
  | type_number =>
      x = typed (VNumber (JS.Number v)) ∧ JS.isNaN (JS.Number v) = false
  | type_boolean =>
      x = typed (VBoolean (JS.includes true_tokens (JS.toLowerCase v)))
  end.
Proof.
  intros Hr Hnd Hin Hget Hv.
  destruct (validate_parsed _ _ _ _ _ _ Hr Hnd Hin) as (fr & Hfr & ->).
  unfold field in Hfr. simpl in Hfr. rewrite Hget in Hfr.
  unfold kept. destruct (String.eqb name _); [done|]. intros Hx.
  apply (validateVariable_accepted _ _ _ _ x) in Hfr
    as (coerced & Hc & Hs & -> & _); [|by apply is_empty_typed|done].
  destruct (VariableSpec.type spec).
  - by injection Hc as <-.
  - destruct (JS.isNaN (JS.Number v)) eqn:Hnan.
    + rewrite coerce_number_nan in Hc by done. by injection Hc as <-.
    + rewrite coerce_number_value in Hc by done. by injection Hc as <-.
  - destruct (coerce_boolean_spec v _ eq_refl) as (c & Hc' & _ & Hval).
    rewrite Hc in Hc'. injection Hc' as <-. by apply Hval.
Qed.

(** X3. A number that the field validator accepts lies within the
    declared bounds: it is not below [min] nor above [max], and, the
    bound not being NaN, it is at least [min] and at most [max]. *)
Theorem accepted_number_within_bounds name v spec fr x :
  v ≠ EmptyString →
  VariableSpec.type spec = type_number →
  validateVariable name (Some (typed v)) spec = returned fr →
  FieldResult.parsed fr = Some x →
  let n := JS.Number v in
  x = typed (VNumber n)
  ∧ JS.isNaN n = false
  ∧ (∀ lo, VariableSpec.min spec = Some lo →
       JS.lt n lo = false ∧ (JS.isNaN lo = false → JS.ge n lo = true))
  ∧ (∀ hi, VariableSpec.max spec = Some hi →
       JS.gt n hi = false ∧ (JS.isNaN hi = false → JS.le n hi = true)).
Proof.
  intros Hv Ht Hfr Hx n.
  apply (validateVariable_accepted _ _ _ _ x) in Hfr
    as (coerced & Hc & Hs & -> & _ & _ & Hr & _);
    [|by apply is_empty_typed|done].
  rewrite Ht in Hc.
  assert (JS.isNaN n = false ∧ Coerced.value coerced = typed (VNumber n))
    as [Hnan Hval].
  { destruct (JS.isNaN (JS.Number v)) eqn:Hnan.
    - rewrite coerce_number_nan in Hc by done. by injection Hc as <-.
    - rewrite coerce_number_value in Hc by done. by injection Hc as <-. }
  unfold check_range in Hr. rewrite Ht, Hval in Hr. simpl in Hr.
  split_and!; [done|done| |].
  - intros lo Hlo. rewrite Hlo in Hr.
    destruct (JS.lt n lo) eqn:Hlt; [done|].
    split; [done|]. intros Hnanlo. by apply not_lt_ge.
  - intros hi Hhi. rewrite Hhi in Hr.
    assert (JS.gt n hi = false) as Hgt.
    { destruct (VariableSpec.min spec) as [lo|];
        [destruct (JS.lt n lo); [done|]|];
        by destruct (JS.gt n hi). }
    split; [done|]. intros Hnanhi. by apply not_gt_le.
Qed.

(** X4. A string that the field validator accepts has a length within
    the declared bounds: not below [minLength] nor above [maxLength],
    and, the bound not being NaN, at least the one and at most the
    other. *)
Theorem accepted_string_within_lengths name v spec fr x :
  v ≠ EmptyString →
  VariableSpec.type spec = type_string →
  validateVariable name (Some (typed v)) spec = returned fr →
  FieldResult.parsed fr = Some x →
  let len := JS.of_nat (String.length v) in
  x = typed (VString v)
  ∧ (∀ lo, VariableSpec.minLength spec = Some lo →
       JS.lt len lo = false ∧ (JS.isNaN lo = false → JS.ge len lo = true))
  ∧ (∀ hi, VariableSpec.maxLength spec = Some hi →
       JS.gt len hi = false ∧ (JS.isNaN hi = false → JS.le len hi = true)).
Proof.
  intros Hv Ht Hfr Hx len.
  apply (validateVariable_accepted _ _ _ _ x) in Hfr
    as (coerced & Hc & Hs & -> & _ & _ & _ & Hl & _);
    [|by apply is_empty_typed|done].
  rewrite Ht in Hc. injection Hc as <-.
  unfold check_length in Hl. rewrite Ht in Hl.
  simpl in Hl. fold len in Hl.
  assert (JS.isNaN len = false) as Hlen.
  { apply of_Z_not_nan. }
  split_and!; [done| |].
  - intros lo Hlo. rewrite Hlo in Hl.
    destruct (JS.lt len lo) eqn:Hlt; [done|].
    split; [done|]. intros Hnan. by apply not_lt_ge.
  - intros hi Hhi. rewrite Hhi in Hl.
    assert (JS.gt len hi = false) as Hgt.
    { destruct (VariableSpec.minLength spec) as [lo|];
        [destruct (JS.lt len lo); [done|]|];
        by destruct (JS.gt len hi). }
    split; [done|]. intros Hnan. by apply not_gt_le.
Qed.

End Acceptance.

Lemma parsed_value_has_declared_type_witness :
  let env : Env := [ ("API_KEY"%string, Some "k"%string);
                     ("DEBUG"%string, Some "Yes"%string) ] in
  ∃ r, validate (host := plain_host) two_variables env Options.none = returned r
       ∧ "Yes"%string ≠ EmptyString
       ∧ ValidationResult.parsed r !! "DEBUG"%string
         = Some (typed (VBoolean true))
       ∧ typed (VBoolean true)
         = typed (A := Value)
             (VBoolean (JS.includes true_tokens (JS.toLowerCase "Yes"))).
Proof.
  intros env. eexists. split; [vm_compute; reflexivity|].
  split; [discriminate|]. split; [vm_compute; reflexivity|].
  eapply (parsed_value_has_declared_type (host := plain_host)
            two_variables env Options.none _ "DEBUG"
            (field_spec type_boolean false) "Yes" (typed (VBoolean true))
            eq_refl).
  - apply (bool_decide_unpack _). vm_compute. reflexivity.
  - apply list_elem_of_further, list_elem_of_here.
  - reflexivity.
  - discriminate.
  - vm_compute. reflexivity.
Defined.

Lemma accepted_number_within_bounds_witness :
  ∃ fr, validateVariable (host := plain_host) "RETRY_COUNT"
          (Some (typed "5"%string)) bounded_retry = returned fr
        ∧ FieldResult.parsed fr = Some (typed (VNumber (JS.of_Z 5)))
        ∧ JS.ge (JS.Number "5") (JS.of_Z 1) = true
        ∧ JS.le (JS.Number "5") (JS.of_Z 10) = true.
Proof.
  eexists. split; [vm_compute; reflexivity|].
  match goal with |- FieldResult.parsed ?fr = _ ∧ _ =>
    destruct (accepted_number_within_bounds (host := plain_host)
                "RETRY_COUNT" "5" bounded_retry fr
                (typed (VNumber (JS.of_Z 5))))
      as (_ & _ & Hlo & Hhi);
      [discriminate|reflexivity|vm_compute; reflexivity
      |vm_compute; reflexivity|]
  end.
  split; [vm_compute; reflexivity|].
  split.
  - apply (Hlo (JS.of_Z 1)); reflexivity.
  - apply (Hhi (JS.of_Z 10)); reflexivity.
Defined.

Lemma accepted_string_within_lengths_witness :
  ∃ fr, validateVariable (host := plain_host) "API_KEY"
          (Some (typed "abcdef"%string)) bounded_key = returned fr
        ∧ FieldResult.parsed fr = Some (typed (VString "abcdef"))
        ∧ JS.ge (JS.of_nat (String.length "abcdef")) (JS.of_Z 3) = true
        ∧ JS.le (JS.of_nat (String.length "abcdef")) (JS.of_Z 50) = true.
Proof.
  eexists. split; [vm_compute; reflexivity|].
  match goal with |- FieldResult.parsed ?fr = _ ∧ _ =>
    destruct (accepted_string_within_lengths (host := plain_host)
                "API_KEY" "abcdef" bounded_key fr (typed (VString "abcdef")))
      as (_ & Hlo & Hhi);
      [discriminate|reflexivity|vm_compute; reflexivity
      |vm_compute; reflexivity|]
  end.
  split; [vm_compute; reflexivity|].
  split.
  - apply (Hlo (JS.of_Z 3)); reflexivity.
  - apply (Hhi (JS.of_Z 50)); reflexivity.
Defined.

Section Irrelevance.

Context {host : Host}.

(** X5. [min] and [max] count for numbers only and [minLength] and
    [maxLength] for strings only: on a variable of another type the
    field validator answers the same whatever these bounds are, and a
    boolean never gets an [invalid_range] error. *)
Theorem bounds_of_other_types_are_ignored name value spec :
  (VariableSpec.type spec ≠ type_number →
   ∀ lo hi, validateVariable name value (with_min_max lo hi spec)
            = validateVariable name value spec)
  ∧ (VariableSpec.type spec ≠ type_string →
     ∀ lo hi, validateVariable name value (with_lengths lo hi spec)
              = validateVariable name value spec)
  ∧ (VariableSpec.type spec = type_boolean →
     ∀ fr e, validateVariable name value spec = returned fr →
             FieldResult.error fr = Some e →
             ValidationError.type e ≠ invalid_range).
Proof.
  split_and!.
  - intros Ht lo hi. destruct spec as [[] ? ? ? ? ? ? ? ? ? ?]; done.
  - intros Ht lo hi. destruct spec as [[] ? ? ? ? ? ? ? ? ? ?]; done.
  - intros Ht fr e. unfold validateVariable.
    assert (∀ e, FieldResult.error (presence name spec) = Some e →
                 ValidationError.type e ≠ invalid_range) as Hpres.
    { intros e'. unfold presence.
      destruct (VariableSpec.required spec), (VariableSpec.default spec);
        simpl; try done. by intros [= <-]. }
    destruct value as [v|]; [|intros [= <-]; apply Hpres].
    destruct (is_empty v); [intros [= <-]; apply Hpres|].
    destruct (coerceValue v _) as [coerced|m]; cbn [mbind thrown_bind];
      [|done].
    destruct (negb (Coerced.success _)); [by intros [= <-] [= <-]|].
    unfold checks. rewrite first_error_cons_returned.
    unfold check_range, check_length. rewrite Ht.
    destruct (check_enum _ _ _) eqn:H1.
    { intros [= <-] [= <-]. by apply check_enum_inv in H1 as [_ ->]. }
    destruct (check_format _ _ _) as [[e2|]|m] eqn:H2;
      cbn [first_error mbind thrown_bind]; [| |done].
    { intros [= <-] [= <-]. by apply check_format_inv in H2 as [_ ->]. }
    destruct (check_pattern _ _ _) eqn:H5;
      cbn [first_error mbind thrown_bind]; [|by intros [= <-]].
    intros [= <-] [= <-]. by apply check_pattern_inv in H5 as [_ ->].
Qed.

Lemma find_key_absent {A : Type} (table : list (string * A)) (k : string) :
  k ∉ map fst table →
  List.find (λ kv, String.eqb (fst kv) k) table = None.
Proof.
  induction table as [|[k' x] table IH]; intros Hk; [done|].
  simpl in *. apply not_elem_of_cons in Hk as [Hne Hk].
  destruct (String.eqb_spec k' k) as [->|_]; [done|]. by apply IH.
Qed.

(** A name that is no own key of the table is looked up in what the
    table inherits. *)
Lemma formatValidator_inherited (fmt : string) :
  fmt ∉ format_names →
  formatValidator fmt = inherited_validator <$> Proto.find fmt.
Proof.
  intros Hn. unfold formatValidator.
  by rewrite find_key_absent.
Qed.

Lemma formatValidator_unknown (fmt : string) :
  fmt ∉ format_names → Proto.find fmt = None → formatValidator fmt = None.
Proof. intros Hn Hp. by rewrite formatValidator_inherited, Hp. Qed.

(** X6. A format that is none of the eleven names of the table, does
    not begin with [regex:] and is not the name of a member of
    [Object.prototype] is no check at all: the field validator answers
    as for the spec without a format. The empty format is one of
    these. A name of [Object.prototype] is a check, by the member that
    the table inherits: [isPrototypeOf] refuses every string, and
    [hasOwnProperty] throws on every value. *)
Theorem unknown_format_is_ignored name value spec fmt :
  fmt ∉ format_names →
  Proto.find fmt = None →
  JS.startsWith fmt "regex:" = false →
  validateVariable name value (with_format (Some fmt) spec)
  = validateVariable name value (with_format None spec)
  ∧ validateVariable name value (with_format (Some EmptyString) spec)
    = validateVariable name value (with_format None spec)
  ∧ (∀ s, check_format name (typed s)
            (with_format (Some "isPrototypeOf"%string) spec)
          = returned
              (Some {| ValidationError.variable := name;
                       ValidationError.message := "Invalid isPrototypeOf format";
                       ValidationError.type := invalid_format;
                       ValidationError.expected := Some "isPrototypeOf"%string;
                       ValidationError.received := Some (typed s) |}))
  ∧ (∀ v, check_format name v
            (with_format (Some "hasOwnProperty"%string) spec)
          = threw (TypeError (no_receiver Proto.hasOwnProperty))).
Proof.
  intros Hn Hp Hr.
  assert (∀ v, check_format name v (with_format (Some fmt) spec)
               = returned None) as Hfmt.
  { intros v. unfold check_format. simpl. rewrite Hr.
    rewrite formatValidator_unknown by done. by destruct (negb _). }
  split_and!.
  - unfold validateVariable. destruct value as [v|]; [|done].
    destruct (is_empty v); [done|]. cbn [VariableSpec.type with_format].
    destruct (coerceValue v _) as [coerced|m]; cbn [mbind thrown_bind];
      [|done].
    destruct (negb (Coerced.success _)); [done|].
    unfold checks. by rewrite Hfmt.
  - done.
  - done.
  - done.
Qed.

End Irrelevance.

Lemma unknown_format_is_ignored_witness :
("ipv4"%string ∉ format_names)
  ∧ Proto.find "ipv4" = None
  ∧ validateVariable (host := plain_host) "HOST"
      (Some (typed "not an address"%string))
      (with_format (Some "ipv4"%string) (field_spec type_string true))
    = validateVariable (host := plain_host) "HOST"
        (Some (typed "not an address"%string))
        (with_format None (field_spec type_string true)).
Proof.
  assert ("ipv4"%string ∉ format_names) as Hn.
  { apply (bool_decide_unpack _). vm_compute. reflexivity. }
  split; [exact Hn|]. split; [reflexivity|].
  apply (unknown_format_is_ignored (host := plain_host) "HOST"
           (Some (typed "not an address"%string)) (field_spec type_string true)
           "ipv4" Hn); reflexivity.
Defined.

Section Results.

Context {host : Host}.

Lemma omap_keys_sublist {A B : Type} (f : string * A → option B)
    (key : B → string) (vars : list (string * A)) :
  (∀ n x b, f (n, x) = Some b → key b = n) →
  map key (omap f vars) `sublist_of` keys vars.
Proof.
  intros Hf. induction vars as [|[n x] vars IH]; simpl; [done|].
  destruct (f (n, x)) as [b|] eqn:Hb; simpl.
  - rewrite (Hf _ _ _ Hb). by apply sublist_skip.
  - by apply sublist_cons.
Qed.

(** X7. The errors of a result come in the order in which the schema
    declares the variables, and so do the warnings without strict mode:
    their variables are a subsequence of the schema's keys. There are
    then no more errors, and no more warnings, than variables. *)
Theorem errors_follow_declaration_order schema env options r :
  validate schema env options = returned r →
  map ValidationError.variable (ValidationResult.errors r)
    `sublist_of` keys (EnvSchema.variables schema)
  ∧ (length (ValidationResult.errors r)
     ≤ length (EnvSchema.variables schema))%nat
  ∧ (is_strict options = false →
     map ValidationWarning.variable (ValidationResult.warnings r)
       `sublist_of` keys (EnvSchema.variables schema)
     ∧ (length (ValidationResult.warnings r)
        ≤ length (EnvSchema.variables schema))%nat).
Proof.
  intros Hr.
  assert (map ValidationError.variable (ValidationResult.errors r)
            `sublist_of` keys (EnvSchema.variables schema)) as He.
  { rewrite (validate_errors _ _ _ _ Hr).
    apply omap_keys_sublist. apply field_error_variable. }
  split_and!; [done| |].
  - apply sublist_length in He. unfold keys in He.
    by rewrite !length_map in He.
  - intros Hs.
    assert (map ValidationWarning.variable (ValidationResult.warnings r)
              `sublist_of` keys (EnvSchema.variables schema)) as Hw.
    { rewrite (validate_warnings _ _ _ _ Hr), Hs, app_nil_r.
      apply omap_keys_sublist.
      by intros ??? [??]%field_warning_inv. }
    split; [done|]. apply sublist_length in Hw. unfold keys in Hw.
    by rewrite !length_map in Hw.
Qed.

Lemma validate_parsed_undeclared schema env options r name :
  validate schema env options = returned r →
  name ∉ keys (EnvSchema.variables schema) →
  ValidationResult.parsed r !! name = None.
Proof.
  intros (acc & Hacc & _ & _ & _ & ->)%validate_returned Hn.
  by rewrite (visit_parsed_other _ _ _ _ _ Hacc).
Qed.

Lemma validate_parsed_proto schema env options r :
  validate schema env options = returned r →
  ValidationResult.parsed r !! "__proto__" = None.
Proof.
  intros (acc & Hacc & _ & _ & _ & ->)%validate_returned.
  by apply (visit_parsed_proto _ _ _ _ Hacc).
Qed.

(** X8. A result speaks of declared variables only, apart from the
    [unused] warnings: every key of the parsed mapping and the variable
    of every error is a key of the schema, whatever else the
    environment holds. No result has the key [__proto__] in its parsed
    mapping. *)
Theorem result_names_declared_variables schema env options r :
  validate schema env options = returned r →
  (∀ name x, ValidationResult.parsed r !! name = Some x →
             name ∈ keys (EnvSchema.variables schema))
  ∧ (∀ e, e ∈ ValidationResult.errors r →
          ValidationError.variable e ∈ keys (EnvSchema.variables schema))
  ∧ (∀ w, w ∈ ValidationResult.warnings r →
          ValidationWarning.type w ≠ unused →
          ValidationWarning.variable w ∈ keys (EnvSchema.variables schema))
  ∧ ValidationResult.parsed r !! "__proto__" = None.
Proof.
  intros Hr. split_and!.
  - intros name x Hx.
    destruct (decide (name ∈ keys (EnvSchema.variables schema))); [done|].
    by rewrite (validate_parsed_undeclared _ _ _ _ _ Hr) in Hx.
  - intros e He. rewrite (validate_errors _ _ _ _ Hr) in He.
    apply list_elem_of_omap in He as ([n s] & Hin & Hf).
    apply field_error_variable in Hf as ->.
    by apply (list_elem_of_fmap_2 fst) in Hin.
  - intros w Hw Hty. rewrite (validate_warnings _ _ _ _ Hr) in Hw.
    apply elem_of_app in Hw as [Hw|Hw].
    + apply list_elem_of_omap in Hw as ([n s] & Hin & Hf).
      apply field_warning_inv in Hf as [-> _].
      by apply (list_elem_of_fmap_2 fst) in Hin.
    + destruct (is_strict options); [|by apply elem_of_nil in Hw].
      apply list_elem_of_fmap in Hw as (k & -> & _). done.
  - by apply (validate_parsed_proto _ _ _ _ Hr).
Qed.

(** The options decide neither whether [validate] returns nor what it
    returns as errors and parsed values. *)
Lemma validate_options schema env options options' r :
  validate schema env options = returned r →
  ∃ r', validate schema env options' = returned r'
        ∧ ValidationResult.errors r' = ValidationResult.errors r
        ∧ ValidationResult.parsed r' = ValidationResult.parsed r
        ∧ ValidationResult.valid r' = ValidationResult.valid r.
Proof.
  intros Hr.
  destruct (proj1 (validate_returns schema env options')) as [r' Hr'].
  { apply (validate_returns schema env options). by exists r. }
  exists r'. split; [done|].
  rewrite (validate_valid _ _ _ _ Hr), (validate_valid _ _ _ _ Hr').
  rewrite (validate_errors _ _ _ _ Hr), (validate_errors _ _ _ _ Hr').
  split_and!; [done| |done].
  apply validate_returned in Hr as (acc & Hacc & _ & _ & _ & ->).
  apply validate_returned in Hr' as (acc' & Hacc' & _ & _ & _ & ->).
  congruence.
Qed.

(** X9. Strict mode adds [unused] warnings and nothing else: where
    [validate] returns without it, it returns with it, with the same
    errors, the same parsed mapping and the same validity, and its
    warnings are those without it followed by warnings that are all of
    kind [unused]. *)
Theorem strict_only_adds_unused_warnings schema env options options' r :
  is_strict options = false →
  is_strict options' = true →
  validate schema env options = returned r →
  ∃ r', validate schema env options' = returned r'
        ∧ ValidationResult.errors r' = ValidationResult.errors r
        ∧ ValidationResult.parsed r' = ValidationResult.parsed r
        ∧ ValidationResult.valid r' = ValidationResult.valid r
        ∧ ∃ extra, ValidationResult.warnings r'
                   = ValidationResult.warnings r ++ extra
                   ∧ Forall (λ w, ValidationWarning.type w = unused) extra.
Proof.
  intros Hs Hs' Hr.
  destruct (validate_options _ _ _ options' _ Hr) as (r' & Hr' & He & Hp & Hv).
  exists r'. split_and!; [done..|].
  rewrite (validate_warnings _ _ _ _ Hr), (validate_warnings _ _ _ _ Hr').
  rewrite Hs, Hs', app_nil_r.
  eexists. split; [done|].
  apply Forall_forall. intros w Hw.
  by apply list_elem_of_fmap in Hw as (k & -> & _).
Qed.

Lemma visit_agree env1 env2 vars acc :
  (∀ name, name ∈ keys vars → env_get env1 name = env_get env2 name) →
  each (visit env1) vars acc = each (visit env2) vars acc.
Proof.
  revert acc. induction vars as [|[n s] vars IH]; intros acc Hag; [done|].
  cbn [each].
  assert (visit env1 acc (n, s) = visit env2 acc (n, s)) as ->.
  { unfold visit. by rewrite (Hag n) by (simpl; apply list_elem_of_here). }
  destruct (visit env2 acc (n, s)) as [acc1|m]; cbn [mbind thrown_bind];
    [|done].
  apply IH. intros name Hn. apply Hag. simpl.
  by apply list_elem_of_further.
Qed.

Lemma validate_agree schema env1 env2 options :
  (∀ name, name ∈ keys (EnvSchema.variables schema) →
           env_get env1 name = env_get env2 name) →
  match validate schema env1 options, validate schema env2 options with
  | returned r1, returned r2 =>
      ValidationResult.errors r1 = ValidationResult.errors r2
      ∧ ValidationResult.parsed r1 = ValidationResult.parsed r2
      ∧ ValidationResult.valid r1 = ValidationResult.valid r2
      ∧ (is_strict options = false → r1 = r2)
  | threw message1, threw message2 => message1 = message2
  | _, _ => False
  end.
Proof.
  intros Hag.
  pose proof (visit_agree env1 env2 _ fresh Hag) as Hv.
  unfold validate. rewrite Hv.
  destruct (each (visit env2) (EnvSchema.variables schema) fresh) as [acc|m];
    simpl; [|done].
  destruct (is_strict options); simpl; [|done].
  by rewrite !scan_errors, !scan_parsed.
Qed.

(** X10. Only what [env[name]] gives for the declared variables
    counts: for two environments that give the same for every declared
    variable, [validate] returns or throws alike; where it returns, the
    errors, the parsed mapping and the validity are the same, and
    without strict mode the result is the same altogether. *)
Theorem undeclared_variables_do_not_interfere schema env1 env2 options :
  (∀ name, name ∈ keys (EnvSchema.variables schema) →
           env_get env1 name = env_get env2 name) →
  match validate schema env1 options, validate schema env2 options with
  | returned r1, returned r2 =>
      ValidationResult.errors r1 = ValidationResult.errors r2
      ∧ ValidationResult.parsed r1 = ValidationResult.parsed r2
      ∧ ValidationResult.valid r1 = ValidationResult.valid r2
      ∧ (is_strict options = false → r1 = r2)
  | threw message1, threw message2 => message1 = message2
  | _, _ => False
  end.
Proof. intros Hag. by apply validate_agree. Qed.

Lemma required_without_error_is_parsed name value spec fr :
  VariableSpec.required spec = true →
  validateVariable name value spec = returned fr →
  FieldResult.error fr = None →
  is_Some (FieldResult.parsed fr).
Proof.
  intros Hreq. unfold validateVariable.
  assert (FieldResult.error (presence name spec) = None →
          is_Some (FieldResult.parsed (presence name spec))) as Hpres.
  { unfold presence. rewrite Hreq.
    destruct (VariableSpec.default spec); simpl; [eauto|done]. }
  destruct value as [v|]; [|by intros [= <-]].
  destruct (is_empty v); [by intros [= <-]|].
  destruct (coerceValue v _) as [coerced|m]; cbn [mbind thrown_bind]; [|done].
  destruct (negb (Coerced.success _)); [by intros [= <-]|].
  destruct (first_error _) as [[e|]|m]; cbn [mbind thrown_bind]; [| |done].
  - by intros [= <-].
  - intros [= <-]. simpl. eauto.
Qed.

Lemma valid_required_parsed schema env options r name spec :
  validate schema env options = returned r →
  NoDup (keys (EnvSchema.variables schema)) →
  (name, spec) ∈ EnvSchema.variables schema →
  VariableSpec.required spec = true →
  ValidationResult.valid r = true →
  ∃ fr x, validateVariable name (env_get env name) spec = returned fr
          ∧ FieldResult.parsed fr = Some x
          ∧ ValidationResult.parsed r !! name = kept name (Some x).
Proof.
  intros Hr Hnd Hin Hreq Hvalid.
  destruct (validate_for_variable schema env options r name spec Hr Hnd Hin)
    as (fr & Hfr & He & _ & Hp).
  assert (FieldResult.error fr = None) as Hnone.
  { rewrite (validate_valid _ _ _ _ Hr) in Hvalid.
    unfold errors_for in He.
    destruct (ValidationResult.errors r); [|done].
    rewrite filter_nil in He. by destruct (FieldResult.error fr). }
  destruct (required_without_error_is_parsed _ _ _ _ Hreq Hfr Hnone)
    as [x Hx].
  exists fr, x. by rewrite Hp, Hx.
Qed.

(** What [result.parsed[name] !== undefined] says of a parsed mapping
    that keeps a value under a name. *)
Lemma has_parsed_kept (r : ValidationResult.t) name x :
  ValidationResult.parsed r !! name = kept name (Some x) →
  has_parsed r name = true.
Proof.
  unfold has_parsed, kept. intros ->.
  destruct (String.eqb_spec name "__proto__") as [->|_]; done.
Qed.

(** X11. A valid result has a parsed value for every required variable
    of the schema: the value that the field validator returned for it
    is an entry of the parsed mapping, unless the variable is
    [__proto__], which has no entry; in both cases
    [result.parsed[name]] is not [undefined]. *)
Theorem valid_result_has_required_values schema env options r name spec :
  validate schema env options = returned r →
  NoDup (keys (EnvSchema.variables schema)) →
  (name, spec) ∈ EnvSchema.variables schema →
  VariableSpec.required spec = true →
  ValidationResult.valid r = true →
  ∃ fr x,
    validateVariable name (env_get env name) spec = returned fr
    ∧ FieldResult.parsed fr = Some x
    ∧ ValidationResult.parsed r !! name
      = (if String.eqb name "__proto__" then None else Some x)
    ∧ has_parsed r name = true.
Proof.
  intros Hr Hnd Hin Hreq Hvalid.
  destruct (valid_required_parsed _ _ _ _ _ _ Hr Hnd Hin Hreq Hvalid)
    as (fr & x & Hfr & Hx & Hp).
  exists fr, x. split_and!; [done..|]. by apply (has_parsed_kept _ _ x).
Qed.

(** X12. An optional variable without a default for which [env[name]]
    gives [undefined] or the empty string is passed over: a result has
    no error and no warning that names it and no parsed value for
    it. *)
Theorem optional_unset_is_skipped schema env options r name spec :
  validate schema env options = returned r →
  NoDup (keys (EnvSchema.variables schema)) →
  (name, spec) ∈ EnvSchema.variables schema →
  VariableSpec.required spec = false →
  VariableSpec.default spec = None →
  unset (env_get env name) →
  errors_for name r = []
  ∧ warnings_for name r = []
  ∧ ValidationResult.parsed r !! name = None.
Proof.
  intros Hr Hnd Hin Hreq Hdef Hun.
  destruct (validate_for_variable schema env options r name spec Hr Hnd Hin)
    as (fr & Hfr & He & Hw & Hp).
  rewrite validateVariable_unset in Hfr by done. injection Hfr as <-.
  rewrite He, Hw, Hp.
  unfold presence, kept. rewrite Hreq, Hdef. simpl.
  by destruct (String.eqb name _).
Qed.

End Results.

Lemma errors_follow_declaration_order_witness :
  ∃ r, validate (host := plain_host) two_variables [] Options.none
       = returned r
       ∧ map ValidationError.variable (ValidationResult.errors r)
           `sublist_of` keys (EnvSchema.variables two_variables)
       ∧ (length (ValidationResult.errors r) ≤ 2)%nat.
Proof.
  eexists. split; [vm_compute; reflexivity|].
  match goal with
  | |- map _ (ValidationResult.errors ?r) `sublist_of` _ ∧ _ =>
      destruct (errors_follow_declaration_order (host := plain_host)
                  two_variables [] Options.none r) as (Hs & Hl & _);
        [vm_compute; reflexivity|]
  end.
  split; [exact Hs|exact Hl].
Defined.

Lemma result_names_declared_variables_witness :
  ∃ r, validate (host := plain_host) database_schema extra_env strict_on
       = returned r
       ∧ (∀ name x, ValidationResult.parsed r !! name = Some x →
                    name ∈ keys (EnvSchema.variables database_schema))
       ∧ ValidationResult.parsed r !! "__proto__" = None.
Proof.
  eexists. split; [vm_compute; reflexivity|].
  match goal with
  | |- (∀ name x, ValidationResult.parsed ?r !! name = Some x → _) ∧ _ =>
      destruct (result_names_declared_variables (host := plain_host)
                  database_schema extra_env strict_on r)
        as (Hp & _ & _ & Hproto); [vm_compute; reflexivity|]
  end.
  split; [exact Hp|exact Hproto].
Defined.

Lemma strict_only_adds_unused_warnings_witness :
  is_strict Options.none = false
  ∧ is_strict strict_on = true
  ∧ ∃ r r',
      validate (host := plain_host) database_schema extra_env Options.none
      = returned r
      ∧ validate (host := plain_host) database_schema extra_env strict_on
        = returned r'
      ∧ ValidationResult.errors r' = ValidationResult.errors r.
Proof.
  split; [reflexivity|]. split; [reflexivity|].
  edestruct (strict_only_adds_unused_warnings (host := plain_host)
               database_schema extra_env Options.none strict_on)
    as (r' & Hr' & He & _); [reflexivity|reflexivity|vm_compute; reflexivity|].
  eexists _, r'. split; [reflexivity|]. split; [exact Hr'|exact He].
Defined.

Lemma undeclared_variables_do_not_interfere_witness :
  let env1 : Env := [("DATABASE_URL"%string, Some "x"%string)] in
  (∀ name, name ∈ keys (EnvSchema.variables database_schema) →
           env_get env1 name = env_get extra_env name)
  ∧ validate (host := plain_host) database_schema env1 Options.none
    = validate (host := plain_host) database_schema extra_env Options.none.
Proof.
  intros env1.
  assert (∀ name, name ∈ keys (EnvSchema.variables database_schema) →
                  env_get env1 name = env_get extra_env name) as Hag.
  { intros name Hname. apply list_elem_of_singleton in Hname as ->.
    reflexivity. }
  split; [exact Hag|].
  pose proof (undeclared_variables_do_not_interfere (host := plain_host)
                database_schema env1 extra_env Options.none Hag) as H.
  destruct (validate database_schema env1 Options.none) as [r1|m1],
           (validate database_schema extra_env Options.none) as [r2|m2];
    try done.
  - destruct H as (_ & _ & _ & H). by rewrite H.
  - by rewrite H.
Defined.

Lemma valid_result_has_required_values_witness :
  ∃ r, validate (host := plain_host) database_schema extra_env Options.none
       = returned r
       ∧ ValidationResult.valid r = true
       ∧ ValidationResult.parsed r !! "DATABASE_URL"%string
         = Some (typed (VString "x")).
Proof.
  eexists. split; [vm_compute; reflexivity|].
  split; [vm_compute; reflexivity|].
  match goal with |- ValidationResult.parsed ?r !! _ = _ =>
    destruct (valid_result_has_required_values (host := plain_host)
                database_schema extra_env Options.none r "DATABASE_URL"
                (field_spec type_string true))
      as (fr & x & Hfr & Hx & Hp & _)
  end.
  - vm_compute. reflexivity.
  - apply NoDup_singleton.
  - apply list_elem_of_here.
  - reflexivity.
  - vm_compute. reflexivity.
  - rewrite Hp. injection Hfr as <-. injection Hx as <-. reflexivity.
Defined.

Lemma optional_unset_is_skipped_witness :
  ∃ r, validate (host := plain_host) two_variables [] Options.none = returned r
       ∧ unset (env_get [] "DEBUG")
       ∧ errors_for "DEBUG" r = []
       ∧ warnings_for "DEBUG" r = []
       ∧ ValidationResult.parsed r !! "DEBUG"%string = None.
Proof.
  eexists. split; [vm_compute; reflexivity|].
  assert (unset (env_get [] "DEBUG")) as Hun by (left; reflexivity).
  split; [exact Hun|].
  apply (optional_unset_is_skipped (host := plain_host)
           two_variables [] Options.none _ "DEBUG"
           (field_spec type_boolean false) eq_refl).
  - apply (bool_decide_unpack _). vm_compute. reflexivity.
  - apply list_elem_of_further, list_elem_of_here.
  - reflexivity.
  - reflexivity.
  - exact Hun.
Defined.

Section Formats.

Context {host : Host}.

Lemma hex_digit_is_alnum (c : ascii) :
  JS.is_hex_digit c = true → JS.is_alnum c = true.
Proof. destruct c as [[] [] [] [] [] [] [] []]; done. Qed.

Lemma lower_hex_digit (c : ascii) :
  JS.is_hex_digit (JS.lower_char c) = JS.is_hex_digit c.
Proof. destruct c as [[] [] [] [] [] [] [] []]; reflexivity. Qed.

Lemma lower_dash (c : ascii) :
  Ascii.eqb (JS.lower_char c) "-" = Ascii.eqb c "-".
Proof. destruct c as [[] [] [] [] [] [] [] []]; reflexivity. Qed.

Lemma chars_toLowerCase (s : string) :
  JS.chars (JS.toLowerCase s) = map JS.lower_char (JS.chars s).
Proof. induction s as [|c s IH]; simpl; [done|]. by rewrite <- IH. Qed.

Lemma length_chars (s : string) : length (JS.chars s) = String.length s.
Proof. induction s as [|c s IH]; simpl; [done|]. by rewrite <- IH. Qed.

Lemma hex_run_lower (n : nat) (cs : list ascii) :
  Format.hex_run n (map JS.lower_char cs)
  = map JS.lower_char <$> Format.hex_run n cs.
Proof.
  revert cs. induction n as [|n IH]; intros [|c cs]; simpl; try done.
  rewrite lower_hex_digit. by destruct (JS.is_hex_digit c).
Qed.

Lemma hex_run_length (n : nat) (cs rest : list ascii) :
  Format.hex_run n cs = Some rest → length cs = (n + length rest)%nat.
Proof.
  revert cs. induction n as [|n IH]; intros [|c cs]; simpl; try done.
  - by intros [= <-].
  - by intros [= <-].
  - destruct (JS.is_hex_digit c); [|done]. intros H. by rewrite (IH _ H).
Qed.

Lemma hex_groups_lower (gs : list nat) (cs : list ascii) :
  Format.hex_groups gs (map JS.lower_char cs) = Format.hex_groups gs cs.
Proof.
  revert cs. induction gs as [|g gs IH]; intros cs; [done|].
  simpl. rewrite hex_run_lower.
  destruct (Format.hex_run g cs) as [[|c r]|]; simpl.
  - by destruct gs.
  - destruct gs; [done|]. by rewrite lower_dash, IH.
  - by destruct gs.
Qed.

Lemma hex_groups_length (gs : list nat) (cs : list ascii) :
  Format.hex_groups gs cs = true →
  length cs = (list_sum gs + (length gs - 1))%nat.
Proof.
  revert cs. induction gs as [|g gs IH]; intros cs; [done|].
  simpl. destruct (Format.hex_run g cs) as [rest|] eqn:Hrun.
  - apply hex_run_length in Hrun. destruct gs as [|g' gs'].
    + destruct rest; [|done]. intros _. simpl in *. lia.
    + destruct rest as [|c r]; [done|].
      intros [_ Hr]%andb_true_iff. apply IH in Hr.
      simpl in *. lia.
  - by destruct gs.
Qed.

(** X13. The [uuid] format takes texts of 36 characters only and does
    not look at the case of the letters: a text and its lower-case form
    are accepted alike. *)
Theorem uuid_format_length_and_case (v : string) :
  Format.uuid (JS.toLowerCase v) = Format.uuid v
  ∧ (Format.uuid v = true → String.length v = 36%nat).
Proof.
  unfold Format.uuid. split.
  - rewrite chars_toLowerCase. apply hex_groups_lower.
  - intros H. apply hex_groups_length in H. by rewrite length_chars in H.
Qed.

(** X14. Every text that the [hex] format accepts the [alphanumeric]
    format accepts too. *)
Theorem hex_format_is_alphanumeric (v : string) :
  Format.hex v = true → Format.alphanumeric v = true.
Proof.
  unfold Format.hex, Format.alphanumeric.
  intros [Ht Hall]%andb_true_iff. rewrite Ht. simpl.
  rewrite forallb_forall in *. intros c Hc.
  by apply hex_digit_is_alnum, Hall.
Qed.

(** X15. Every text that the [port] format accepts is accepted by the
    [integer] and the [positive] formats, and coerces to a number. *)
Theorem port_format_is_positive_integer (v : string) :
  Format.port v = true →
  Format.integer v = true
  ∧ Format.positive v = true
  ∧ coerceValue (typed v) type_number
    = returned
        {| Coerced.success := true;
           Coerced.value := typed (VNumber (JS.Number v));
           Coerced.error := None |}.
Proof.
  unfold Format.port, Format.integer, Format.positive.
  intros [[[Hn H1]%andb_true_iff _]%andb_true_iff Hi]%andb_true_iff.
  rewrite Hn, Hi. apply negb_true_iff in Hn.
  rewrite (coerce_number_value (typed v)) by done.
  split_and!; try done. simpl.
  unfold JS.gt, JS.ge in *.
  destruct (JS.Number v) as [[]|[]| |[] m e]; done.
Qed.

Lemma span_app (p : ascii → bool) (cs : list ascii) :
  cs = (Format.span p cs).1 ++ (Format.span p cs).2
  ∧ forallb p (Format.span p cs).1 = true.
Proof.
  induction cs as [|c cs [IH1 IH2]]; simpl; [done|].
  destruct (p c) eqn:Hp; [|done].
  destruct (Format.span p cs) as [a b]. simpl in *.
  split; [by f_equal|]. by rewrite Hp.
Qed.

(** X16. A text that the [email] format accepts holds no white space,
    exactly one [@], which is not its first character, and a dot
    somewhere after the [@]. *)
Theorem email_format_shape (v : string) :
  Format.email v = true →
  ∃ name domain,
    JS.chars v = name ++ "@"%char :: domain
    ∧ name ≠ []
    ∧ "."%char ∈ domain
    ∧ forallb (λ c, negb (JS.is_space c)) (JS.chars v) = true
    ∧ forallb (λ c, negb (Ascii.eqb c "@")) (name ++ domain) = true.
Proof.
  unfold Format.email.
  destruct (span_app Format.email_atom (JS.chars v)) as [Hcs Hname].
  destruct (Format.span Format.email_atom (JS.chars v)) as [name rest].
  simpl in *. destruct name as [|c0 name]; [done|].
  destruct rest as [|at_ domain]; [done|].
  intros [[Hat Hdom]%andb_true_iff Hdot]%andb_true_iff.
  apply Ascii.eqb_eq in Hat as ->.
  exists (c0 :: name), domain.
  assert (∀ l, forallb Format.email_atom l = true →
               forallb (λ c, negb (JS.is_space c)) l = true
               ∧ forallb (λ c, negb (Ascii.eqb c "@")) l = true) as Hatom.
  { intros l Hl. rewrite !forallb_forall in *. split; intros c Hc;
      specialize (Hl c Hc); unfold Format.email_atom in Hl;
      apply negb_true_iff, orb_false_iff in Hl as [H1 H2];
      by apply negb_true_iff. }
  destruct (Hatom _ Hname) as [Hn1 Hn2].
  destruct (Hatom _ Hdom) as [Hd1 Hd2].
  split_and!; [done|done| | |].
  - apply existsb_exists in Hdot as (c & Hin & Hc).
    apply Ascii.eqb_eq in Hc as <-.
    apply list_elem_of_In.
    destruct domain as [|d domain]; [done|]. simpl in Hin.
    right. clear -Hin. revert Hin.
    induction domain as [|x [|y l] IH]; simpl; [done|done|].
    intros [->|H]; [by left|]. right. by apply IH.
  - rewrite Hcs. rewrite forallb_app. simpl. simpl in Hn1.
    by rewrite Hn1, Hd1.
  - rewrite forallb_app. by rewrite Hn2, Hd2.
Qed.

End Formats.

Lemma hex_format_is_alphanumeric_witness :
  Format.hex "c0ffee" = true ∧ Format.alphanumeric "c0ffee" = true.
Proof.
  split; [reflexivity|].
  apply (hex_format_is_alphanumeric "c0ffee"). reflexivity.
Defined.

Lemma port_format_is_positive_integer_witness :
  Format.port "8080" = true
  ∧ Format.integer "8080" = true
  ∧ Format.positive "8080" = true
  ∧ coerceValue (host := plain_host) (typed "8080"%string) type_number
    = returned
        {| Coerced.success := true;
           Coerced.value := typed (VNumber (JS.Number "8080"));
           Coerced.error := None |}.
Proof.
  split; [vm_compute; reflexivity|].
  apply (port_format_is_positive_integer (host := plain_host) "8080").
  vm_compute. reflexivity.
Defined.

Lemma email_format_shape_witness :
  Format.email "admin@example.com" = true
  ∧ ∃ name domain,
      JS.chars "admin@example.com" = name ++ "@"%char :: domain
      ∧ name ≠ []
      ∧ "."%char ∈ domain
      ∧ forallb (λ c, negb (JS.is_space c)) (JS.chars "admin@example.com")
        = true
      ∧ forallb (λ c, negb (Ascii.eqb c "@")) (name ++ domain) = true.
Proof.
  split; [reflexivity|].
  apply (email_format_shape "admin@example.com"). reflexivity.
Defined.


(** ** Properties of the loader *)

Section Objects.

Context {A : Type}.

Implicit Types (o : list (string * A)) (k : string) (v : A).

Lemma get_None o k : Obj.get o k = None ↔ k ∉ keys o.
Proof.
  induction o as [|[k0 v0] o IH]; simpl.
  - split; [intros _; apply not_elem_of_nil|done].
  - rewrite not_elem_of_cons.
    destruct (String.eqb_spec k0 k) as [->|Hne].
    + split; [done|]. by intros [? _].
    + rewrite IH. split; [|by intros [_ ?]].
      intros Hk. split; [|done]. by intros ->.
Qed.

Lemma get_Some_NoDup o k v :
  NoDup (keys o) → Obj.get o k = Some v ↔ (k, v) ∈ o.
Proof.
  induction o as [|[k0 v0] o IH]; simpl; intros Hnd.
  - split; [done|]. by intros ?%elem_of_nil.
  - apply NoDup_cons in Hnd as [Hfresh Hnd]. rewrite elem_of_cons.
    destruct (String.eqb_spec k0 k) as [->|Hne].
    + split; [intros [= ->]; by left|].
      intros [[= ->]|Hin]; [done|].
      exfalso. apply Hfresh. by apply (list_elem_of_fmap_2 fst) in Hin.
    + rewrite IH by done. split; [by right|].
      intros [[= -> ->]|Hin]; done.
Qed.

Lemma get_app o1 o2 k :
  Obj.get (o1 ++ o2) k
  = match Obj.get o1 k with Some v => Some v | None => Obj.get o2 k end.
Proof.
  induction o1 as [|[k0 v0] o1 IH]; simpl; [done|].
  by destruct (String.eqb k0 k).
Qed.

Lemma get_rev o k : NoDup (keys o) → Obj.get (rev o) k = Obj.get o k.
Proof.
  intros Hnd.
  assert (NoDup (keys (rev o))) as Hnd'.
  { unfold keys. rewrite map_rev.
    by apply NoDup_ListNoDup, List.NoDup_rev, NoDup_ListNoDup. }
  destruct (Obj.get o k) as [v|] eqn:Hg.
  - apply get_Some_NoDup in Hg; [|done].
    apply get_Some_NoDup; [done|].
    apply list_elem_of_In. apply -> in_rev. by apply list_elem_of_In.
  - apply get_None in Hg. apply get_None.
    unfold keys in *. rewrite map_rev.
    intros Hk%list_elem_of_In. apply in_rev in Hk.
    by apply Hg, list_elem_of_In.
Qed.

(** A new value at the place of a key. *)
Lemma get_replace o k v k' :
  Obj.get (Obj.replace o k v) k'
  = if String.eqb k k'
    then match Obj.get o k with Some _ => Some v | None => None end
    else Obj.get o k'.
Proof.
  induction o as [|[k0 v0] o IH]; simpl; [by destruct (String.eqb k k')|].
  destruct (String.eqb_spec k0 k) as [->|Hne]; simpl.
  - by destruct (String.eqb k k').
  - rewrite IH. destruct (String.eqb_spec k0 k') as [->|Hne']; [|done].
    by destruct (String.eqb_spec k k') as [->|_].
Qed.

Lemma keys_replace o k v : keys (Obj.replace o k v) = keys o.
Proof.
  induction o as [|[k0 v0] o IH]; simpl; [done|].
  destruct (String.eqb k0 k); simpl; [done|]. by rewrite IH.
Qed.

(** A new key among the array indices. *)
Lemma get_place o i k v k' :
  Obj.get o k = None →
  Obj.get (Obj.place o i k v) k'
  = if String.eqb k k' then Some v else Obj.get o k'.
Proof.
  induction o as [|[k0 v0] o IH]; simpl; [done|].
  destruct (String.eqb_spec k0 k) as [->|Hne]; [done|]. intros Hk.
  destruct (Obj.index k0) as [j|]; [destruct (j <? i)%N|]; simpl;
    try by destruct (String.eqb k k').
  rewrite IH by done.
  destruct (String.eqb_spec k0 k') as [->|_]; [|done].
  by destruct (String.eqb_spec k k') as [->|_].
Qed.

Lemma keys_place o i k v : keys (Obj.place o i k v) ≡ₚ k :: keys o.
Proof.
  induction o as [|[k0 v0] o IH]; simpl; [done|].
  destruct (Obj.index k0) as [j|]; [destruct (j <? i)%N|]; simpl; try done.
  rewrite IH. apply Permutation_swap.
Qed.

(** What the definition of a property leaves under a key. *)
Lemma get_define o k v k' :
  Obj.get (Obj.define o k v) k'
  = if String.eqb k k' then Some v else Obj.get o k'.
Proof.
  unfold Obj.define. destruct (Obj.get o k) as [v0|] eqn:Hk.
  - rewrite get_replace, Hk. by destruct (String.eqb k k').
  - destruct (Obj.index k) as [i|]; [by apply get_place|].
    rewrite get_app. simpl.
    destruct (String.eqb_spec k k') as [<-|_].
    + by rewrite Hk.
    + by destruct (Obj.get o k').
Qed.

Lemma keys_define o k v :
  keys (Obj.define o k v)
  ≡ₚ if bool_decide (k ∈ keys o) then keys o else k :: keys o.
Proof.
  unfold Obj.define. destruct (Obj.get o k) as [v0|] eqn:Hk.
  - rewrite keys_replace. rewrite bool_decide_eq_true_2; [done|].
    destruct (decide (k ∈ keys o)) as [|Hn]; [done|].
    apply get_None in Hn. congruence.
  - apply get_None in Hk. rewrite bool_decide_eq_false_2 by done.
    destruct (Obj.index k) as [i|]; [apply keys_place|].
    unfold keys. rewrite map_app. simpl.
    by rewrite <- Permutation_cons_append.
Qed.

Lemma NoDup_define o k v :
  NoDup (keys o) → NoDup (keys (Obj.define o k v)).
Proof.
  intros Hnd. rewrite keys_define. case_bool_decide; [done|].
  by apply NoDup_cons.
Qed.

(** What an assignment leaves under a key. *)
Lemma get_set o k v k' :
  Obj.get (Obj.set o k v) k'
  = if String.eqb k "__proto__" then Obj.get o k'
    else if String.eqb k k' then Some v else Obj.get o k'.
Proof.
  unfold Obj.set. destruct (String.eqb k "__proto__"); [done|].
  apply get_define.
Qed.

Lemma NoDup_set o k v : NoDup (keys o) → NoDup (keys (Obj.set o k v)).
Proof.
  intros Hnd. unfold Obj.set. destruct (String.eqb k "__proto__"); [done|].
  by apply NoDup_define.
Qed.

(** No assignment creates the key [__proto__]. *)
Lemma get_set_proto o k v :
  Obj.get o "__proto__" = None → Obj.get (Obj.set o k v) "__proto__" = None.
Proof.
  intros Ho. rewrite get_set.
  by destruct (String.eqb k "__proto__").
Qed.

(** What a spread leaves under a key: the value of the source where it
    has the key, and that of the target elsewhere. *)
Lemma get_spread (target source : list (string * A)) k :
  NoDup (keys source) →
  Obj.get (Obj.spread target source) k
  = match Obj.get source k with
    | Some v => Some v
    | None => Obj.get target k
    end.
Proof.
  intros Hnd. rewrite <- (get_rev source k Hnd). clear Hnd.
  unfold Obj.spread. revert target.
  induction source as [|[k0 v0] source IH]; intros target; simpl; [done|].
  rewrite IH, get_app, get_define. simpl.
  destruct (Obj.get (rev source) k); [done|].
  by destruct (String.eqb k0 k).
Qed.

Lemma NoDup_spread (target source : list (string * A)) :
  NoDup (keys target) → NoDup (keys (Obj.spread target source)).
Proof.
  unfold Obj.spread. revert target.
  induction source as [|[k0 v0] source IH]; intros target Hnd; simpl; [done|].
  by apply IH, NoDup_define.
Qed.

(** What [Object.assign] leaves under a key: as a spread, but for the
    key [__proto__], which keeps what the target has. *)
Lemma get_assign (target source : list (string * A)) k :
  NoDup (keys source) →
  Obj.get (Obj.assign target source) k
  = if String.eqb k "__proto__" then Obj.get target k
    else match Obj.get source k with
         | Some v => Some v
         | None => Obj.get target k
         end.
Proof.
  intros Hnd. rewrite <- (get_rev source k Hnd). clear Hnd.
  unfold Obj.assign. revert target.
  induction source as [|[k0 v0] source IH]; intros target; simpl.
  - by destruct (String.eqb k _).
  - rewrite IH, get_app, get_set. simpl.
    destruct (String.eqb k "__proto__") eqn:Hk.
    + apply String.eqb_eq in Hk.
      destruct (String.eqb_spec k0 "__proto__") as [Hk0|Hk0]; [done|].
      destruct (String.eqb_spec k0 k) as [Heq|_]; [congruence|done].
    + destruct (Obj.get (rev source) k); [done|].
      destruct (String.eqb_spec k0 k) as [Heq|Hne].
      * by rewrite Heq, Hk.
      * by destruct (String.eqb k0 "__proto__").
Qed.

Lemma NoDup_assign (target source : list (string * A)) :
  NoDup (keys target) → NoDup (keys (Obj.assign target source)).
Proof.
  unfold Obj.assign. revert target.
  induction source as [|[k0 v0] source IH]; intros target Hnd; simpl; [done|].
  by apply IH, NoDup_set.
Qed.

End Objects.

Lemma get_as_env (o : list (string * string)) (k : string) :
  Obj.get (as_env o) k = Some <$> Obj.get o k.
Proof.
  induction o as [|[k0 v0] o IH]; simpl; [done|].
  by destruct (String.eqb k0 k).
Qed.

Lemma keys_as_env (o : list (string * string)) : keys (as_env o) = keys o.
Proof. unfold keys, as_env. rewrite map_map. by apply map_ext. Qed.

(** Reading an object of strings as an environment. *)
Lemma env_get_as_env (o : list (string * string)) (k : string) :
  env_get (as_env o) k
  = match Obj.get o k with
    | Some v => Some (typed v)
    | None => inherited <$> Proto.find k
    end.
Proof. unfold env_get. rewrite get_as_env. by destruct (Obj.get o k). Qed.

Section Loader.

Context {host : Host}.

Lemma get_fold_assign (sources : list (list (string * string)))
    (target : list (string * string)) (k : string) :
  Forall (λ source, NoDup (keys source)) sources →
  Obj.get (fold_left Obj.assign sources target) k
  = if String.eqb k "__proto__" then Obj.get target k
    else fold_left
           (λ found source,
              match Obj.get source k with Some v => Some v | None => found end)
           sources (Obj.get target k).
Proof.
  intros Hall. revert target.
  induction Hall as [|source sources Hnd _ IH]; intros target; simpl.
  - by destruct (String.eqb k _).
  - rewrite IH, get_assign by done. by destruct (String.eqb k _).
Qed.

Lemma NoDup_fold_assign (sources : list (list (string * string)))
    (target : list (string * string)) :
  NoDup (keys target) → NoDup (keys (fold_left Obj.assign sources target)).
Proof.
  revert target. induction sources as [|source sources IH]; intros target Hnd;
    simpl; [done|].
  by apply IH, NoDup_assign.
Qed.

(** X17. In a merge of environments a later source overrides an earlier
    one: the merged object has under each key but [__proto__] the value
    of the last source that has the key, and no key twice; it never has
    the key [__proto__]. Of two sources, the second wins where it has
    the key, also with an empty value. *)
Theorem mergeEnv_later_source_wins (sources : list (list (string * string))) :
  Forall (λ source, NoDup (keys source)) sources →
  (∀ k, Obj.get (mergeEnv sources) k
        = if String.eqb k "__proto__" then None else last_defined sources k)
  ∧ NoDup (keys (mergeEnv sources))
  ∧ (∀ a b k, sources = [a; b] → k ≠ "__proto__"%string →
       Obj.get (mergeEnv sources) k
       = match Obj.get b k with Some v => Some v | None => Obj.get a k end).
Proof.
  intros Hall. split_and!.
  - intros k. unfold mergeEnv, last_defined. by rewrite get_fold_assign.
  - apply NoDup_fold_assign, NoDup_nil_2.
  - intros a b k -> Hk. unfold mergeEnv. rewrite get_fold_assign by done.
    apply String.eqb_neq in Hk. rewrite Hk.
    simpl. by destruct (Obj.get b k), (Obj.get a k).
Qed.

Lemma loadProcessEnv_fold (penv : Env) (acc : list (string * string))
    (k : string) :
  NoDup (keys penv) →
  (∀ k', k' ∈ keys penv → Obj.get acc k' = None) →
  Obj.get
    (fold_left
       (λ env kv,
          match snd kv with
          | Some value => Obj.set env (fst kv) value
          | None => env
          end) penv acc) k
  = if String.eqb k "__proto__" then Obj.get acc k
    else match defined penv k with Some v => Some v | None => Obj.get acc k end.
Proof.
  revert acc. induction penv as [|[k0 o0] penv IH]; intros acc Hnd Hacc;
    simpl.
  - by destruct (String.eqb k _).
  - simpl in Hnd. apply NoDup_cons in Hnd as [Hfresh Hnd].
    rewrite IH; [|done|].
    + unfold defined. simpl.
      destruct (String.eqb_spec k0 k) as [->|Hne].
      * assert (Obj.get penv k = None) as -> by by apply get_None.
        destruct o0 as [v|]; simpl.
        -- rewrite get_set, String.eqb_refl.
           by destruct (String.eqb k "__proto__").
        -- by destruct (String.eqb k "__proto__").
      * assert (Obj.get (match o0 with
                         | Some value => Obj.set acc k0 value
                         | None => acc
                         end) k = Obj.get acc k) as ->; [|done].
        destruct o0 as [v|]; [|done]. rewrite get_set.
        destruct (String.eqb k0 "__proto__"); [done|].
        by destruct (String.eqb_spec k0 k).
    + intros k' Hk'.
      assert (Obj.get acc k' = None) as Hk0.
      { apply Hacc. simpl. by apply list_elem_of_further. }
      destruct o0 as [v|]; simpl; [|done].
      rewrite get_set. destruct (String.eqb k0 "__proto__"); [done|].
      destruct (String.eqb_spec k0 k') as [->|_]; done.
Qed.

Lemma NoDup_loadProcessEnv (penv : Env) : NoDup (keys (loadProcessEnv penv)).
Proof.
  unfold loadProcessEnv.
  assert (∀ acc : list (string * string), NoDup (keys acc) →
            NoDup (keys (fold_left
              (λ (env : list (string * string)) (kv : string * option string),
                 match snd kv with
                 | Some value => Obj.set env (fst kv) value
                 | None => env
                 end) penv acc))) as H.
  { induction penv as [|[k0 o0] penv IH]; intros acc Hnd; simpl; [done|].
    apply IH. destruct o0; simpl; [by apply NoDup_set|done]. }
  apply H, NoDup_nil_2.
Qed.

Lemma get_loadProcessEnv (penv : Env) (k : string) :
  NoDup (keys penv) →
  Obj.get (loadProcessEnv penv) k
  = if String.eqb k "__proto__" then None else defined penv k.
Proof.
  intros Hnd. unfold loadProcessEnv.
  rewrite loadProcessEnv_fold by done. simpl.
  destruct (String.eqb k _); [done|]. by destruct (defined penv k).
Qed.

(** The object of [loadProcessEnv] reads as [process.env] does under
    every name that [Object.prototype] does not have. *)
Lemma env_get_loadProcessEnv (penv : Env) (k : string) :
  NoDup (keys penv) → Proto.find k = None →
  env_get (as_env (loadProcessEnv penv)) k = env_get penv k.
Proof.
  intros Hnd Hk. rewrite env_get_as_env, get_loadProcessEnv by done.
  rewrite (find_None_proto k Hk), Hk. unfold defined, env_get. rewrite Hk.
  by destruct (Obj.get penv k) as [[v|]|].
Qed.

(** X18. [loadProcessEnv] keeps the value of every variable but
    [__proto__]: the object it returns has under each other key the
    value that [process.env] has, no key for a value that is not
    defined, and never the key [__proto__]. It reads as [process.env]
    does under every name that [Object.prototype] does not have; so for
    a schema that declares no such name, validation of it returns or
    throws as validation of [process.env] itself, with the same errors,
    parsed mapping and validity. *)
Theorem loadProcessEnv_keeps_values (penv : Env) schema options :
  NoDup (keys penv) →
  (∀ k, Obj.get (loadProcessEnv penv) k
        = if String.eqb k "__proto__" then None else defined penv k)
  ∧ NoDup (keys (loadProcessEnv penv))
  ∧ (∀ k, Proto.find k = None →
          env_get (as_env (loadProcessEnv penv)) k = env_get penv k)
  ∧ ((∀ name, name ∈ keys (EnvSchema.variables schema) →
              Proto.find name = None) →
     match validate schema (as_env (loadProcessEnv penv)) options,
           validate schema penv options with
     | returned r, returned r' =>
         ValidationResult.errors r = ValidationResult.errors r'
         ∧ ValidationResult.parsed r = ValidationResult.parsed r'
         ∧ ValidationResult.valid r = ValidationResult.valid r'
     | threw message, threw message' => message = message'
     | _, _ => False
     end).
Proof.
  intros Hnd.
  split_and!; [intros k; by apply get_loadProcessEnv
              |apply NoDup_loadProcessEnv
              |intros k; by apply env_get_loadProcessEnv|].
  intros Hnames.
  pose proof (validate_agree schema
                (as_env (loadProcessEnv penv)) penv options) as H.
  destruct (validate schema (as_env (loadProcessEnv penv)) options),
           (validate schema penv options); try (apply H);
    try (intros name Hname; by apply env_get_loadProcessEnv, Hnames).
  destruct H as (He & Hp & Hv & _); [|done].
  intros name Hname. by apply env_get_loadProcessEnv, Hnames.
Qed.

End Loader.

Lemma mergeEnv_later_source_wins_witness :
  let process := [("PORT", "8080"); ("DEBUG", "true")]%string in
  let file := [("PORT", "3000"); ("DEBUG", EmptyString)]%string in
  Forall (λ source : list (string * string), NoDup (keys source))
         [process; file]
  ∧ Obj.get (mergeEnv [process; file]) "DEBUG" = Some EmptyString
  ∧ NoDup (keys (mergeEnv [process; file])).
Proof.
  intros process file.
  assert (Forall (λ source : list (string * string), NoDup (keys source))
                 [process; file]) as Hall.
  { repeat constructor; apply (bool_decide_unpack _); vm_compute;
      reflexivity. }
  split; [exact Hall|].
  destruct (mergeEnv_later_source_wins [process; file] Hall)
    as (Hget & Hnd & _).
  split; [|exact Hnd].
  rewrite Hget. reflexivity.
Defined.

Lemma loadProcessEnv_keeps_values_witness :
  NoDup (keys Disk.process_env)
  ∧ Obj.get (loadProcessEnv Disk.process_env) "HOME" = Some "/root"%string
  ∧ Obj.get (loadProcessEnv Disk.process_env) "UNSET" = None.
Proof.
  assert (NoDup (keys Disk.process_env)) as Hnd.
  { apply (bool_decide_unpack _). vm_compute. reflexivity. }
  split; [exact Hnd|].
  destruct (loadProcessEnv_keeps_values (host := plain_host)
              Disk.process_env database_schema Options.none Hnd)
    as (Hget & _).
  split; rewrite Hget; reflexivity.
Defined.

Section InferenceProperties.

Context {host : Host}.

Lemma inferType_coerces (v : string) :
  ∃ coerced, coerceValue (typed v) (inferType v) = returned coerced
             ∧ Coerced.success coerced = true.
Proof.
  unfold inferType.
  destruct (JS.includes _ (JS.toLowerCase v)) eqn:Hb.
  - destruct (coerce_boolean_spec v _ eq_refl) as (coerced & Hc & Hs & _).
    exists coerced. split; [done|]. rewrite Hs, includes_app.
    unfold JS.includes in *. simpl in *.
    destruct (String.eqb (JS.toLowerCase v) "true"); [done|].
    destruct (String.eqb (JS.toLowerCase v) "false"); [by rewrite !orb_true_r|].
    destruct (String.eqb (JS.toLowerCase v) "1"); [done|].
    destruct (String.eqb (JS.toLowerCase v) "0"); [by rewrite !orb_true_r|].
    destruct (String.eqb (JS.toLowerCase v) "yes"); [done|].
    destruct (String.eqb (JS.toLowerCase v) "no"); [by rewrite !orb_true_r|].
    done.
  - destruct (plain_decimal v && _) eqn:Hn.
    + apply andb_true_iff in Hn as [_ Hn]. apply negb_true_iff in Hn.
      rewrite (coerce_number_value (typed v)) by done.
      eexists. split; reflexivity.
    + eexists. split; reflexivity.
Qed.

(** X19. The type that [inferType] gives a text is one that the text
    coerces to: coercion of the text to its inferred type succeeds, so
    a variable declared with the inferred type never gets an
    [invalid_type] error for that text. *)
Theorem inferred_type_coerces name (v : string) spec :
  VariableSpec.type spec = inferType v →
  (∃ coerced, coerceValue (typed v) (inferType v) = returned coerced
              ∧ Coerced.success coerced = true)
  ∧ ∀ fr e, validateVariable name (Some (typed v)) spec = returned fr →
            FieldResult.error fr = Some e →
            ValidationError.type e ≠ invalid_type.
Proof.
  intros Ht. split; [apply inferType_coerces|].
  intros fr e. unfold validateVariable.
  destruct (is_empty (typed v)).
  - intros [= <-]. unfold presence.
    destruct (VariableSpec.required spec), (VariableSpec.default spec);
      simpl; try done. by intros [= <-].
  - rewrite Ht. destruct (inferType_coerces v) as (coerced & -> & Hs).
    cbn [mbind thrown_bind]. rewrite Hs. cbn [negb].
    destruct (first_error _) as [[e'|]|m] eqn:He; cbn [mbind thrown_bind];
      [| |done].
    + intros [= <-] [= <-]. by apply checks_inv in He as (_ & _ & ?).
    + by intros [= <-].
Qed.

Lemma formatValidator_email :
  formatValidator "email"
  = Some (λ value, returned (Format.email (text value))).
Proof. reflexivity. Qed.

Lemma formatValidator_uuid :
  formatValidator "uuid" = Some (λ value, returned (Format.uuid (text value))).
Proof. reflexivity. Qed.

Lemma formatValidator_json :
  formatValidator "json" = Some (λ value, returned (JSON_parses (text value))).
Proof. reflexivity. Qed.

Lemma formatValidator_port :
  formatValidator "port" = Some (λ value, returned (Format.port (text value))).
Proof. reflexivity. Qed.

Lemma formatValidator_url :
  formatValidator "url" = Some (λ value, returned (URL_parses (text value))).
Proof. reflexivity. Qed.

(** The format that is inferred for a text is [url] for a text that
    begins with [http://] or [https://], and otherwise a format whose
    validator accepts the text. *)
Lemma inferFormat_inv (v fmt : string) :
  inferFormat v = Some fmt →
  (fmt = "url"%string)
  ∨ (fmt ≠ "url"%string
     ∧ ∃ validator, formatValidator fmt = Some validator
                    ∧ validator (typed v) = returned true).
Proof.
  unfold inferFormat.
  destruct (_ || _); [intros [= <-]; by left|].
  destruct (Format.email v) eqn:He.
  { intros [= <-]. right. split; [done|]. eexists.
    split; [apply formatValidator_email|]. simpl. by rewrite He. }
  destruct (Format.uuid v) eqn:Hu.
  { intros [= <-]. right. split; [done|]. eexists.
    split; [apply formatValidator_uuid|]. simpl. by rewrite Hu. }
  destruct (_ && JSON_parses v) eqn:Hj.
  { intros [= <-]. right. split; [done|]. eexists.
    split; [apply formatValidator_json|]. simpl.
    by apply andb_true_iff in Hj as [_ ->]. }
  destruct (Format.port v) eqn:Hp; [|done].
  intros [= <-]. right. split; [done|]. eexists.
  split; [apply formatValidator_port|]. simpl. by rewrite Hp.
Qed.

Lemma inferFormat_names (v fmt : string) :
  inferFormat v = Some fmt →
  fmt ∈ ["url"; "email"; "uuid"; "json"; "port"]%string.
Proof.
  unfold inferFormat. intros Hf.
  repeat case_match; try done; injection Hf as <-;
    repeat (first [apply list_elem_of_here | apply list_elem_of_further]).
Qed.

Lemma inferred_name_no_regex (fmt : string) :
  fmt ∈ ["url"; "email"; "uuid"; "json"; "port"]%string →
  JS.startsWith fmt "regex:" = false.
Proof.
  intros Hin.
  repeat (apply elem_of_cons in Hin as [->|Hin]; [done|]).
  by apply elem_of_nil in Hin.
Qed.

(** X20. The format that [inferFormat] gives a text is one of url,
    email, uuid, json and port, none of which begins with [regex:]; it
    is [url] exactly for the texts that begin with [http://] or
    [https://], and any other inferred format has a validator in the
    table that accepts the text. *)
Theorem inferred_format_accepts (v fmt : string) :
  inferFormat v = Some fmt →
  fmt ∈ ["url"; "email"; "uuid"; "json"; "port"]%string
  ∧ JS.startsWith fmt "regex:" = false
  ∧ (fmt = "url"%string
     ↔ JS.startsWith v "http://" || JS.startsWith v "https://" = true)
  ∧ (fmt ≠ "url"%string →
     ∃ validator, formatValidator fmt = Some validator
                  ∧ validator (typed v) = returned true).
Proof.
  intros Hf. pose proof (inferFormat_inv v fmt Hf) as Hinv.
  pose proof (inferFormat_names v fmt Hf) as Hin.
  split_and!; [done|by apply inferred_name_no_regex| |].
  - unfold inferFormat in Hf. destruct (_ || _) eqn:Hurl.
    + by injection Hf as <-.
    + split; [|done]. intros ->.
      repeat case_match; done.
  - intros Hne. by destruct Hinv as [?|[_ ?]].
Qed.

Lemma omap_nil {A B : Type} (f : A → option B) (l : list A) :
  (∀ x, x ∈ l → f x = None) → omap f l = [].
Proof.
  induction l as [|x l IH]; intros Hall; simpl; [done|].
  rewrite (Hall x) by apply list_elem_of_here.
  apply IH. intros y Hy. by apply Hall, list_elem_of_further.
Qed.

(** The inferred schema as the assignment of its entries. *)
Lemma inferSchemaFromEnv_assign (env : list (string * string)) :
  inferSchemaFromEnv env
  = Obj.assign [] (map (λ kv, (fst kv, inferred (fst kv) (snd kv))) env).
Proof.
  unfold inferSchemaFromEnv, Obj.assign.
  generalize (@nil (string * VariableSpec.t)).
  induction env as [|[k v] env IH]; intros acc; simpl; [done|]. apply IH.
Qed.

Lemma get_inferred_entries (env : list (string * string)) (k : string) :
  Obj.get (map (λ kv, (fst kv, inferred (fst kv) (snd kv))) env) k
  = inferred k <$> Obj.get env k.
Proof.
  induction env as [|[k0 v0] env IH]; simpl; [done|].
  by destruct (String.eqb_spec k0 k) as [->|_].
Qed.

(** The schema inferred from an object declares each of its keys but
    [__proto__], for which the assignment creates no key. *)
Lemma get_inferSchemaFromEnv (env : list (string * string)) (k : string) :
  NoDup (keys env) →
  Obj.get (inferSchemaFromEnv env) k
  = if String.eqb k "__proto__" then None else inferred k <$> Obj.get env k.
Proof.
  intros Hnd. rewrite inferSchemaFromEnv_assign, get_assign.
  - rewrite get_inferred_entries. destruct (String.eqb k _); [done|].
    by destruct (Obj.get env k).
  - unfold keys. rewrite map_map. simpl. exact Hnd.
Qed.

Lemma NoDup_inferSchemaFromEnv (env : list (string * string)) :
  NoDup (keys (inferSchemaFromEnv env)).
Proof.
  rewrite inferSchemaFromEnv_assign. apply NoDup_assign, NoDup_nil_2.
Qed.

Lemma inferSchemaFromEnv_entry (env : list (string * string)) k spec :
  NoDup (keys env) →
  (k, spec) ∈ inferSchemaFromEnv env
  ↔ k ≠ "__proto__"%string ∧ ∃ v, (k, v) ∈ env ∧ spec = inferred k v.
Proof.
  intros Hnd.
  rewrite <- (get_Some_NoDup _ _ _ (NoDup_inferSchemaFromEnv env)).
  rewrite get_inferSchemaFromEnv by done.
  destruct (String.eqb_spec k "__proto__") as [->|Hk].
  - split; [done|]. by intros [? _].
  - destruct (Obj.get env k) as [v|] eqn:Hg; simpl.
    + apply get_Some_NoDup in Hg; [|done]. split.
      * intros [= <-]. split; [done|]. by exists v.
      * intros (_ & v' & Hin & ->).
        apply get_Some_NoDup in Hg, Hin; [|done..]. congruence.
    + split; [done|]. intros (_ & v' & Hin & _).
      apply get_Some_NoDup in Hin; [|done]. congruence.
Qed.

Lemma inferSchemaFromEnv_keys (env : list (string * string)) k :
  NoDup (keys env) →
  k ∈ keys (inferSchemaFromEnv env) ↔ k ≠ "__proto__"%string ∧ k ∈ keys env.
Proof.
  intros Hnd.
  assert (∀ (o : list (string * VariableSpec.t)), k ∈ keys o ↔ Obj.get o k ≠ None)
    as Hin1.
  { intros o. rewrite get_None. split; [by intros ? ?|].
    intros H. by destruct (decide (k ∈ keys o)). }
  assert (k ∈ keys env ↔ Obj.get env k ≠ None) as Hin2.
  { rewrite get_None. split; [by intros ? ?|].
    intros H. by destruct (decide (k ∈ keys env)). }
  rewrite Hin1, Hin2, get_inferSchemaFromEnv by done.
  destruct (String.eqb_spec k "__proto__") as [->|Hk].
  - split; [done|]. by intros [? _].
  - destruct (Obj.get env k); simpl; split; try done.
    + by intros [_ ?].
Qed.

(** The field validator on an entry of the inferred schema. *)
Lemma inferred_field (k v : string) :
  v ≠ EmptyString →
  (inferFormat v = Some "url"%string → URL_parses v = true) →
  ∃ coerced,
    coerceValue (typed v) (inferType v) = returned coerced
    ∧ validateVariable k (Some (typed v)) (inferred k v)
      = returned
          {| FieldResult.error := None; FieldResult.warning := None;
             FieldResult.parsed := Some (Coerced.value coerced) |}.
Proof.
  intros Hv Hurl. destruct (inferType_coerces v) as (coerced & Hc & Hs).
  exists coerced. split; [done|].
  rewrite (validateVariable_checked _ _ _ coerced);
    [|by apply is_empty_typed|done|done].
  assert (check_format k (typed v) (inferred k v) = returned None) as Hfmt.
  { unfold check_format. simpl.
    destruct (inferFormat v) as [fmt|] eqn:Hf; [|done].
    rewrite (inferred_name_no_regex fmt) by by apply (inferFormat_names v).
    destruct (negb (JS.truthy fmt)); [done|].
    destruct (inferFormat_inv v fmt Hf) as [->|(_ & validator & -> & ->)];
      [|done].
    rewrite formatValidator_url. simpl. by rewrite Hurl. }
  unfold checks. rewrite first_error_cons_returned.
  unfold check_enum at 1. cbn [VariableSpec.enum inferred].
  rewrite Hfmt. cbn [first_error].
  unfold check_range, check_length, check_pattern. simpl.
  destruct (inferType v); simpl; try done.
  by destruct (string_length _).
Qed.

(** The field validator returns on every entry of an inferred schema
    and a string. *)
Lemma inferred_field_returns (k v v' : string) :
  ∃ fr, validateVariable k (Some (typed v')) (inferred k v) = returned fr.
Proof.
  unfold validateVariable. destruct (is_empty (typed v')); [by eexists|].
  destruct (coerce_typed_returns v' (VariableSpec.type (inferred k v)))
    as [coerced ->].
  cbn [mbind thrown_bind]. destruct (negb (Coerced.success coerced));
    [by eexists|].
  assert (∃ e, check_format k (typed v') (inferred k v) = returned e) as [e He].
  { unfold check_format. simpl.
    destruct (inferFormat v) as [fmt|] eqn:Hf; [|by eexists].
    rewrite (inferred_name_no_regex fmt) by by apply (inferFormat_names v).
    destruct (negb (JS.truthy fmt)); [by eexists|].
    pose proof (inferFormat_names v fmt Hf) as Hin.
    repeat (apply elem_of_cons in Hin as [->|Hin];
            [simpl; destruct (negb _); by eexists|]).
    by apply elem_of_nil in Hin. }
  unfold checks. rewrite first_error_cons_returned.
  destruct (check_enum _ _ _); [by eexists|]. rewrite He.
  destruct e; cbn [first_error]; [by eexists|].
  destruct (check_range _ _ _); cbn [first_error]; [by eexists|].
  destruct (check_length _ _ _); cbn [first_error]; [by eexists|].
  destruct (check_pattern _ _ _); cbn [first_error]; by eexists.
Qed.

(** Validation of an environment against the schema inferred from it
    returns. *)
Lemma inferred_schema_returns (env : list (string * string)) options :
  NoDup (keys env) →
  ∃ r, validate (schema_of (inferSchemaFromEnv env)) (as_env env) options
       = returned r.
Proof.
  intros Hnd. apply validate_returns. intros [k spec] Hin. simpl in Hin.
  apply inferSchemaFromEnv_entry in Hin as (_ & v & Hin & ->); [|done].
  unfold field. simpl. rewrite env_get_as_env.
  rewrite (proj2 (get_Some_NoDup env k v Hnd) Hin).
  apply inferred_field_returns.
Qed.

(** X21. The schema inferred from an environment accepts that
    environment, if it has no key [__proto__], no value in it is empty
    and every value that begins with [http://] or [https://] parses as
    a URL: validation returns, with no error and no warning, also in
    strict mode, and a parsed value for every key. *)
Theorem inferred_schema_accepts_its_environment
    (env : list (string * string)) options :
  NoDup (keys env) →
  ("__proto__"%string ∉ keys env) →
  (∀ k v, (k, v) ∈ env →
          v ≠ EmptyString
          ∧ (inferFormat v = Some "url"%string → URL_parses v = true)) →
  ∃ r,
    validate (schema_of (inferSchemaFromEnv env)) (as_env env) options
    = returned r
    ∧ ValidationResult.valid r = true
    ∧ ValidationResult.errors r = []
    ∧ ValidationResult.warnings r = []
    ∧ ∀ k v, (k, v) ∈ env →
             ∃ coerced,
               coerceValue (typed v) (inferType v) = returned coerced
               ∧ ValidationResult.parsed r !! k
                 = Some (Coerced.value coerced).
Proof.
  intros Hnd Hproto Hok.
  destruct (inferred_schema_returns env options Hnd) as [r Hr].
  exists r. split; [exact Hr|].
  assert (∀ k, k ∈ keys env → k ≠ "__proto__"%string) as Hne.
  { intros k Hk ->. done. }
  assert (∀ k v, (k, v) ∈ env →
            ∃ coerced,
              coerceValue (typed v) (inferType v) = returned coerced
              ∧ field (as_env env) (k, inferred k v)
                = returned
                    {| FieldResult.error := None; FieldResult.warning := None;
                       FieldResult.parsed := Some (Coerced.value coerced) |})
    as Hfield.
  { intros k v Hin. unfold field. simpl. rewrite env_get_as_env.
    rewrite (proj2 (get_Some_NoDup env k v Hnd) Hin).
    destruct (Hok k v Hin). by apply inferred_field. }
  assert (ValidationResult.errors r = []) as He.
  { rewrite (validate_errors _ _ _ _ Hr). simpl.
    apply omap_nil. intros [k s] Hin.
    apply inferSchemaFromEnv_entry in Hin as (_ & v & Hin & ->); [|done].
    unfold field_error.
    by destruct (Hfield k v Hin) as (coerced & _ & ->). }
  split_and!.
  - by rewrite (validate_valid _ _ _ _ Hr), He.
  - done.
  - rewrite (validate_warnings _ _ _ _ Hr). simpl.
    rewrite (omap_nil (field_warning (as_env env))).
    + destruct (is_strict options); [|done]. simpl.
      rewrite keys_as_env.
      assert (∀ l : list string, (∀ k, k ∈ l → k ∈ keys env) →
                List.filter
                  (flagged (list_to_set (keys (inferSchemaFromEnv env)))) l
                = []) as Hfl.
      { induction l as [|k l IH]; intros Hl; simpl; [done|].
        unfold flagged at 1.
        rewrite (bool_decide_eq_true_2
                   (k ∈ list_to_set (keys (inferSchemaFromEnv env)))).
        - rewrite andb_false_r. apply IH. intros k' Hk'.
          by apply Hl, list_elem_of_further.
        - apply elem_of_list_to_set, inferSchemaFromEnv_keys; [done|].
          assert (k ∈ keys env) by apply Hl, list_elem_of_here.
          split; [by apply Hne|done]. }
      by rewrite Hfl.
    + intros [k s] Hin.
      apply inferSchemaFromEnv_entry in Hin as (_ & v & Hin & ->); [|done].
      unfold field_warning.
      by destruct (Hfield k v Hin) as (coerced & _ & ->).
  - intros k v Hin.
    destruct (Hfield k v Hin) as (coerced & Hc & Hf).
    exists coerced. split; [done|].
    destruct (validate_parsed _ _ _ _ k (inferred k v) Hr)
      as (fr & Hfr & Hp).
    + simpl. apply NoDup_inferSchemaFromEnv.
    + simpl. apply inferSchemaFromEnv_entry; [done|].
      split; [|by exists v]. apply Hne.
      by apply (list_elem_of_fmap_2 fst) in Hin.
    + rewrite Hf in Hfr. injection Hfr as <-. rewrite Hp. unfold kept.
      assert (k ≠ "__proto__"%string) as Hk.
      { apply Hne. by apply (list_elem_of_fmap_2 fst) in Hin. }
      apply String.eqb_neq in Hk. by rewrite Hk.
Qed.

(** X22. An empty value breaks the round trip: the key of an empty
    value, unless it is [__proto__], is declared required by the
    inferred schema, so validation of the same environment returns a
    result that reports it [missing]. *)
Theorem inferred_schema_rejects_empty_value
    (env : list (string * string)) options k :
  NoDup (keys env) →
  (k, EmptyString) ∈ env →
  k ≠ "__proto__"%string →
  ∃ r,
    validate (schema_of (inferSchemaFromEnv env)) (as_env env) options
    = returned r
    ∧ ValidationResult.valid r = false
    ∧ errors_for k r
      = [error_of k "Required variable is missing" missing None None].
Proof.
  intros Hnd Hin Hk.
  destruct (inferred_schema_returns env options Hnd) as [r Hr].
  exists r. split; [exact Hr|].
  assert (errors_for k r
          = [error_of k "Required variable is missing" missing None None])
    as He.
  { destruct (validate_for_variable (schema_of (inferSchemaFromEnv env))
                (as_env env) options r k (inferred k EmptyString) Hr)
      as (fr & Hfr & He & _).
    - simpl. apply NoDup_inferSchemaFromEnv.
    - simpl. apply inferSchemaFromEnv_entry; [done|].
      split; [done|]. by exists EmptyString.
    - rewrite He. rewrite env_get_as_env in Hfr.
      rewrite (proj2 (get_Some_NoDup env k EmptyString Hnd) Hin) in Hfr.
      by injection Hfr as <-. }
  split; [|done].
  rewrite (validate_valid _ _ _ _ Hr).
  unfold errors_for in He.
  destruct (ValidationResult.errors r); [|done].
  by rewrite filter_nil in He.
Qed.

End InferenceProperties.

Lemma inferred_type_coerces_witness :
  VariableSpec.type (field_spec type_number true) = inferType "3000"
  ∧ ∃ coerced,
      coerceValue (host := plain_host) (typed "3000"%string) (inferType "3000")
      = returned coerced
      ∧ Coerced.success coerced = true.
Proof.
  split; [reflexivity|].
  apply (inferred_type_coerces (host := plain_host) "PORT" "3000"
           (field_spec type_number true)).
  reflexivity.
Defined.

Lemma inferred_format_accepts_witness :
  inferFormat (host := plain_host) "3000" = Some "port"%string
  ∧ ∃ validator,
      formatValidator (host := plain_host) "port" = Some validator
      ∧ validator (typed "3000"%string) = returned true.
Proof.
  assert (inferFormat (host := plain_host) "3000" = Some "port"%string)
    as Hf by (vm_compute; reflexivity).
  split; [exact Hf|].
  apply (inferred_format_accepts (host := plain_host) "3000" "port" Hf).
  discriminate.
Defined.

Lemma inferred_schema_accepts_its_environment_witness :
  NoDup (keys dotenv_sample)
  ∧ ("__proto__"%string ∉ keys dotenv_sample)
  ∧ ∃ r,
      validate (host := plain_host)
        (schema_of (inferSchemaFromEnv (host := plain_host) dotenv_sample))
        (as_env dotenv_sample) strict_on = returned r
      ∧ ValidationResult.valid r = true
      ∧ ValidationResult.warnings r = [].
Proof.
  assert (NoDup (keys dotenv_sample)) as Hnd.
  { apply (bool_decide_unpack _). vm_compute. reflexivity. }
  assert ("__proto__"%string ∉ keys dotenv_sample) as Hproto.
  { apply (bool_decide_unpack _). vm_compute. reflexivity. }
  split; [exact Hnd|]. split; [exact Hproto|].
  destruct (inferred_schema_accepts_its_environment (host := plain_host)
              dotenv_sample strict_on Hnd Hproto)
    as (r & Hr & Hv & _ & Hw & _).
  - intros k v Hin.
    repeat (apply elem_of_cons in Hin as [[= -> ->]|Hin];
            [split; [discriminate|];
             intros Hurl; vm_compute in Hurl;
             first [discriminate Hurl | vm_compute; reflexivity]|]).
    by apply elem_of_nil in Hin.
  - exists r. by split_and!.
Defined.

Lemma inferred_schema_rejects_empty_value_witness :
  let env := [("API_KEY", EmptyString); ("PORT", "3000")]%string in
  NoDup (keys env)
  ∧ ∃ r,
      validate (host := plain_host)
        (schema_of (inferSchemaFromEnv (host := plain_host) env))
        (as_env env) Options.none = returned r
      ∧ ValidationResult.valid r = false.
Proof.
  intros env.
  assert (NoDup (keys env)) as Hnd.
  { apply (bool_decide_unpack _). vm_compute. reflexivity. }
  split; [exact Hnd|].
  destruct (inferred_schema_rejects_empty_value (host := plain_host)
              env Options.none "API_KEY" Hnd)
    as (r & Hr & Hv & _).
  - apply list_elem_of_here.
  - discriminate.
  - exists r. by split.
Defined.

(** ** Properties of the schema files and the entry points *)

Section SchemaFiles.

Context {files : Files} {parsers : Parsers}.

Lemma first_existing_inv (paths : list string) (found : string) :
  first_existing paths = Some found →
  ∃ before p after,
    paths = before ++ p :: after
    ∧ found = resolve p
    ∧ existsSync found = true
    ∧ Forall (λ q, existsSync (resolve q) = false) before.
Proof.
  induction paths as [|p paths IH]; simpl; [done|].
  destruct (existsSync (resolve p)) eqn:Hp.
  - intros [= <-]. by exists [], p, paths.
  - intros (before & q & after & -> & -> & Hq & Hall)%IH.
    exists (p :: before), q, after. split_and!; try done.
    by constructor.
Qed.

(** X23. The schema file that [findSchemaFile] returns exists. For a
    path that is given it is that path, resolved, and no other: when
    the given file is missing nothing is returned, whatever default
    files exist. Without a given path it is the first of the default
    paths that exists, none if none does. *)
Theorem findSchemaFile_finds_existing_file (customPath : option string) :
  (∀ found, findSchemaFile customPath = Some found →
            existsSync found = true)
  ∧ (∀ p, customPath = Some p → p ≠ EmptyString →
          findSchemaFile customPath
          = if existsSync (resolve p) then Some (resolve p) else None)
  ∧ (customPath = None ∨ customPath = Some EmptyString →
     (∀ found, findSchemaFile customPath = Some found →
        ∃ before p after,
          DEFAULT_SCHEMA_PATHS = before ++ p :: after
          ∧ found = resolve p
          ∧ Forall (λ q, existsSync (resolve q) = false) before)
     ∧ (findSchemaFile customPath = None ↔
        Forall (λ q, existsSync (resolve q) = false) DEFAULT_SCHEMA_PATHS)).
Proof.
  split_and!.
  - intros found. unfold findSchemaFile.
    destruct customPath as [p|].
    + destruct (JS.truthy p).
      * destruct (existsSync (resolve p)) eqn:Hp; [|done]. by intros [= <-].
      * by intros (? & ? & ? & _ & _ & ? & _)%first_existing_inv.
    + by intros (? & ? & ? & _ & _ & ? & _)%first_existing_inv.
  - intros p -> Hp. unfold findSchemaFile. by rewrite truthy_nonempty.
  - intros Hnone.
    assert (findSchemaFile customPath = first_existing DEFAULT_SCHEMA_PATHS)
      as ->.
    { by destruct Hnone as [-> | ->]. }
    split.
    + intros found (b & p & a & ? & ? & _ & ?)%first_existing_inv.
      by exists b, p, a.
    + unfold DEFAULT_SCHEMA_PATHS. simpl.
      rewrite !Forall_cons, Forall_nil.
      repeat case_match; split; try done; intros (? & ? & ? & _);
        congruence.
Qed.

(** A failure: no success, nothing loaded, a message that is not empty. *)
Ltac failure_shape :=
  right; split_and!; [reflexivity | reflexivity | eexists; split; reflexivity].

Lemma checked_schema_shape (absolutePath : string) (raw : thrown Json) :
  let r := checked_schema absolutePath raw in
  LoadSchemaResult.path r = absolutePath
  ∧ ((LoadSchemaResult.success r = true
      ∧ is_Some (LoadSchemaResult.schema r)
      ∧ LoadSchemaResult.error r = None)
     ∨ (LoadSchemaResult.success r = false
        ∧ LoadSchemaResult.schema r = None
        ∧ ∃ m, LoadSchemaResult.error r = Some m ∧ JS.truthy m = true)).
Proof.
  unfold checked_schema. destruct raw as [raw|message]; simpl.
  - destruct (safeParse raw); simpl; (split; [done|]);
      [left; eauto|failure_shape].
  - split; [done|failure_shape].
Qed.

(** X24. [loadSchema] answers in one of two shapes. A success carries a
    schema and no error, and comes only from a file that exists and
    whose extension, in lower case, is [.json] or [.js]. A failure
    carries no schema and an error message that is not empty. Either
    way the path is the resolved one. *)
Theorem loadSchema_result_shape (schemaPath : string) :
  let r := loadSchema schemaPath in
  LoadSchemaResult.path r = resolve schemaPath
  ∧ ((LoadSchemaResult.success r = true
      ∧ is_Some (LoadSchemaResult.schema r)
      ∧ LoadSchemaResult.error r = None
      ∧ existsSync (resolve schemaPath) = true
      ∧ JS.toLowerCase (extname (resolve schemaPath))
        ∈ [".json"; ".js"]%string)
     ∨ (LoadSchemaResult.success r = false
        ∧ LoadSchemaResult.schema r = None
        ∧ ∃ m, LoadSchemaResult.error r = Some m ∧ JS.truthy m = true)).
Proof.
  unfold loadSchema.
  destruct (existsSync (resolve schemaPath)) eqn:He; simpl;
    [|split; [done|failure_shape]].
  destruct (readFileSync (resolve schemaPath)) as [content|message];
    [|simpl; split; [done|failure_shape]].
  destruct (String.eqb_spec (JS.toLowerCase (extname (resolve schemaPath)))
              ".json") as [Hj|_].
  { destruct (checked_schema_shape (resolve schemaPath) (JSON_parse content))
      as [Hp [(? & ? & ?)|?]]; (split; [done|]); [left|by right].
    split_and!; try done. rewrite Hj. apply list_elem_of_here. }
  destruct (String.eqb_spec (JS.toLowerCase (extname (resolve schemaPath)))
              ".js") as [Hj|_]; [|simpl; split; [done|failure_shape]].
  destruct (checked_schema_shape (resolve schemaPath)
              (JSON_parse (string_of_list_ascii
                             (strip_exports (JS.chars content)))))
    as [Hp [(? & ? & ?)|?]]; (split; [done|]); [left|by right].
  split_and!; try done. rewrite Hj.
  apply list_elem_of_further, list_elem_of_here.
Qed.

Lemma trim_start_keeps_semicolon (cs : list ascii) :
  ∃ cs', JS.trim_start (cs ++ [";"%char]) = cs' ++ [";"%char].
Proof.
  induction cs as [|c cs [cs' IH]]; simpl.
  - by exists [].
  - destruct (JS.is_space c); [by exists cs'|]. by exists (c :: cs).
Qed.

Lemma chars_app (s1 s2 : string) :
  JS.chars (s1 ++ s2)%string = JS.chars s1 ++ JS.chars s2.
Proof. induction s1 as [|c s1 IH]; simpl; [done|]. by rewrite IH. Qed.

Lemma endsWith_semicolon (cs : list ascii) :
  JS.endsWith (string_of_list_ascii (cs ++ [";"%char])) ";" = true.
Proof.
  unfold JS.endsWith. rewrite list_ascii_of_string_of_list_ascii.
  rewrite rev_app_distr. simpl.
  by destruct (string_of_list_ascii (rev cs)).
Qed.

(** The text left of a file in the [js] format once the export is cut
    out still ends with the semicolon. *)
Lemma strip_exports_js (json : string) :
  ∃ cs', strip_exports (JS.chars (schema_file_content json true))
         = cs' ++ [";"%char].
Proof.
  unfold schema_file_content.
  change (JS.chars ("module.exports = " ++ json ++ ";")%string)
    with (JS.chars "module.exports = " ++ JS.chars (json ++ ";")%string).
  rewrite chars_app. simpl JS.chars at 1.
  change (JS.chars ";") with [";"%char].
  destruct (trim_start_keeps_semicolon (JS.chars json)) as [cs' Hcs'].
  exists cs'. rewrite <- Hcs'.
  unfold strip_exports, exports_at. by simpl.
Qed.

(** X25. A schema file that [createSchemaFile] writes in the [js]
    format cannot be loaded back: it ends with a semicolon, which is
    still there when the export is cut out, so that with a JSON parser
    that refuses a text ending with a semicolon [loadSchema] fails with
    the parse error. *)
Theorem js_schema_file_does_not_load (schemaPath json : string) :
  (∀ text, JS.endsWith text ";" = true → ∃ m, JSON_parse text = threw m) →
  existsSync (resolve schemaPath) = true →
  readFileSync (resolve schemaPath)
  = returned (schema_file_content json true) →
  JS.toLowerCase (extname (resolve schemaPath)) = ".js"%string →
  ∃ m, loadSchema schemaPath
       = schema_failure (resolve schemaPath)
           ("Failed to parse schema: " ++ m)%string.
Proof.
  intros Hjson He Hread Hext. unfold loadSchema.
  rewrite He, Hread, Hext.
  destruct (strip_exports_js json) as [cs' ->].
  destruct (Hjson _ (endsWith_semicolon cs')) as [m Hm].
  exists m. simpl. by rewrite Hm.
Qed.

(** X26. [loadEnvFile] answers in one of two shapes: a success with
    the parsed variables and no error, only for a file that exists; or
    a failure with no variable at all and an error message that is not
    empty. *)
Theorem loadEnvFile_result_shape (envPath : string) :
  let r := loadEnvFile envPath in
  LoadEnvResult.path r = resolve envPath
  ∧ ((LoadEnvResult.success r = true
      ∧ LoadEnvResult.error r = None
      ∧ existsSync (resolve envPath) = true)
     ∨ (LoadEnvResult.success r = false
        ∧ LoadEnvResult.env r = []
        ∧ ∃ m, LoadEnvResult.error r = Some m ∧ JS.truthy m = true)).
Proof.
  unfold loadEnvFile.
  destruct (existsSync (resolve envPath)) eqn:He; simpl;
    [|split; [done|failure_shape]].
  destruct (readFileSync (resolve envPath)) as [content|message];
    [|simpl; split; [done|failure_shape]].
  destruct (dotenv_parse content); simpl; (split; [done|]);
    [left; eauto|failure_shape].
Qed.

End SchemaFiles.

Section EntryPoints.

Context {host : Host} {files : Files} {parsers : Parsers}.

Lemma loadSchema_failure_message (schemaPath : string) :
  LoadSchemaResult.success (loadSchema schemaPath) = false →
  ∃ m, LoadSchemaResult.error (loadSchema schemaPath) = Some m
       ∧ JS.truthy m = true.
Proof.
  unfold loadSchema, checked_schema.
  repeat case_match; simpl; try done; intros _; by eexists.
Qed.

Lemma loadSchema_success_schema (schemaPath : string) :
  LoadSchemaResult.success (loadSchema schemaPath) = true →
  is_Some (LoadSchemaResult.schema (loadSchema schemaPath)).
Proof.
  unfold loadSchema, checked_schema.
  repeat case_match; simpl; try done; intros _; by eexists.
Qed.

Lemma or_else_truthy (m fallback : string) :
  JS.truthy m = true → or_else (Some m) fallback = m.
Proof. intros Hm. unfold or_else. by rewrite Hm. Qed.

(** The three ways in which [validateEnv] answers. *)
Lemma validateEnv_cases (options : EnvOptions.t) :
  let found := findSchemaFile (EnvOptions.schemaPath options) in
  (found = None
   ∧ ∃ m, validateEnv options
          = returned {| EnvResult.result := schema_error m;
                        EnvResult.schemaPath := None |})
  ∨ (∃ p m, found = Some p
            ∧ LoadSchemaResult.success (loadSchema p) = false
            ∧ LoadSchemaResult.error (loadSchema p) = Some m
            ∧ validateEnv options
              = returned {| EnvResult.result := schema_error m;
                            EnvResult.schemaPath := Some p |})
  ∨ (∃ p schema, found = Some p
                 ∧ LoadSchemaResult.success (loadSchema p) = true
                 ∧ LoadSchemaResult.schema (loadSchema p) = Some schema
                 ∧ validateEnv options
                   = result ← validate schema (as_env (loaded_env options))
                                {| Options.strict := EnvOptions.strict options |};
                     returned {| EnvResult.result := result;
                                 EnvResult.schemaPath := Some p |}).
Proof.
  intros found. unfold found, validateEnv.
  destruct (findSchemaFile (EnvOptions.schemaPath options)) as [p|].
  - destruct (LoadSchemaResult.success (loadSchema p)) eqn:Hs.
    + destruct (loadSchema_success_schema p Hs) as [schema Hschema].
      rewrite Hschema. right. right. by exists p, schema.
    + destruct (loadSchema_failure_message p Hs) as (m & Hm & Htruthy).
      right. left. exists p, m.
      by rewrite Hm, or_else_truthy.
  - left. split; [done|by eexists].
Qed.

(** X27. Every result that [validateEnv] returns is valid exactly when
    it has no error. Without a schema file it returns the one error of
    the variable [_schema] and no schema path; with a schema file that
    does not load it returns the one error of [_schema] whose message
    is the error of [loadSchema] (the fallback message is never used);
    otherwise it returns the result of [validate] on the loaded schema
    and the environment that it has put together, or throws what
    [validate] throws. *)
Theorem validateEnv_results (options : EnvOptions.t) :
  (∀ out, validateEnv options = returned out →
          ValidationResult.valid (EnvResult.result out) = true
          ↔ ValidationResult.errors (EnvResult.result out) = [])
  ∧ (findSchemaFile (EnvOptions.schemaPath options) = None →
     ∃ out, validateEnv options = returned out
            ∧ EnvResult.schemaPath out = None
            ∧ ValidationResult.valid (EnvResult.result out) = false
            ∧ map ValidationError.variable
                (ValidationResult.errors (EnvResult.result out))
              = ["_schema"%string])
  ∧ (∀ p, findSchemaFile (EnvOptions.schemaPath options) = Some p →
       (LoadSchemaResult.success (loadSchema p) = false →
        ∃ m, LoadSchemaResult.error (loadSchema p) = Some m
             ∧ validateEnv options
               = returned {| EnvResult.result := schema_error m;
                             EnvResult.schemaPath := Some p |})
       ∧ (LoadSchemaResult.success (loadSchema p) = true →
          ∃ schema,
            LoadSchemaResult.schema (loadSchema p) = Some schema
            ∧ validateEnv options
              = result ← validate schema (as_env (loaded_env options))
                           {| Options.strict := EnvOptions.strict options |};
                returned {| EnvResult.result := result;
                            EnvResult.schemaPath := Some p |})).
Proof.
  destruct (validateEnv_cases options)
    as [(Hf & m & Hr)
       |[(p & m & Hf & Hs & Hm & Hr)
        |(p & schema & Hf & Hs & Hschema & Hr)]];
    rewrite Hf, Hr.
  - split_and!; [by intros out [= <-]| |done].
    intros _. eexists. by split_and!.
  - split_and!; [by intros out [= <-]|done|].
    intros ? [= <-]. split; [|intros; congruence].
    intros _. by exists m.
  - split_and!; [|done|].
    + intros out.
      destruct (validate schema _ _) as [r|msg] eqn:Hv;
        cbn [mbind thrown_bind]; [|done].
      intros [= <-]. cbn [EnvResult.result].
      rewrite (validate_valid _ _ _ _ Hv).
      destruct (ValidationResult.errors r); simpl; split; done.
    + intros ? [= <-]. split; [intros; congruence|].
      intros _. by exists schema.
Qed.

(** X28. What [guardEnv] returns, when it does not throw, is the parsed
    mapping of a valid result for a schema that was found and loaded,
    and it has a value for every required variable of that schema but
    [__proto__], for which no parsed mapping has an entry. *)
Theorem guardEnv_returns_required_values
    (schemaPath envPath : option string) (useProcessEnv : option bool)
    (vars : gmap string (actual Value)) :
  guardEnv schemaPath envPath useProcessEnv = returned vars →
  ∃ p schema,
    findSchemaFile schemaPath = Some p
    ∧ LoadSchemaResult.schema (loadSchema p) = Some schema
    ∧ (NoDup (keys (EnvSchema.variables schema)) →
       ∀ name spec, (name, spec) ∈ EnvSchema.variables schema →
                    VariableSpec.required spec = true →
                    if String.eqb name "__proto__" then vars !! name = None
                    else is_Some (vars !! name)).
Proof.
  unfold guardEnv.
  destruct (validateEnv_cases
              {| EnvOptions.schemaPath := schemaPath;
                 EnvOptions.envPath := envPath;
                 EnvOptions.useProcessEnv := useProcessEnv;
                 EnvOptions.strict := None |})
    as [(_ & m & Hr)
       |[(p & m & _ & _ & _ & Hr)
        |(p & schema & Hf & _ & Hschema & Hr)]];
    rewrite Hr; [done|done|].
  destruct (validate schema _ _) as [r|msg] eqn:Hv; cbn [mbind thrown_bind];
    [|done].
  cbn [EnvResult.result].
  destruct (ValidationResult.valid r) eqn:Hvalid; [|done].
  cbn [negb]. intros Hvars.
  assert (vars = ValidationResult.parsed r) as -> by congruence.
  exists p, schema. split_and!; [done|done|].
  intros Hnd name spec Hin Hreq.
  destruct (valid_required_parsed _ _ _ _ _ _ Hv Hnd Hin Hreq Hvalid)
    as (fr & x & _ & _ & ->).
  unfold kept. by destruct (String.eqb name _).
Qed.

(** X29. The environment that [validateEnv] validates. Asked for the
    process environment and an env file that loads, it takes for each
    key the value of the file where the file has the key and that of
    the process environment elsewhere, but nothing for the key
    [__proto__] of the process environment. When the env file does not
    load it goes on without it, on the process environment if that was
    asked for and on the empty environment otherwise. *)
Theorem validateEnv_env_file_overrides (options : EnvOptions.t) path :
  NoDup (keys process_env) →
  NoDup (keys (LoadEnvResult.env (loadEnvFile path))) →
  EnvOptions.envPath options = Some path →
  path ≠ EmptyString →
  let file := loadEnvFile path in
  (EnvOptions.useProcessEnv options = Some true →
   LoadEnvResult.success file = true →
   ∀ k, Obj.get (loaded_env options) k
        = match Obj.get (LoadEnvResult.env file) k with
          | Some v => Some v
          | None =>
              if String.eqb k "__proto__" then None else defined process_env k
          end)
  ∧ (LoadEnvResult.success file = false →
     loaded_env options
     = if flag (EnvOptions.useProcessEnv options)
       then loadProcessEnv process_env else []).
Proof.
  intros Hpenv Hfile Hpath Hne file. unfold loaded_env.
  rewrite Hpath. simpl. rewrite truthy_nonempty by done. simpl.
  fold file. split.
  - intros -> Hs k. simpl. rewrite Hs.
    rewrite (get_spread _ (LoadEnvResult.env file)) by exact Hfile.
    rewrite get_spread by apply NoDup_loadProcessEnv. simpl.
    destruct (Obj.get (LoadEnvResult.env file) k); [done|].
    rewrite get_loadProcessEnv by done.
    by destruct (String.eqb k _), (defined process_env k).
  - intros Hs. by rewrite Hs.
Qed.

End EntryPoints.

Lemma js_schema_file_does_not_load_witness :
  existsSync (Files := plain_files) (resolve (Files := plain_files) "schema.js")
  = true
  ∧ LoadSchemaResult.success
      (loadSchema (files := plain_files) (parsers := plain_parsers) "schema.js")
    = false.
Proof.
  split; [reflexivity|].
  destruct (js_schema_file_does_not_load (files := plain_files)
              (parsers := plain_parsers) "schema.js" "{}") as [m Hm].
  - intros text Hend. exists "Unexpected token ;"%string.
    simpl. unfold Disk.JSON_parse. by rewrite Hend.
  - reflexivity.
  - reflexivity.
  - reflexivity.
  - rewrite Hm. reflexivity.
Defined.

Lemma guardEnv_returns_required_values_witness :
  ∃ vars,
    guardEnv (host := plain_host) (files := plain_files)
      (parsers := plain_parsers) None None None = returned vars
    ∧ ∃ p schema,
        findSchemaFile (files := plain_files) None = Some p
        ∧ LoadSchemaResult.schema
            (loadSchema (files := plain_files) (parsers := plain_parsers) p)
          = Some schema.
Proof.
  eexists. split; [vm_compute; reflexivity|].
  destruct (guardEnv_returns_required_values (host := plain_host)
              (files := plain_files) (parsers := plain_parsers)
              None None None _ eq_refl) as (p & schema & Hf & Hs & _).
  by exists p, schema.
Defined.

Lemma validateEnv_env_file_overrides_witness :
  NoDup (keys (process_env (Files := plain_files)))
  ∧ Obj.get (loaded_env (files := plain_files) (parsers := plain_parsers)
               entry_options) "DATABASE_URL"
    = Some "x"%string
  ∧ Obj.get (loaded_env (files := plain_files) (parsers := plain_parsers)
               entry_options) "HOME"
    = Some "/root"%string.
Proof.
  assert (NoDup (keys (process_env (Files := plain_files)))) as Hnd.
  { apply (bool_decide_unpack _). vm_compute. reflexivity. }
  split; [exact Hnd|].
  destruct (validateEnv_env_file_overrides (files := plain_files)
              (parsers := plain_parsers) entry_options ".env" Hnd)
    as [Hget _].
  - apply NoDup_singleton.
  - reflexivity.
  - discriminate.
  - split; rewrite Hget by reflexivity; reflexivity.
Defined.

Section Report.

Context {host : Host}.

Lemma find_head_filter {A : Type} (key : A → string) (name : string)
    (l : list A) :
  List.find (λ x, String.eqb (key x) name) l
  = head (filter (λ x, key x = name) l).
Proof.
  induction l as [|x l IH]; simpl; [done|].
  rewrite filter_cons.
  destruct (String.eqb_spec (key x) name) as [Heq|Hne];
    case_decide; done.
Qed.

(** X30. The line that the validate command prints for a declared
    variable follows what the field validator returned for it: the
    error's message, with the status [missing] for a missing variable
    and [invalid] for any other error; else the message of the default
    that was applied; else, for a parsed value, [valid] with the format
    of the spec or, without one, its type. A variable that was passed
    over gets no line at all, unless [Object.prototype] has a member of
    its name: the command then finds that member in the parsed mapping
    and prints the line of a valid variable. *)
Theorem report_line_follows_field_result schema env options r name spec :
  validate schema env options = returned r →
  NoDup (keys (EnvSchema.variables schema)) →
  (name, spec) ∈ EnvSchema.variables schema →
  ∃ fr,
    validateVariable name (env_get env name) spec = returned fr
    ∧ report_line schema r name
      = let valid_line :=
          Some (line_valid,
                match VariableSpec.format spec with
                | Some fmt =>
                    if JS.truthy fmt then fmt
                    else type_name (VariableSpec.type spec)
                | None => type_name (VariableSpec.type spec)
                end) in
        match FieldResult.error fr, FieldResult.warning fr,
              FieldResult.parsed fr with
        | Some e, _, _ =>
            Some (if decide (ValidationError.type e = missing)
                  then line_missing else line_invalid,
                  ValidationError.message e)
        | None, Some w, _ => Some (line_default, ValidationWarning.message w)
        | None, None, Some _ => valid_line
        | None, None, None =>
            match Proto.find name with
            | Some _ => valid_line
            | None => None
            end
        end.
Proof.
  intros Hr Hnd Hin.
  destruct (validate_for_variable schema env options r name spec Hr Hnd Hin)
    as (fr & Hfr & He & Hw & Hp).
  exists fr. split; [exact Hfr|].
  unfold errors_for in He. unfold warnings_for in Hw.
  unfold report_line, has_parsed. rewrite !find_head_filter, He, Hw, Hp.
  rewrite (proj2 (get_Some_NoDup _ name spec Hnd) Hin).
  destruct (validateVariable_outcome _ _ _ _ Hfr) as [e _|d| |v]; simpl.
  - by destruct (ValidationError.type e).
  - done.
  - unfold kept. destruct (String.eqb name _); by destruct (Proto.find name).
  - unfold kept. destruct (String.eqb_spec name "__proto__") as [->|_]; done.
Qed.

End Report.

Lemma report_line_follows_field_result_witness :
  NoDup (keys (EnvSchema.variables two_variables))
  ∧ ∃ r, validate (host := plain_host) two_variables [] Options.none
         = returned r
         ∧ report_line two_variables r "API_KEY"
           = Some (line_missing, "Required variable is missing"%string)
         ∧ report_line two_variables r "DEBUG" = None.
Proof.
  assert (NoDup (keys (EnvSchema.variables two_variables))) as Hnd.
  { apply (bool_decide_unpack _). vm_compute. reflexivity. }
  split; [exact Hnd|].
  eexists. split; [vm_compute; reflexivity|]. split.
  - match goal with |- report_line _ ?r _ = _ =>
      destruct (report_line_follows_field_result (host := plain_host)
                  two_variables [] Options.none r "API_KEY"
                  (field_spec type_string true))
        as (fr & Hfr & ->);
        [vm_compute; reflexivity|exact Hnd|apply list_elem_of_here|]
    end.
    injection Hfr as <-. reflexivity.
  - match goal with |- report_line _ ?r _ = _ =>
      destruct (report_line_follows_field_result (host := plain_host)
                  two_variables [] Options.none r "DEBUG"
                  (field_spec type_boolean false))
        as (fr & Hfr & ->);
        [vm_compute; reflexivity|exact Hnd
        |apply list_elem_of_further, list_elem_of_here|]
    end.
    injection Hfr as <-. reflexivity.
Defined.

(** ** The unit tests of the repository and the examples of the
    specification, run on the embedding

    Those that do not call the host's URL parser or regular
    expressions. *)

Module Tests.

Definition run (vars : list (string * VariableSpec.t)) (env : Env)
  : thrown ValidationResult.t :=
  validate (host := plain_host) (schema_of vars) env Options.none.

Definition kinds (r : ValidationResult.t) : list ErrorType :=
  map ValidationError.type (ValidationResult.errors r).

(** The call returns, and what it returns has the property. *)
Definition returns {A : Type} (call : thrown A) (P : A → Prop) : Prop :=
  match call with
  | returned a => P a
  | threw _ => False
  end.

Example required_string :
  returns (run [("DATABASE_URL"%string, field_spec type_string true)]
               [("DATABASE_URL"%string, Some "postgres://localhost"%string)])
    (λ r, ValidationResult.valid r = true
          ∧ ValidationResult.errors r = []
          ∧ ValidationResult.parsed r !! "DATABASE_URL"%string
            = Some (typed (VString "postgres://localhost"))).
Proof. vm_compute. done. Qed.

Example missing_required :
  returns (run [("API_KEY"%string, field_spec type_string true)] [])
    (λ r, ValidationResult.valid r = false
          ∧ ValidationResult.errors r
            = [error_of "API_KEY" "Required variable is missing" missing
                 None None]).
Proof. vm_compute. done. Qed.

Example default_for_optional :
  returns (run [("PORT"%string,
                 set_default (VNumber (JS.of_Z 3000))
                   (field_spec type_number false))] [])
    (λ r, ValidationResult.valid r = true
          ∧ ValidationResult.parsed r !! "PORT"%string
            = Some (typed (VNumber (JS.of_Z 3000)))
          ∧ ValidationResult.warnings r
            = [ {| ValidationWarning.variable := "PORT";
                   ValidationWarning.message := "Using default value: 3000";
                   ValidationWarning.type := default_applied |} ]).
Proof. vm_compute. done. Qed.

Example coerce_number :
  returns (run [("PORT"%string, field_spec type_number true)]
               [("PORT"%string, Some "8080"%string)])
    (λ r, ValidationResult.valid r = true
          ∧ ValidationResult.parsed r !! "PORT"%string
            = Some (typed (VNumber (JS.of_Z 8080)))).
Proof. vm_compute. done. Qed.

Example invalid_number :
  returns (run [("PORT"%string, field_spec type_number true)]
               [("PORT"%string, Some "not-a-number"%string)])
    (λ r, ValidationResult.valid r = false ∧ kinds r = [invalid_type]).
Proof. vm_compute. done. Qed.

Example coerce_boolean :
  map (λ v, coerceValue (host := plain_host) (typed v) type_boolean)
      ["true"; "1"; "yes"; "on"; "TRUE"; "Yes";
       "false"; "0"; "no"; "off"; "FALSE"; "No"]%string
  = map (λ b, returned {| Coerced.success := true;
                          Coerced.value := typed (VBoolean b);
                          Coerced.error := None |})
        [true; true; true; true; true; true;
         false; false; false; false; false; false]
  ∧ returns (coerceValue (host := plain_host) (typed "maybe"%string)
               type_boolean)
      (λ coerced, Coerced.success coerced = false).
Proof. vm_compute. done. Qed.

Example enum_values :
  let vars := [("NODE_ENV"%string,
                set_enum ["development"; "production"; "test"]%string
                  (field_spec type_string true))] in
  returns (run vars [("NODE_ENV"%string, Some "production"%string)])
    (λ r, ValidationResult.valid r = true)
  ∧ returns (run vars [("NODE_ENV"%string, Some "staging"%string)])
      (λ r, kinds r = [invalid_enum]).
Proof. vm_compute. done. Qed.

Example email_format :
  let vars := [("ADMIN_EMAIL"%string,
                set_format "email" (field_spec type_string true))] in
  returns (run vars [("ADMIN_EMAIL"%string, Some "admin@example.com"%string)])
    (λ r, kinds r = [])
  ∧ returns (run vars [("ADMIN_EMAIL"%string, Some "not-an-email"%string)])
      (λ r, kinds r = [invalid_format]).
Proof. vm_compute. done. Qed.

Example uuid_format :
  let vars := [("SESSION_ID"%string,
                set_format "uuid" (field_spec type_string true))] in
  returns (run vars [("SESSION_ID"%string,
                      Some "550e8400-e29b-41d4-a716-446655440000"%string)])
    (λ r, kinds r = [])
  ∧ returns (run vars [("SESSION_ID"%string, Some "not-a-uuid"%string)])
      (λ r, kinds r = [invalid_format]).
Proof. vm_compute. done. Qed.

Example port_format :
  let vars := [("PORT"%string, set_format "port" (field_spec type_string true))] in
  returns (run vars [("PORT"%string, Some "8080"%string)]) (λ r, kinds r = [])
  ∧ returns (run vars [("PORT"%string, Some "99999"%string)])
      (λ r, kinds r = [invalid_format]).
Proof. vm_compute. done. Qed.

Example unknown_format :
  returns (run [("KEY"%string, set_format "ipv4" (field_spec type_string true))]
               [("KEY"%string, Some "anything"%string)])
    (λ r, kinds r = []).
Proof. vm_compute. done. Qed.

Example number_range :
  let vars := [("RETRY_COUNT"%string,
                set_bounds 1 10 (field_spec type_number true))] in
  returns (run vars [("RETRY_COUNT"%string, Some "5"%string)])
    (λ r, ValidationResult.parsed r !! "RETRY_COUNT"%string
          = Some (typed (VNumber (JS.of_Z 5))))
  ∧ returns (run vars [("RETRY_COUNT"%string, Some "0"%string)])
      (λ r, ValidationResult.errors r
            = [error_of "RETRY_COUNT" "Value 0 is less than minimum 1"
                 invalid_range (Some ">= 1"%string)
                 (Some (typed "0"%string))])
  ∧ returns (run vars [("RETRY_COUNT"%string, Some "15"%string)])
      (λ r, ValidationResult.errors r
            = [error_of "RETRY_COUNT" "Value 15 is greater than maximum 10"
                 invalid_range (Some "<= 10"%string)
                 (Some (typed "15"%string))]).
Proof. vm_compute. done. Qed.

Example string_length :
  let vars := [("API_KEY"%string,
                set_lengths 10 50 (field_spec type_string true))] in
  returns (run vars [("API_KEY"%string, Some "abcdefghij"%string)])
    (λ r, kinds r = [])
  ∧ returns (run vars [("API_KEY"%string, Some "short"%string)])
      (λ r, ValidationResult.errors r
            = [error_of "API_KEY" "Value length 5 is less than minimum 10"
                 invalid_range (Some "length >= 10"%string)
                 (Some (typed "5"%string))]).
Proof. vm_compute. done. Qed.

Example multiple_variables :
  returns
    (run [ ("DATABASE_URL"%string, field_spec type_string true);
           ("PORT"%string,
            set_default (VNumber (JS.of_Z 3000))
              (field_spec type_number false));
           ("NODE_ENV"%string,
            set_enum ["dev"; "prod"]%string (field_spec type_string true));
           ("DEBUG"%string,
            set_default (VBoolean false) (field_spec type_boolean false)) ]
         [ ("DATABASE_URL"%string, Some "postgres://localhost"%string);
           ("NODE_ENV"%string, Some "prod"%string) ])
    (λ r, ValidationResult.valid r = true
          ∧ ValidationResult.parsed r !! "DATABASE_URL"%string
            = Some (typed (VString "postgres://localhost"))
          ∧ ValidationResult.parsed r !! "PORT"%string
            = Some (typed (VNumber (JS.of_Z 3000)))
          ∧ ValidationResult.parsed r !! "NODE_ENV"%string
            = Some (typed (VString "prod"))
          ∧ ValidationResult.parsed r !! "DEBUG"%string
            = Some (typed (VBoolean false))
          ∧ map ValidationWarning.variable (ValidationResult.warnings r)
            = ["PORT"; "DEBUG"]%string).
Proof. vm_compute. done. Qed.

Example multiple_errors :
  returns (run [ ("REQUIRED_1"%string, field_spec type_string true);
                 ("REQUIRED_2"%string, field_spec type_string true);
                 ("REQUIRED_3"%string, field_spec type_string true) ] [])
    (λ r, ValidationResult.valid r = false
          ∧ map ValidationError.variable (ValidationResult.errors r)
            = ["REQUIRED_1"; "REQUIRED_2"; "REQUIRED_3"]%string).
Proof. vm_compute. done. Qed.

Example isValid_both :
  isValid (host := plain_host)
    (schema_of [("KEY"%string, field_spec type_string true)])
    [("KEY"%string, Some "value"%string)] = returned true
  ∧ isValid (host := plain_host)
      (schema_of [("KEY"%string, field_spec type_string true)]) []
    = returned false.
Proof. vm_compute. done. Qed.

Example strict_mode :
  returns (validate (host := plain_host) database_schema extra_env strict_on)
    (λ r, ValidationResult.warnings r = [unused_warning "EXTRA"])
  ∧ returns (validate (host := plain_host) database_schema extra_env
               Options.none)
      (λ r, ValidationResult.warnings r = []).
Proof. vm_compute. done. Qed.

(** What an environment without keys gives for names that
    [Object.prototype] has: the function as the value of a string, a
    type error for a number, and an exception for a boolean. *)
Example inherited_values :
  returns (run [("toString"%string, field_spec type_string true)] [])
    (λ r, ValidationResult.valid r = true
          ∧ ValidationResult.parsed r !! "toString"%string
            = Some (inherited Proto.toString))
  ∧ returns (run [("constructor"%string, field_spec type_number true)] [])
      (λ r, kinds r = [invalid_type])
  ∧ run [("valueOf"%string, field_spec type_boolean false)] []
    = threw "value.toLowerCase is not a function".
Proof. vm_compute. done. Qed.

(** Formats that the table of validators inherits. *)
Example inherited_formats :
  let vars fmt := [("KEY"%string, set_format fmt (field_spec type_string true))] in
  let env : Env := [("KEY"%string, Some "anything"%string)] in
  returns (run (vars "isPrototypeOf"%string) env)
    (λ r, kinds r = [invalid_format])
  ∧ returns (run (vars "constructor"%string) env) (λ r, kinds r = [])
  ∧ run (vars "hasOwnProperty"%string) env
    = threw "Cannot convert undefined or null to object"
  ∧ run (vars "__proto__"%string) env = threw "validator is not a function".
Proof. vm_compute. done. Qed.

(** The key [__proto__] and keys that are array indices. *)
Example object_keys :
  returns (run [("__proto__"%string,
                 set_default (VString "d") (field_spec type_string true))]
               [("__proto__"%string, Some EmptyString)])
    (λ r, map ValidationWarning.variable (ValidationResult.warnings r)
          = ["__proto__"%string]
          ∧ ValidationResult.parsed r = ∅)
  ∧ keys (Obj.spread (Obj.spread [] [("b", "1"); ("2", "x")])
            [("10", "q"); ("a", "w"); ("1", "z"); ("__proto__", "p")])%string
    = ["1"; "2"; "10"; "b"; "a"; "__proto__"]%string
  ∧ keys (mergeEnv [[("b", "1"); ("2", "x")];
                    [("10", "q"); ("a", "w"); ("1", "z"); ("__proto__", "p")]])%string
    = ["1"; "2"; "10"; "b"; "a"]%string.
Proof. vm_compute. done. Qed.

(** Names that begin with a member of the list are system variables
    too. *)
Example system_variables :
  map isSystemEnvVar
      ["PATH"; "PATHS"; "HOME"; "_"; "_private"; "XDG_RUNTIME_DIR"; "USERNAME";
       "EXTRA"; "MY_PATH"; "path"]%string
  = [true; true; true; true; true; true; true; false; false; false].
Proof. vm_compute. done. Qed.

(** What [Number] and [String] give on some texts. *)
Example number_of_text :
  map (λ s, JS.toString (JS.Number s))
      ["8080"; " 12 "; "0x1F"; "1e3"; ".5"; "5."; "-0"; "1e21"; "0.1";
       "1e-7"; "-Infinity"; "1e400"; "12px"; "1,5"; "+-1"]%string
  = ["8080"; "12"; "31"; "1000"; "0.5"; "5"; "0"; "1e+21"; "0.1";
     "1e-7"; "-Infinity"; "Infinity"; "NaN"; "NaN"; "NaN"]%string.
Proof. vm_compute. done. Qed.

End Tests.
